(** * MarketSnapshot: performance calculation, aggregation, ranking, heatmap

    A shallow embedding of the decision logic of [MarketSnapshot.py]:

    - [calculate_yfinance_performance], [calculate_fred_performance] and
      [get_currency_performance] (day / week / month change of one series);
    - the table-building loops of [generate_morning_report] and the choice
      of its top-performer chart;
    - [get_top_bottom_performers];
    - [get_heatmap_class] and the heatmap ranges of [create_html_table];
    - [generate_plotly_chart].

    Conventions of the embedding.

    - A normalized pandas timestamp is a day number in [Z]; [TODAY] is a
      parameter of every function that reads the module-level constant.
    - In the calculators and the tables a Python float is read as the
      rational it denotes ([Q]), "exactly zero" is [== 0] and the
      arithmetic is exact; NaN and the infinities have no counterpart
      there.
    - In [get_heatmap_class], whose result changes with the rounding of a
      quotient, a float is a binary64 value ([pyfloat]: a finite value, an
      infinity or NaN), division and multiplication round to nearest as
      IEEE 754 prescribes, and the power [** 0.5], which the C library
      computes, is a parameter (class [Libm]).
    - A Python exception is a value [Raise e] of the [result] type, so that
      "does not raise" is a statement about the model and not a consequence
      of its typing.
    - The frames handed to the calculators are either [pd.DataFrame()] or
      a frame with the single column ['Close']; both are lists of
      observations, the first one empty, so the test
      ['Close' not in current_price_df.columns] coincides with [.empty].
    - [sort_values] is called with pandas' default [kind], which promises
      a sorted result and nothing about rows of equal value; it is a
      parameter of the ranker (class [Pandas]), constrained by
      [sort_values_sorts]. *)

From Stdlib Require Import ZArith QArith Qround Qabs Qminmax Qpower.
From Stdlib Require Import List String Ascii Bool Lia Lqa.
From Stdlib Require Import Permutation Sorted.
From Stdlib Require Import DecimalString.
From Stdlib Require PrimFloat SpecFloat FloatOps.
Import ListNotations.

Local Open Scope Z_scope.

(** ** Exceptions *)

Inductive exn : Type :=
| IndexError
| ZeroDivisionError
| KeyError
| ValueError
| OverflowError
| TypeError
| ProviderError.

Inductive result (A : Type) : Type :=
| Ok (a : A)
| Raise (e : exn).

Arguments Ok {A} a.
Arguments Raise {A} e.

Definition bind {A B : Type} (c : result A) (k : A -> result B) : result B :=
  match c with
  | Ok a => k a
  | Raise e => Raise e
  end.

Notation "x <- c ;; k" := (bind c (fun x => k))
  (at level 61, c at next level, right associativity).
Notation "' pat <- c ;; k" := (bind c (fun x => let 'pat := x in k))
  (at level 61, pat pattern, c at next level, right associativity).

(** [try: c except Exception: h] *)
Definition try_except {A : Type} (c : result A) (h : A) : A :=
  match c with
  | Ok a => a
  | Raise _ => h
  end.

(** ** Cells, observations, series *)

(** A table cell: a float or a string such as ["N/A"]. *)
Inductive cell : Type :=
| Num (q : Q)
| Str (s : string).

Definition NA : cell := Str "N/A".

Definition date : Type := Z.
Definition obs : Type := (date * Q)%type.
Definition series : Type := list obs.

(** [df.empty] *)
Definition empty {A : Type} (df : list A) : bool :=
  match df with
  | [] => true
  | _ :: _ => false
  end.

(** [x.iloc[-k]] for [k >= 1]: the k-th element from the end, [IndexError]
    when the frame has fewer than [k] rows. *)
Definition iloc_neg {A : Type} (k : nat) (df : list A) : result A :=
  if (List.length df <? k)%nat then Raise IndexError
  else match nth_error df (List.length df - k) with
       | Some x => Ok x
       | None => Raise IndexError
       end.

(** [a / b] on Python floats. *)
Definition py_div (a b : Q) : result Q :=
  if Qeq_bool b 0 then Raise ZeroDivisionError else Ok (a / b)%Q.

(** Insertion sort, inserting each element after the ones that are [le] to
    it: equal keys keep their input order. *)
Fixpoint insert_by {A : Type} (le : A -> A -> bool) (x : A) (l : list A)
    : list A :=
  match l with
  | [] => [x]
  | y :: l' => if le y x then y :: insert_by le x l' else x :: l
  end.

Definition isort {A : Type} (le : A -> A -> bool) (l : list A) : list A :=
  fold_left (fun acc x => insert_by le x acc) l [].

Definition date_le (a b : obs) : bool := fst a <=? fst b.

(** [df.sort_index()]: ascending by date.  A fetched series has one row per
    normalized day, and for unique dates the result is the only sorted
    arrangement, whatever algorithm sorts (lemma [sort_index_unique]);
    insertion sort computes it. *)
Definition sort_index (df : series) : series := isort date_le df.

(** [df[df.index <= cutoff]] *)
Definition slice_le (cutoff : date) (df : series) : series :=
  filter (fun o : obs => fst o <=? cutoff) df.

(** ** Performance calculators *)

Record performance : Type := mk_performance {
  Day : cell;
  Week : cell;
  Month : cell
}.

Definition set_Day (p : performance) (v : cell) : performance :=
  {| Day := v; Week := Week p; Month := Month p |}.
Definition set_Week (p : performance) (v : cell) : performance :=
  {| Day := Day p; Week := v; Month := Month p |}.
Definition set_Month (p : performance) (v : cell) : performance :=
  {| Day := Day p; Week := Week p; Month := v |}.

Definition performance_init : performance :=
  {| Day := NA; Week := NA; Month := NA |}.

(** [if ref != 0: performance[k] = ((cur - ref) / ref) * 100] *)
Definition pct_update (set : performance -> cell -> performance)
    (perf : performance) (cur ref : Q) : result performance :=
  if negb (Qeq_bool ref 0) then
    q <- py_div (cur - ref)%Q ref ;;
    Ok (set perf (Num (q * 100)%Q))
  else Ok perf.

(** The week and month blocks of the percentage calculators. *)
Definition pct_lookback (set : performance -> cell -> performance)
    (perf : performance) (TODAY : date) (days : Z)
    (df : series) (cur : Q) : result performance :=
  let ago_date := TODAY - days in
  let ago_slice := slice_le ago_date df in
  if negb (empty ago_slice) then
    o <- iloc_neg 1 ago_slice ;;
    pct_update set perf cur (snd o)
  else Ok perf.

(** The parameter [ticker_symbol] of the two percentage calculators is not
    read by them and is left out. *)
Definition calculate_yfinance_performance (TODAY : date)
    (current_price_df : series) : result performance :=
  let perf := performance_init in
  if empty current_price_df then Ok perf else
  let current_price_df := sort_index current_price_df in
  if empty current_price_df then Ok perf else
  o <- iloc_neg 1 current_price_df ;;
  let current_price := snd o in
  perf <-
    (if (2 <=? List.length current_price_df)%nat then
       o' <- iloc_neg 2 current_price_df ;;
       pct_update set_Day perf current_price (snd o')
     else Ok perf) ;;
  perf <-
    pct_lookback set_Week perf TODAY 7 current_price_df current_price ;;
  perf <-
    pct_lookback set_Month perf TODAY 30 current_price_df current_price ;;
  Ok perf.

(** The week and month blocks of the raw-difference calculator. *)
Definition diff_lookback (set : performance -> cell -> performance)
    (perf : performance) (TODAY : date) (days : Z)
    (df : series) (cur : Q) : result performance :=
  let ago_date := TODAY - days in
  let ago_slice := slice_le ago_date df in
  if negb (empty ago_slice) then
    o <- iloc_neg 1 ago_slice ;;
    Ok (set perf (Num (cur - snd o)%Q))
  else Ok perf.

Definition calculate_fred_performance (TODAY : date)
    (series_data : series) : result performance :=
  let perf := performance_init in
  if empty series_data then Ok perf else
  let series_data := sort_index series_data in
  o <- iloc_neg 1 series_data ;;
  let current_value := snd o in
  perf <-
    (if (2 <=? List.length series_data)%nat then
       o' <- iloc_neg 2 series_data ;;
       Ok (set_Day perf (Num (current_value - snd o')%Q))
     else Ok perf) ;;
  perf <-
    diff_lookback set_Week perf TODAY 7 series_data current_value ;;
  perf <-
    diff_lookback set_Month perf TODAY 30 series_data current_value ;;
  Ok perf.

Definition get_currency_performance (TODAY : date)
    (current_price_df : series) : result (performance * option Q) :=
  let perf := performance_init in
  let current_rate := None in
  if empty current_price_df then Ok (perf, current_rate) else
  let current_price_df := sort_index current_price_df in
  if empty current_price_df then Ok (perf, current_rate) else
  o <- iloc_neg 1 current_price_df ;;
  let current_rate := snd o in
  perf <-
    (if (2 <=? List.length current_price_df)%nat then
       o' <- iloc_neg 2 current_price_df ;;
       pct_update set_Day perf current_rate (snd o')
     else Ok perf) ;;
  perf <-
    pct_lookback set_Week perf TODAY 7 current_price_df current_rate ;;
  perf <-
    pct_lookback set_Month perf TODAY 30 current_price_df current_rate ;;
  Ok (perf, Some current_rate).

(** ** Fetchers *)

(** The two external providers: [yf.download] (reduced to the rows of its
    ['Close'] column) and the FRED observations endpoint (the ['value']
    strings already passed through [pd.to_numeric(errors='coerce')], [None]
    for an entry that did not parse).  Either may raise. *)
Record providers : Type := {
  yf_download : string -> date -> date -> result series;
  fred_observations : string -> date -> date -> result (list (date * option Q))
}.

(** [.dropna()] on a series of coerced values. *)
Fixpoint dropna (l : list (date * option Q)) : series :=
  match l with
  | [] => []
  | (d, Some v) :: l' => (d, v) :: dropna l'
  | (_, None) :: l' => dropna l'
  end.

Definition get_yfinance_data (P : providers) (ticker_symbol : string)
    (start_date end_date : date) : series :=
  try_except
    (data <- yf_download P ticker_symbol start_date end_date ;;
     if empty data then Ok [] else Ok data)
    [].

(** [not api_key]: unset, or the empty string. *)
Definition key_missing (api_key : option string) : bool :=
  match api_key with
  | None => true
  | Some k => String.eqb k ""
  end.

Definition get_fred_data (P : providers) (series_id : string)
    (api_key : option string) (start_date end_date : date) : series :=
  if key_missing api_key then [] else
  try_except
    (observations <- fred_observations P series_id start_date end_date ;;
     if empty observations then Ok [] else Ok (dropna observations))
    [].

(** ** Dictionaries and the report tables *)

(** A [dict] with string keys, in insertion order. *)
Definition dict (V : Type) : Type := list (string * V).

Definition keys {V : Type} (d : dict V) : list string := map fst d.

Fixpoint dict_find {V : Type} (d : dict V) (k : string) : option V :=
  match d with
  | [] => None
  | (k', v) :: d' => if String.eqb k' k then Some v else dict_find d' k
  end.

(** [k in d] *)
Definition dict_mem {V : Type} (d : dict V) (k : string) : bool :=
  match dict_find d k with
  | Some _ => true
  | None => false
  end.

(** [d[k]] *)
Definition dict_get {V : Type} (d : dict V) (k : string) : result V :=
  match dict_find d k with
  | Some v => Ok v
  | None => Raise KeyError
  end.

(** [name in l] on a list of strings. *)
Definition str_mem (name : string) (l : list string) : bool :=
  existsb (String.eqb name) l.

(** [sorted(l)] on strings (code-point order). *)
Definition sorted (l : list string) : list string := isort String.leb l.

(** [for x in l: body], threading the loop state and stopping at the first
    exception. *)
Fixpoint for_each {A S : Type} (l : list A) (s : S)
    (body : S -> A -> result S) : result S :=
  match l with
  | [] => Ok s
  | x :: l' => s' <- body s x ;; for_each l' s' body
  end.

Definition THREE_MONTHS_AGO_FOR_FETCH (TODAY : date) : date := TODAY - 95.

Definition US_EQUITY_TICKERS : dict string :=
  [ ("S&P 500", "SPY"); ("QQQ (Nasdaq 100)", "QQQ"); ("Russell 2000", "IWM");
    ("Real Estate (XLRE)", "XLRE"); ("Communication Services (XLC)", "XLC");
    ("Technology (XLK)", "XLK"); ("Industrials (XLI)", "XLI");
    ("Health Care (XLV)", "XLV"); ("Financials (XLF)", "XLF");
    ("Consumer Staples (XLP)", "XLP"); ("Consumer Discretionary (XLY)", "XLY");
    ("Energy (XLE)", "XLE"); ("Materials (XLB)", "XLB");
    ("Utilities (XLU)", "XLU") ]%string.

Definition us_equity_order : list string :=
  [ "S&P 500"; "QQQ (Nasdaq 100)"; "Russell 2000" ]%string.

Definition FRED_FIXED_INCOME_SERIES : dict string :=
  [ ("3-Month T-Bill Yield", "DTB3"); ("2-Year T-Note Yield", "DGS2");
    ("10-Year T-Bond Yield", "DGS10"); ("30-Year T-Bond Yield", "DGS30") ]%string.

Definition YFINANCE_FIXED_INCOME_TICKERS : dict string :=
  [ ("MOVE Index", "^MOVE"); ("High Grade Bonds", "LQD");
    ("High Yield Bonds", "HYG") ]%string.

Definition full_fixed_income_order : list string :=
  [ "MOVE Index"; "3-Month T-Bill Yield"; "2-Year T-Note Yield";
    "10-Year T-Bond Yield"; "30-Year T-Bond Yield"; "High Grade Bonds";
    "High Yield Bonds" ]%string.

(** One row of a report table (a dict appended to the row list); the
    fixed-income rows have no ["Ticker"] entry. *)
Record row : Type := mk_row {
  Asset : string;
  Ticker : option string;
  Current_Level : cell;
  Past_Day_Change : cell;
  Past_Week_Change : cell;
  Past_Month_Change : cell
}.

(** [remaining = sorted([name for name in TICKERS.keys() if name not in order])]
    and [full_order = order + remaining]. *)
Definition full_order {V : Type} (TICKERS : dict V) (order : list string)
    : list string :=
  order ++ sorted (filter (fun name => negb (str_mem name order)) (keys TICKERS)).

(** The loop that fills [us_equity_data_list], for any ticker dictionary and
    leading order. *)
Definition us_equities_df (P : providers) (TODAY : date)
    (TICKERS : dict string) (order : list string) : result (list row) :=
  let full_us_equity_order := full_order TICKERS order in
  for_each full_us_equity_order []
    (fun us_equity_data_list name =>
       ticker <- dict_get TICKERS name ;;
       let hist_data_df :=
         get_yfinance_data P ticker (THREE_MONTHS_AGO_FOR_FETCH TODAY) TODAY in
       perf <- calculate_yfinance_performance TODAY hist_data_df ;;
       current <-
         (if negb (empty hist_data_df)
          then o <- iloc_neg 1 hist_data_df ;; Ok (Num (snd o))
          else Ok NA) ;;
       Ok (us_equity_data_list ++
             [ {| Asset := name; Ticker := Some ticker;
                  Current_Level := current;
                  Past_Day_Change := Day perf;
                  Past_Week_Change := Week perf;
                  Past_Month_Change := Month perf |} ])).

(** The loop that fills [fixed_income_data]. *)
Definition fixed_income_df (P : providers) (TODAY : date)
    (FRED_API_KEY : option string)
    (FRED_SERIES YF_TICKERS : dict string) (order : list string)
    : result (list row) :=
  for_each order []
    (fun fixed_income_data name =>
       let init := (NA, NA, NA, NA) in
       '(current_val, day_chg, week_chg, month_chg) <-
         (if dict_mem FRED_SERIES name then
            s_id <- dict_get FRED_SERIES name ;;
            let s_hist :=
              get_fred_data P s_id FRED_API_KEY
                (THREE_MONTHS_AGO_FOR_FETCH TODAY) TODAY in
            if negb (empty s_hist) then
              o <- iloc_neg 1 s_hist ;;
              perf <- calculate_fred_performance TODAY s_hist ;;
              Ok (Num (snd o), Day perf, Week perf, Month perf)
            else Ok init
          else if dict_mem YF_TICKERS name then
            tckr <- dict_get YF_TICKERS name ;;
            let h_df :=
              get_yfinance_data P tckr (THREE_MONTHS_AGO_FOR_FETCH TODAY) TODAY in
            if negb (empty h_df) then
              o <- iloc_neg 1 h_df ;;
              perf <- calculate_yfinance_performance TODAY h_df ;;
              Ok (Num (snd o), Day perf, Week perf, Month perf)
            else Ok init
          else Ok init) ;;
       Ok (fixed_income_data ++
             [ {| Asset := name; Ticker := None;
                  Current_Level := current_val;
                  Past_Day_Change := day_chg;
                  Past_Week_Change := week_chg;
                  Past_Month_Change := month_chg |} ])).

(** ** Ranker *)

(** What [get_top_bottom_performers] takes from pandas: the parser behind
    [pd.to_numeric(errors='coerce')] on a string cell ([None] for NaN) and
    [sort_values(by=..., ascending=...)] with the default [kind]. *)
Class Pandas : Type := {
  str_to_numeric : string -> option Q;
  sort_values : forall {A : Type}, (A -> Q) -> bool -> list A -> list A
}.

(** The order [sort_values] establishes between consecutive rows. *)
Definition ordered {A : Type} (key : A -> Q) (ascending : bool) (x y : A)
    : Prop :=
  if ascending then (key x <= key y)%Q else (key y <= key x)%Q.

(** Every sorting algorithm behind [sort_values] returns the rows it was
    given, in order. *)
Definition sort_values_sorts (P : Pandas) : Prop :=
  forall (A : Type) (key : A -> Q) (ascending : bool) (l : list A),
    Permutation (sort_values key ascending l) l /\
    StronglySorted (ordered key ascending) (sort_values key ascending l).

Definition key_le {A : Type} (key : A -> Q) (ascending : bool) (x y : A)
    : bool :=
  if ascending then Qle_bool (key x) (key y) else Qle_bool (key y) (key x).

(** A [sort_values]: insertion sort on the key. *)
Definition stable_pandas (parse : string -> option Q) : Pandas :=
  {| str_to_numeric := parse;
     sort_values := fun A key ascending l => isort (key_le key ascending) l |}.

(** [pd.to_numeric(cell, errors='coerce')] *)
Definition to_numeric {P : Pandas} (c : cell) : option Q :=
  match c with
  | Num q => Some q
  | Str s => str_to_numeric s
  end.

(** [df.head(n)] and [df.tail(n)] for a row count [n]. *)
Definition head {A : Type} (n : nat) (df : list A) : list A := firstn n df.
Definition tail {A : Type} (n : nat) (df : list A) : list A :=
  skipn (List.length df - n) df.

(** The coerced column next to each row, rows with NaN dropped:
    [df_copy.dropna(subset=[column_name])]. *)
Fixpoint coerce_dropna {P : Pandas} {R : Type} (column : R -> cell)
    (df : list R) : list (R * Q) :=
  match df with
  | [] => []
  | r :: df' =>
      match to_numeric (column r) with
      | Some q => (r, q) :: coerce_dropna column df'
      | None => coerce_dropna column df'
      end
  end.

(** [column] reads the entry of a row in the column [column_name], which
    the table has.  A row of the result is the input row together with the
    numeric value that replaced that entry. *)
Definition get_top_bottom_performers {P : Pandas} {R : Type}
    (column : R -> cell) (df : list R) (num_performers : nat)
    : list (R * Q) * list (R * Q) :=
  let df_sorted := sort_values snd false (coerce_dropna column df) in
  (head num_performers df_sorted,
   sort_values snd true (tail num_performers df_sorted)).

(** One list is a subsequence of another: same elements, same relative
    order. *)
Inductive subseq {A : Type} : list A -> list A -> Prop :=
| subseq_nil : subseq [] []
| subseq_skip : forall x l1 l2, subseq l1 l2 -> subseq l1 (x :: l2)
| subseq_take : forall x l1 l2, subseq l1 l2 -> subseq (x :: l1) (x :: l2).

(** ** Heatmap *)

Definition green_classes : list string :=
  [ "bg-green-100"; "bg-green-200"; "bg-green-300"; "bg-green-400";
    "bg-green-500" ]%string.
Definition red_classes : list string :=
  [ "bg-red-100"; "bg-red-200"; "bg-red-300"; "bg-red-400";
    "bg-red-500" ]%string.

(** [len(l)] *)
Definition len {A : Type} (l : list A) : Z := Z.of_nat (List.length l).

(** [l[i]], negative indices counting from the end. *)
Definition py_index {A : Type} (l : list A) (i : Z) : result A :=
  let j := if i <? 0 then len l + i else i in
  if j <? 0 then Raise IndexError
  else match nth_error l (Z.to_nat j) with
       | Some x => Ok x
       | None => Raise IndexError
       end.

(** [min(a, b)] and [max(a, b)] on integers: the first argument unless the
    second is strictly better. *)
Definition py_max_int (a b : Z) : Z := if a <? b then b else a.
Definition py_min_int (a b : Z) : Z := if b <? a then b else a.

(** *** Binary64

    [get_heatmap_class] divides, takes a power and truncates, and the bucket
    it selects depends on how the quotient is rounded; here a float is a
    binary64 value and the operations round as IEEE 754 prescribes. *)

(** A float: a finite value, read as the rational it denotes, an infinity,
    or NaN.  A zero carries no sign; nothing below depends on it. *)
Inductive pyfloat : Type :=
| Fin (q : Q)
| PInf
| NInf
| NaN.

(** [2 ** e] *)
Definition pow2 (e : Z) : Q := (2 ^ e)%Q.

(** [floor(log2(q))] for [q > 0]. *)
Definition ilog2 (q : Q) : Z :=
  let l := Z.log2 (Qnum q) - Z.log2 (Zpos (Qden q)) in
  if Qle_bool (pow2 l) q then l else l - 1.

(** The integer nearest to [x], the even one of two equally near. *)
Definition round_half_even (x : Q) : Z :=
  let f := Qfloor x in
  match (x - inject_Z f ?= 1 # 2)%Q with
  | Lt => f
  | Gt => f + 1
  | Eq => if Z.even f then f else f + 1
  end.

(** The exponent of the unit in the last place around [q > 0]: 52 binary
    places below the leading bit, and [-1074] in the subnormal range. *)
Definition ulp_exponent (q : Q) : Z := Z.max (ilog2 q - 52) (-1074).

(** The double nearest to [q > 0], ties to even, were the exponent not
    bounded above. *)
Definition round_pos (q : Q) : Q :=
  (inject_Z (round_half_even (q / pow2 (ulp_exponent q)))
   * pow2 (ulp_exponent q))%Q.

(** Rounding to nearest of the exact result [q] of an operation: the
    nearest double, an infinity when that lies beyond the largest double.
    The rational of a finite result is in lowest terms. *)
Definition round64 (q : Q) : pyfloat :=
  match (q ?= 0)%Q with
  | Eq => Fin 0
  | Gt => let r := round_pos q in
          if Qle_bool (pow2 1024) r then PInf else Fin (Qred r)
  | Lt => let r := round_pos (- q) in
          if Qle_bool (pow2 1024) r then NInf else Fin (Qred (- r))
  end.

(** [a == b], [a < b] and [a <= b]: false as soon as one side is NaN. *)
Definition float_eqb (a b : pyfloat) : bool :=
  match a, b with
  | Fin x, Fin y => Qeq_bool x y
  | PInf, PInf | NInf, NInf => true
  | _, _ => false
  end.

Definition float_ltb (a b : pyfloat) : bool :=
  match a, b with
  | Fin x, Fin y => negb (Qle_bool y x)
  | NInf, Fin _ | NInf, PInf | Fin _, PInf => true
  | _, _ => false
  end.

Definition float_leb (a b : pyfloat) : bool := float_ltb a b || float_eqb a b.

(** [abs(a)] *)
Definition float_abs (a : pyfloat) : pyfloat :=
  match a with
  | Fin q => Fin (Qabs q)
  | PInf | NInf => PInf
  | NaN => NaN
  end.

Definition negative (a : pyfloat) : bool := float_ltb a (Fin 0).
Definition float_inf (neg : bool) : pyfloat := if neg then NInf else PInf.

(** [a / b]: a float raises on a zero divisor before it divides.  (A numpy
    scalar returns an infinity or NaN there instead; the function below
    never divides by zero.) *)
Definition float_div (a b : pyfloat) : result pyfloat :=
  if float_eqb b (Fin 0) then Raise ZeroDivisionError
  else Ok match a, b with
          | NaN, _ | _, NaN => NaN
          | Fin x, Fin y => round64 (x / y)
          | Fin _, _ => Fin 0
          | _, Fin _ => float_inf (xorb (negative a) (negative b))
          | _, _ => NaN
          end.

(** [a * b] *)
Definition float_mul (a b : pyfloat) : pyfloat :=
  match a, b with
  | NaN, _ | _, NaN => NaN
  | Fin x, Fin y => round64 (x * y)
  | Fin x, _ | _, Fin x =>
      if Qeq_bool x 0 then NaN
      else float_inf (xorb (negative a) (negative b))
  | _, _ => float_inf (xorb (negative a) (negative b))
  end.

(** [min(a, b)] on floats: [a] unless [b < a]. *)
Definition py_min (a b : pyfloat) : pyfloat := if float_ltb b a then b else a.

(** [int(x)]: truncation towards zero; NaN and the infinities have no
    integer. *)
Definition py_int (x : pyfloat) : result Z :=
  match x with
  | Fin q => Ok (if Qlt_le_dec q 0 then Qceiling q else Qfloor q)
  | NaN => Raise ValueError
  | PInf | NInf => Raise OverflowError
  end.

(** [x ** 0.5] on a finite [x > 0] is [pow(x, 0.5)] of the C library.  The
    C standard does not ask [pow] to round correctly and the libraries in
    use do not (their result is at times the other neighbour of the exact
    root than the one [sqrt] returns), so the function is a parameter. *)
Class Libm : Type := {
  pow_half : Q -> Q
}.

(** What the statements below ask of it on [(0, 1]], where the code calls
    it: the result lies in [[0, 1]], grows with the argument, and is 1 at 1
    (C99 F.9.4.4: [pow(+1, y)] returns 1). *)
Record libm_conforms (L : Libm) : Prop := {
  pow_half_unit :
    forall q, (0 < q)%Q -> (q <= 1)%Q ->
              (0 <= pow_half q)%Q /\ (pow_half q <= 1)%Q;
  pow_half_mono :
    forall q q', (0 < q)%Q -> (q <= q')%Q -> (q' <= 1)%Q ->
                 (pow_half q <= pow_half q')%Q;
  pow_half_one : (pow_half 1 == 1)%Q
}.

(** [x ** 0.5]: Python decides NaN, the infinities and zero itself and
    hands the rest to [pow]; for a negative [x] the result is a complex
    number, which [int()] then refuses with a [TypeError]. *)
Definition py_pow_half {L : Libm} (x : pyfloat) : result pyfloat :=
  match x with
  | NaN => Ok NaN
  | PInf | NInf => Ok PInf
  | Fin q =>
      match (q ?= 0)%Q with
      | Eq => Ok (Fin 0)
      | Gt => Ok (Fin (pow_half q))
      | Lt => Raise TypeError
      end
  end.

(** The square root rounded to nearest, ties to even, for [q > 0]: what a
    correctly rounding [pow] returns. *)
Definition round_sqrt (M : Q) : Z :=
  let m := Z.sqrt (Qfloor M) in
  match (M ?= (inject_Z m + (1 # 2)) * (inject_Z m + (1 # 2)))%Q with
  | Lt => m
  | Gt => m + 1
  | Eq => if Z.even m then m else m + 1
  end.

Definition sqrt64 (q : Q) : Q :=
  let e := ilog2 q / 2 - 52 in
  Qred (inject_Z (round_sqrt (q / pow2 (2 * e))) * pow2 e).

Definition correctly_rounded : Libm := {| pow_half := sqrt64 |}.

(** The value handed to [get_heatmap_class]: a float, or an object that is
    neither [int] nor [float] (the cells of the report are floats and
    strings). *)
Inductive pyobject : Type :=
| PyFloat (x : pyfloat)
| PyStr (s : string).

Definition cell_object (c : cell) : pyobject :=
  match c with
  | Num q => PyFloat (Fin q)
  | Str s => PyStr s
  end.

Definition get_heatmap_class {L : Libm} (value : pyobject)
    (min_col_val max_col_val : option pyfloat) : result string :=
  match value with
  | PyStr _ => Ok "bg-gray-200 text-gray-800"%string
  | PyFloat value =>
      if float_eqb value (Fin 0) then Ok "bg-gray-300 text-gray-800"%string
      else
      let text_class := "text-gray-800"%string in
      if float_ltb (Fin 0) value then
        scale <-
          match max_col_val with
          | None => Ok (Fin 1)
          | Some max_col_val =>
              if float_leb max_col_val (Fin 0) then Ok (Fin 1)
              else q <- float_div value max_col_val ;; Ok (py_min q (Fin 1))
          end ;;
        root <- py_pow_half scale ;;
        i <- py_int (float_mul root (Fin (inject_Z (len green_classes - 1)))) ;;
        let idx := py_max_int 0 (py_min_int i (len green_classes - 1)) in
        selected_class <- py_index green_classes idx ;;
        let text_class := if 3 <=? idx then "text-white"%string else text_class in
        Ok (selected_class ++ " " ++ text_class)%string
      else
        scale <-
          match min_col_val with
          | None => Ok (Fin 1)
          | Some min_col_val =>
              if float_leb (Fin 0) min_col_val then Ok (Fin 1)
              else q <- float_div (float_abs value) (float_abs min_col_val) ;;
                   Ok (py_min q (Fin 1))
          end ;;
        root <- py_pow_half scale ;;
        i <- py_int (float_mul root (Fin (inject_Z (len red_classes - 1)))) ;;
        let idx := py_max_int 0 (py_min_int i (len red_classes - 1)) in
        selected_class <- py_index red_classes idx ;;
        let text_class := if 3 <=? idx then "text-white"%string else text_class in
        Ok (selected_class ++ " " ++ text_class)%string
  end.


(** *** Doubles written as decimals

    The binary64 value of a float literal, through the primitive floats of
    the kernel, and the value of a primitive operation. *)
Module Binary64.
Import PrimFloat.

Definition of_spec (x : SpecFloat.spec_float) : pyfloat :=
  match x with
  | SpecFloat.S754_zero _ => Fin 0
  | SpecFloat.S754_infinity s => float_inf s
  | SpecFloat.S754_nan => NaN
  | SpecFloat.S754_finite s m e =>
      Fin (Qred ((if s then inject_Z (Z.neg m) else inject_Z (Z.pos m))
                 * pow2 e))
  end.

Definition double (x : float) : pyfloat := of_spec (FloatOps.Prim2SF x).



(** Pairs of doubles, among them the boundaries of the buckets. *)
Definition sample_pairs : list (float * float) :=
  [ (0x1.ccccccccccccdp-1, 0x1.999999999999ap+0);
    (1, 3); (2, 3); (1, 10); (7, 10); (3, 4); (9, 16);
    (0x1.fffffffffffffp-3, 1); (0x1p-1074, 3); (0x1p-1074, 2);
    (0x1.fffffffffffffp+1023, 0x1p-1); (5, 0x1p-1074);
    (0x1.5555555555555p-2, 0x1.8p+1); (123456789, 1000) ]%float.

End Binary64.

(** *** The bucket function as the specification words it *)

Inductive BucketId : Type :=
| neutral
| green (level : nat)
| red (level : nat).

(** [x] clamped to [[0, 1]], for [x] a quotient (which is not NaN). *)
Definition clamp01 (x : pyfloat) : Q :=
  match x with
  | Fin q => Qmax 0 (Qmin q 1)
  | PInf => 1
  | NInf | NaN => 0
  end.

(** The scale of a positive value against the column maximum, and of a
    negative value against the column minimum; the quotient is the one of
    the floats. *)
Definition green_scale (value : Q) (columnMax : option Q) : Q :=
  match columnMax with
  | Some mx => if Qlt_le_dec 0 mx then clamp01 (round64 (value / mx)) else 1%Q
  | None => 1%Q
  end.

Definition red_scale (value : Q) (columnMin : option Q) : Q :=
  match columnMin with
  | Some mn =>
      if Qlt_le_dec mn 0 then clamp01 (round64 (Qabs value / Qabs mn))
      else 1%Q
  | None => 1%Q
  end.

(** [sqrt(scale)] as the floats have it: the power [scale ** 0.5]. *)
Definition float_root {L : Libm} (scale : Q) : Q :=
  if Qeq_bool scale 0 then 0%Q else pow_half scale.

(** [floor(sqrt(scale) * 4)] clamped to [[0, 4]], the product being the
    one of the floats. *)
Definition bucket_index {L : Libm} (scale : Q) : Z :=
  match round64 (float_root scale * 4) with
  | Fin x => Z.max 0 (Z.min (Qfloor x) 4)
  | PInf => 4
  | NInf | NaN => 0
  end.

Definition bucket {L : Libm} (value : cell) (columnMin columnMax : option Q)
    : BucketId :=
  match value with
  | Str _ => neutral
  | Num v =>
      match (v ?= 0)%Q with
      | Eq => neutral
      | Gt => green (S (Z.to_nat (bucket_index (green_scale v columnMax))))
      | Lt => red (S (Z.to_nat (bucket_index (red_scale v columnMin))))
      end
  end.

(** The CSS classes that render a bucket: gray for [neutral] (a lighter
    one for a cell that is not a number), and one background per intensity,
    with white text from the fourth level on. *)
Definition bucket_class (value : cell) (b : BucketId) : string :=
  match b with
  | neutral =>
      match value with
      | Str _ => "bg-gray-200 text-gray-800"
      | Num _ => "bg-gray-300 text-gray-800"
      end
  | green 1 => "bg-green-100 text-gray-800"
  | green 2 => "bg-green-200 text-gray-800"
  | green 3 => "bg-green-300 text-gray-800"
  | green 4 => "bg-green-400 text-white"
  | green 5 => "bg-green-500 text-white"
  | red 1 => "bg-red-100 text-gray-800"
  | red 2 => "bg-red-200 text-gray-800"
  | red 3 => "bg-red-300 text-gray-800"
  | red 4 => "bg-red-400 text-white"
  | red 5 => "bg-red-500 text-white"
  | _ => ""
  end%string.



(** ** Closed forms and vocabulary of the statements *)

(** The last row of a frame, if any. *)
Definition last_row {A : Type} (l : list A) : option A :=
  match rev l with
  | [] => None
  | x :: _ => Some x
  end.

(** The percentage change of [cur] against [ref], unavailable when [ref]
    is zero; and the level difference. *)
Definition pct_cell (cur ref : Q) : cell :=
  if Qeq_bool ref 0 then NA else Num (((cur - ref) / ref) * 100)%Q.
Definition diff_cell (cur ref : Q) : cell := Num (cur - ref)%Q.

(** What the calculators return on a frame already sorted by date, for
    either change formula. *)
Definition lookback_cell (change : Q -> Q -> cell) (TODAY : date) (days : Z)
    (df : series) (cur : Q) : cell :=
  match last_row (slice_le (TODAY - days) df) with
  | Some r => change cur (snd r)
  | None => NA
  end.

Definition performance_of (change : Q -> Q -> cell) (TODAY : date)
    (df : series) : performance :=
  match rev df with
  | [] => performance_init
  | cur :: rest =>
      {| Day := match rest with
                | prev :: _ => change (snd cur) (snd prev)
                | [] => NA
                end;
         Week := lookback_cell change TODAY 7 df (snd cur);
         Month := lookback_cell change TODAY 30 df (snd cur) |}
  end.

(** Ascending order of dates. *)
Definition date_order (a b : obs) : Prop := fst a <= fst b.

(** [o] is an observation of [df] with the greatest date. *)
Definition latest (df : series) (o : obs) : Prop :=
  In o df /\ forall o', In o' df -> fst o' <= fst o.

(** [o] is an observation of [df] dated at or before [cutoff], with the
    greatest such date. *)
Definition as_of (df : series) (cutoff : date) (o : obs) : Prop :=
  In o df /\ fst o <= cutoff /\
  forall o', In o' df -> fst o' <= cutoff -> fst o' <= fst o.

(** [field] is the week (or month) cell a calculator with change formula
    [change] owes to the series [df] at [cutoff]: unavailable when nothing
    is dated at or before the cutoff, and otherwise the change of a latest
    observation against an as-of observation. *)
Definition lookback_field (change : Q -> Q -> cell) (df : series)
    (cutoff : date) (field : cell) : Prop :=
  ((forall o, In o df -> cutoff < fst o) -> field = NA) /\
  ((exists o, In o df /\ fst o <= cutoff) ->
   exists cur ref, latest df cur /\ as_of df cutoff ref /\
                   field = change (snd cur) (snd ref)).

(** The value shown as current level: the last row of the fetched frame,
    as fetched. *)
Definition current_level (hist : series) : cell :=
  match last_row hist with
  | Some o => Num (snd o)
  | None => NA
  end.

(** The three change cells of a row. *)
Definition changes (r : row) : performance :=
  {| Day := Past_Day_Change r;
     Week := Past_Week_Change r;
     Month := Past_Month_Change r |}.

(** A row whose current level and changes are all "N/A". *)
Definition unavailable (r : row) : Prop :=
  Current_Level r = NA /\ changes r = performance_init.

(** A provider call that raised, or returned nothing. *)
Definition failed_or_empty {A : Type} (c : result (list A)) : Prop :=
  match c with
  | Raise _ => True
  | Ok l => l = []
  end.

(** The row the equity loop appends for [name]. *)
Definition us_equity_row (P : providers) (TODAY : date) (TICKERS : dict string)
    (name : string) (r : row) : Prop :=
  exists ticker,
    dict_find TICKERS name = Some ticker /\
    Asset r = name /\ Ticker r = Some ticker /\
    Current_Level r =
      current_level (get_yfinance_data P ticker
                       (THREE_MONTHS_AGO_FOR_FETCH TODAY) TODAY) /\
    calculate_yfinance_performance TODAY
      (get_yfinance_data P ticker (THREE_MONTHS_AGO_FOR_FETCH TODAY) TODAY)
    = Ok (changes r).

(** The row the fixed-income loop appends for [name]: computed by the
    raw-difference calculator for a FRED series, by the percentage
    calculator for a Yahoo ticker, and unavailable for any other name. *)
Definition fixed_income_row (P : providers) (TODAY : date)
    (FRED_API_KEY : option string) (FRED_SERIES YF_TICKERS : dict string)
    (name : string) (r : row) : Prop :=
  Asset r = name /\ Ticker r = None /\
  match dict_find FRED_SERIES name with
  | Some s_id =>
      Current_Level r =
        current_level (get_fred_data P s_id FRED_API_KEY
                         (THREE_MONTHS_AGO_FOR_FETCH TODAY) TODAY) /\
      calculate_fred_performance TODAY
        (get_fred_data P s_id FRED_API_KEY
           (THREE_MONTHS_AGO_FOR_FETCH TODAY) TODAY)
      = Ok (changes r)
  | None =>
      match dict_find YF_TICKERS name with
      | Some tckr =>
          Current_Level r =
            current_level (get_yfinance_data P tckr
                             (THREE_MONTHS_AGO_FOR_FETCH TODAY) TODAY) /\
          calculate_yfinance_performance TODAY
            (get_yfinance_data P tckr (THREE_MONTHS_AGO_FOR_FETCH TODAY) TODAY)
          = Ok (changes r)
      | None => unavailable r
      end
  end.

(** A failed or empty fetch leaves the row of its asset unavailable. *)
Definition us_equity_row_degrades (P : providers) (TODAY : date) (r : row)
    : Prop :=
  forall ticker,
    Ticker r = Some ticker ->
    failed_or_empty
      (yf_download P ticker (THREE_MONTHS_AGO_FOR_FETCH TODAY) TODAY) ->
    unavailable r.

Definition fixed_income_row_degrades (P : providers) (TODAY : date)
    (FRED_API_KEY : option string) (FRED_SERIES YF_TICKERS : dict string)
    (r : row) : Prop :=
  match dict_find FRED_SERIES (Asset r) with
  | Some s_id =>
      key_missing FRED_API_KEY = true \/
      failed_or_empty
        (fred_observations P s_id (THREE_MONTHS_AGO_FOR_FETCH TODAY) TODAY) ->
      unavailable r
  | None =>
      match dict_find YF_TICKERS (Asset r) with
      | Some tckr =>
          failed_or_empty
            (yf_download P tckr (THREE_MONTHS_AGO_FOR_FETCH TODAY) TODAY) ->
          unavailable r
      | None => unavailable r
      end
  end.

(** Providers that are unreachable: every call raises. *)
Definition offline : providers :=
  {| yf_download := fun _ _ _ => Raise ProviderError;
     fred_observations := fun _ _ _ => Raise ProviderError |}.

(** Providers that serve one fixed series for every symbol. *)
Definition serving (df : series) : providers :=
  {| yf_download := fun _ _ _ => Ok df;
     fred_observations :=
       fun _ _ _ => Ok (map (fun o : obs => (fst o, Some (snd o))) df) |}.

(** A cell that [pd.to_numeric] turns into a number. *)
Definition is_numeric {P : Pandas} (c : cell) : bool :=
  match to_numeric c with
  | Some _ => true
  | None => false
  end.

(** A table of five assets, two of them tied and one unavailable. *)
Definition sample_table : list (string * cell) :=
  [ ("a", Num 1); ("b", NA); ("c", Num 3); ("d", Num 1); ("e", Num 2) ]%string.

(** ** The heat-mapped columns of [create_html_table] *)

(** [sub in s] on strings. *)
Fixpoint contains (sub s : string) : bool :=
  if String.prefix sub s then true
  else match s with
       | EmptyString => false
       | String _ s' => contains sub s'
       end.

(** [d[k] = v]: the value of an existing key is replaced in place, a new
    key goes to the end. *)
Fixpoint dict_set {V : Type} (d : dict V) (k : string) (v : V) : dict V :=
  match d with
  | [] => [(k, v)]
  | (k', v') :: d' =>
      if String.eqb k' k then (k', v) :: d' else (k', v') :: dict_set d' k v
  end.

(** A DataFrame as [create_html_table] reads it: the column names and, per
    row, the cell under each name. *)
Record table : Type := {
  tbl_columns : list string;
  tbl_rows : list (string -> cell)
}.

(** [df[col]] *)
Definition column_cells (df : table) (col : string) : list cell :=
  map (fun r => r col) (tbl_rows df).

(** [pd.to_numeric(cells, errors='coerce').dropna()] *)
Fixpoint numeric_values {P : Pandas} (cells : list cell) : list Q :=
  match cells with
  | [] => []
  | c :: cells' =>
      match to_numeric c with
      | Some q => q :: numeric_values cells'
      | None => numeric_values cells'
      end
  end.

(** [.min()] and [.max()] of the non-empty series [x :: l]. *)
Definition series_min (x : Q) (l : list Q) : Q := fold_left Qmin l x.
Definition series_max (x : Q) (l : list Q) : Q := fold_left Qmax l x.

(** ["Change" in col or "Yield" in col or "Return" in col] *)
Definition change_like (col : string) : bool :=
  contains "Change" col || contains "Yield" col || contains "Return" col.

(** The dictionary [column_heatmap_ranges], as [(min, max)] pairs. *)
Definition column_heatmap_ranges {P : Pandas} (df : table)
    (apply_heatmap : bool) : dict (Q * Q) :=
  if apply_heatmap then
    fold_left
      (fun ranges col =>
         if change_like col then
           match numeric_values (column_cells df col) with
           | [] => ranges
           | x :: l => dict_set ranges col (series_min x l, series_max x l)
           end
         else ranges)
      (tbl_columns df) []
  else [].

(** The class of the [<span>] around a cell, [None] for a cell that is
    rendered without heatmap. *)
Definition cell_heatmap_class {L : Libm}
    (column_heatmap_ranges : dict (Q * Q))
    (apply_heatmap : bool) (col_name : string) (cell_value : cell)
    : result (option string) :=
  let apply_cell_heatmap :=
    apply_heatmap && dict_mem column_heatmap_ranges col_name in
  if apply_cell_heatmap then
    '(min_val, max_val) <- dict_get column_heatmap_ranges col_name ;;
    heatmap_class <-
      get_heatmap_class (cell_object cell_value)
        (Some (Fin min_val)) (Some (Fin max_val)) ;;
    Ok (Some heatmap_class)
  else Ok None.

(** What the code computes for a column taken alone. *)
Definition column_range {P : Pandas} (df : table) (col : string)
    : option (Q * Q) :=
  if change_like col then
    match numeric_values (column_cells df col) with
    | [] => None
    | x :: l => Some (series_min x l, series_max x l)
    end
  else None.

(** A table with a change column and a price column. *)
Definition sample_html_table : table :=
  {| tbl_columns := [ "Asset"; "Current Level"; "Past Day Change (%)" ]%string;
     tbl_rows :=
       [ (fun col => if String.eqb col "Asset" then Str "a"
                     else if String.eqb col "Current Level" then Num 100
                     else Num (-5));
         (fun col => if String.eqb col "Asset" then Str "b"
                     else if String.eqb col "Current Level" then NA
                     else NA);
         (fun col => if String.eqb col "Asset" then Str "c"
                     else if String.eqb col "Current Level" then Num 50
                     else Num 10) ] |}.

(** ** [generate_plotly_chart] *)

(** What the function returns: a message in a [<div>], or the figure that
    [pio.to_html] renders, given by its title and the two data lists. *)
Inductive chart_html : Type :=
| Html (s : string)
| Plot (title : string) (x : list date) (y : list Q).

(** [l.iloc[-n:]] *)
Definition iloc_tail {A : Type} (n : Z) (l : list A) : list A :=
  if 0 <? n then skipn (List.length l - Z.to_nat n) l
  else skipn (Z.to_nat (- n)) l.

(** [f"{n}"] for an integer. *)
Definition str_int (n : Z) : string := NilZero.string_of_int (Z.to_int n).

(** [data_df] is [None] or a frame with the column ['Close']; the index of
    such a frame is a [DatetimeIndex] and [chart_df[y_col]] its close
    values, so of the branches on their types only those are taken. *)
Definition generate_plotly_chart (data_df : option series) (title : string)
    (y_col : string) (days_history : Z) : chart_html :=
  match data_df with
  | None =>
      Html ("<div class='my-4 p-4 bg-red-100 text-red-700 rounded-md'>"
            ++ "Chart data unavailable for " ++ title ++ ".</div>")
  | Some data_df =>
      if empty data_df || negb (String.eqb y_col "Close") then
        Html ("<div class='my-4 p-4 bg-red-100 text-red-700 rounded-md'>"
              ++ "Chart data unavailable for " ++ title ++ ".</div>")
      else
        let chart_df := iloc_tail days_history (sort_index data_df) in
        if empty chart_df || (List.length chart_df <? 2)%nat then
          Html ("<div class='my-4 p-4 bg-yellow-100 text-yellow-700 rounded-md'>"
                ++ "Not enough data for " ++ str_int days_history
                ++ "-day chart for " ++ title ++ " (found "
                ++ str_int (len chart_df) ++ " points).</div>")
        else Plot title (map fst chart_df) (map snd chart_df)
  end%string.

(** ** The other tables of [generate_morning_report] *)

(** The row a loop appends from a fetched frame when the frame is not
    empty, and the row of "N/A" cells otherwise:
    [if not h_df.empty: curr_price = ...; perf = ...; d, w, m = ...]. *)
Definition guarded_cells (TODAY : date) (h_df : series)
    : result (cell * cell * cell * cell) :=
  if negb (empty h_df) then
    o <- iloc_neg 1 h_df ;;
    perf <- calculate_yfinance_performance TODAY h_df ;;
    Ok (Num (snd o), Day perf, Week perf, Month perf)
  else Ok (NA, NA, NA, NA).

(** The loop that fills [sentiment_data_list]; the name is stored under
    ["Indicator"]. *)
Definition sentiment_df (P : providers) (TODAY : date)
    (TICKERS : dict string) : result (list row) :=
  for_each TICKERS []
    (fun sentiment_data_list '(name, ticker) =>
       let hist_data_df :=
         get_yfinance_data P ticker (THREE_MONTHS_AGO_FOR_FETCH TODAY) TODAY in
       perf <- calculate_yfinance_performance TODAY hist_data_df ;;
       current <-
         (if negb (empty hist_data_df)
          then o <- iloc_neg 1 hist_data_df ;; Ok (Num (snd o))
          else Ok NA) ;;
       Ok (sentiment_data_list ++
             [ {| Asset := name; Ticker := Some ticker;
                  Current_Level := current;
                  Past_Day_Change := Day perf;
                  Past_Week_Change := Week perf;
                  Past_Month_Change := Month perf |} ])).

(** The loop that fills [crypto_list]; the current level is stored under
    ["Current Price"]. *)
Definition crypto_df_tbl (P : providers) (TODAY : date)
    (TICKERS : dict string) : result (list row) :=
  for_each TICKERS []
    (fun crypto_list '(name, tckr) =>
       let h_df :=
         get_yfinance_data P tckr (THREE_MONTHS_AGO_FOR_FETCH TODAY) TODAY in
       '(curr_price, d_perf, w_perf, m_perf) <- guarded_cells TODAY h_df ;;
       Ok (crypto_list ++
             [ {| Asset := name; Ticker := Some tckr;
                  Current_Level := curr_price;
                  Past_Day_Change := d_perf;
                  Past_Week_Change := w_perf;
                  Past_Month_Change := m_perf |} ])).

(** The loop that fills [commodity_data]; a ticker that starts with "N/A"
    is a placeholder and is not fetched.  The name is stored under
    ["Commodity"], and the rows have no ["Ticker"] entry. *)
Definition comm_df (P : providers) (TODAY : date)
    (TICKERS : dict string) (comm_order : list string) : result (list row) :=
  let full_comm_order := full_order TICKERS comm_order in
  for_each full_comm_order []
    (fun commodity_data name =>
       tckr <- dict_get TICKERS name ;;
       '(curr_price, d_perf, w_perf, m_perf) <-
         (if negb (String.prefix "N/A" tckr) then
            guarded_cells TODAY
              (get_yfinance_data P tckr
                 (THREE_MONTHS_AGO_FOR_FETCH TODAY) TODAY)
          else Ok (NA, NA, NA, NA)) ;;
       Ok (commodity_data ++
             [ {| Asset := name; Ticker := None;
                  Current_Level := curr_price;
                  Past_Day_Change := d_perf;
                  Past_Week_Change := w_perf;
                  Past_Month_Change := m_perf |} ])).

(** A value that may be Python's [None]. *)
Inductive pyvalue : Type :=
| PyNone
| PyCell (c : cell).

(** A row of the currency table: ["Current Rate"] receives what
    [get_currency_performance] returned as rate. *)
Record currency_row : Type := mk_currency_row {
  Currency : string;
  Currency_Ticker : string;
  Current_Rate : pyvalue;
  Rate_Day_Change : cell;
  Rate_Week_Change : cell;
  Rate_Month_Change : cell
}.

(** The loop that fills [curr_data]. *)
Definition curr_df_tbl (P : providers) (TODAY : date)
    (TICKERS : dict string) (curr_order : list string)
    : result (list currency_row) :=
  let full_curr_order := full_order TICKERS curr_order in
  for_each full_curr_order []
    (fun curr_data name =>
       tckr <- dict_get TICKERS name ;;
       let h_df :=
         get_yfinance_data P tckr (THREE_MONTHS_AGO_FOR_FETCH TODAY) TODAY in
       '(curr_rate_val, d_perf, w_perf, m_perf) <-
         (if negb (empty h_df) then
            '(perf_res, curr_rate) <- get_currency_performance TODAY h_df ;;
            Ok (match curr_rate with
                | Some rate => PyCell (Num rate)
                | None => PyNone
                end,
                Day perf_res, Week perf_res, Month perf_res)
          else Ok (PyCell NA, NA, NA, NA)) ;;
       Ok (curr_data ++
             [ {| Currency := name; Currency_Ticker := tckr;
                  Current_Rate := curr_rate_val;
                  Rate_Day_Change := d_perf;
                  Rate_Week_Change := w_perf;
                  Rate_Month_Change := m_perf |} ])).

(** The loop that fills [global_equity_data_list] and, per ticker with a
    non-empty frame, [all_global_hist_data]. *)
Definition global_equities_df (P : providers) (TODAY : date)
    (TICKERS : dict string) (global_equity_order : list string)
    : result (list row * dict series) :=
  let full_global_equity_order := full_order TICKERS global_equity_order in
  for_each full_global_equity_order ([], [])
    (fun '(global_equity_data_list, all_global_hist_data) name =>
       ticker <- dict_get TICKERS name ;;
       let hist_data_df :=
         get_yfinance_data P ticker (THREE_MONTHS_AGO_FOR_FETCH TODAY) TODAY in
       let all_global_hist_data :=
         if negb (empty hist_data_df)
         then dict_set all_global_hist_data ticker hist_data_df
         else all_global_hist_data in
       perf_data <- calculate_yfinance_performance TODAY hist_data_df ;;
       current <-
         (if negb (empty hist_data_df)
          then o <- iloc_neg 1 hist_data_df ;; Ok (Num (snd o))
          else Ok NA) ;;
       Ok (global_equity_data_list ++
             [ {| Asset := name; Ticker := Some ticker;
                  Current_Level := current;
                  Past_Day_Change := Day perf_data;
                  Past_Week_Change := Week perf_data;
                  Past_Month_Change := Month perf_data |} ],
           all_global_hist_data)).

(** [monthly_perf]: the numeric entries of the month column with their row
    labels [0, 1, ...]. *)
Fixpoint monthly_perf_from {P : Pandas} (label : nat) (df : list row)
    : list (nat * Q) :=
  match df with
  | [] => []
  | r :: df' =>
      match to_numeric (Past_Month_Change r) with
      | Some q => (label, q) :: monthly_perf_from (S label) df'
      | None => monthly_perf_from (S label) df'
      end
  end.

(** [.idxmax()]: the label of the first greatest value. *)
Fixpoint idxmax_from (best : nat * Q) (l : list (nat * Q)) : nat :=
  match l with
  | [] => fst best
  | x :: l' =>
      if Qlt_le_dec (snd best) (snd x) then idxmax_from x l'
      else idxmax_from best l'
  end.

(** The chart of the top performer of the month, or the message shown in
    its place.  The labels of a frame built from a list of rows are unique,
    so the branch on [is_unique] takes [idxmax]. *)
Definition top_performer_chart_html {P : Pandas}
    (temp_df : list row) (all_global_hist_data : dict series)
    : result chart_html :=
  if negb (empty temp_df) then
    match monthly_perf_from 0 temp_df with
    | best :: others =>
        let top_idx := idxmax_from best others in
        match nth_error temp_df top_idx with
        | Some top_series =>
            top_ticker <-
              match Ticker top_series with
              | Some t => Ok t
              | None => Raise KeyError
              end ;;
            let top_name := Asset top_series in
            match dict_find all_global_hist_data top_ticker with
            | Some hist =>
                let chart_title :=
                  (top_name ++ " (" ++ top_ticker
                   ++ ") - 30 Day Performance")%string in
                Ok (generate_plotly_chart (Some hist) chart_title "Close" 30)
            | None =>
                Ok (Html ("<p class='text-sm text-orange-600'>Hist data for "
                          ++ top_name ++ " not found.</p>"))
            end
        | None =>
            Ok (Html "<p class='text-sm text-orange-600'>Top performer index error.</p>")
        end
    | [] =>
        Ok (Html "<p class='text-sm text-orange-600'>No valid monthly perf data.</p>")
    end
  else
    Ok (Html "<p class='text-sm text-orange-600'>Global equities data empty.</p>").

(** The row a loop owes to a ticker: current level and changes of the
    fetched frame. *)
Definition fetched_row (P : providers) (TODAY : date) (ticker : string)
    (r : row) : Prop :=
  Current_Level r =
    current_level (get_yfinance_data P ticker
                     (THREE_MONTHS_AGO_FOR_FETCH TODAY) TODAY) /\
  calculate_yfinance_performance TODAY
    (get_yfinance_data P ticker (THREE_MONTHS_AGO_FOR_FETCH TODAY) TODAY)
  = Ok (changes r).

(** That row, written out. *)
Definition ticker_row (P : providers) (TODAY : date) (name ticker : string)
    : row :=
  let hist :=
    get_yfinance_data P ticker (THREE_MONTHS_AGO_FOR_FETCH TODAY) TODAY in
  let perf := performance_of pct_cell TODAY (sort_index hist) in
  {| Asset := name; Ticker := Some ticker;
     Current_Level := current_level hist;
     Past_Day_Change := Day perf;
     Past_Week_Change := Week perf;
     Past_Month_Change := Month perf |}.

(** What the global loop does to [all_global_hist_data] for one name. *)
Definition store_hist (P : providers) (TODAY : date) (TICKERS : dict string)
    (all_global_hist_data : dict series) (name : string) : dict series :=
  match dict_find TICKERS name with
  | Some ticker =>
      if negb (empty (get_yfinance_data P ticker
                        (THREE_MONTHS_AGO_FOR_FETCH TODAY) TODAY))
      then dict_set all_global_hist_data ticker
             (get_yfinance_data P ticker
                (THREE_MONTHS_AGO_FOR_FETCH TODAY) TODAY)
      else all_global_hist_data
  | None => all_global_hist_data
  end.

(** The rows the commodity and the currency loop owe to a name. *)
Definition commodity_row (P : providers) (TODAY : date)
    (TICKERS : dict string) (name : string) (r : row) : Prop :=
  Asset r = name /\ Ticker r = None /\
  exists tckr,
    dict_find TICKERS name = Some tckr /\
    (String.prefix "N/A" tckr = true -> unavailable r) /\
    (String.prefix "N/A" tckr = false -> fetched_row P TODAY tckr r).

Definition currency_row_spec (P : providers) (TODAY : date)
    (TICKERS : dict string) (name : string) (r : currency_row) : Prop :=
  Currency r = name /\
  dict_find TICKERS name = Some (Currency_Ticker r) /\
  calculate_yfinance_performance TODAY
    (get_yfinance_data P (Currency_Ticker r)
       (THREE_MONTHS_AGO_FOR_FETCH TODAY) TODAY)
  = Ok {| Day := Rate_Day_Change r;
          Week := Rate_Week_Change r;
          Month := Rate_Month_Change r |} /\
  (get_yfinance_data P (Currency_Ticker r)
     (THREE_MONTHS_AGO_FOR_FETCH TODAY) TODAY = [] ->
   Current_Rate r = PyCell NA) /\
  (get_yfinance_data P (Currency_Ticker r)
     (THREE_MONTHS_AGO_FOR_FETCH TODAY) TODAY <> [] ->
   exists o,
     latest (get_yfinance_data P (Currency_Ticker r)
               (THREE_MONTHS_AGO_FOR_FETCH TODAY) TODAY) o /\
     Current_Rate r = PyCell (Num (snd o))).

Definition US_SENTIMENT_TICKERS : dict string :=
  [ ("VIX Index", "^VIX"); ("VXN Index", "^VXN") ]%string.

Definition CRYPTO_TICKERS : dict string :=
  [ ("Bitcoin", "BTC-USD"); ("Ethereum", "ETH-USD");
    ("Solana", "SOL-USD") ]%string.

(** * Properties *)

(** ** Insertion sort *)

Section Isort.
Context {A : Type} (le : A -> A -> bool).

Let leP (x y : A) : Prop := le x y = true.

Lemma insert_by_perm (x : A) (l : list A) :
  Permutation (insert_by le x l) (x :: l).
Proof.
  induction l as [|y l IH]; simpl.
  - reflexivity.
  - destruct (le y x).
    + rewrite IH. apply perm_swap.
    + reflexivity.
Qed.

Lemma isort_snoc (l : list A) (x : A) :
  isort le (l ++ [x]) = insert_by le x (isort le l).
Proof. unfold isort. now rewrite fold_left_app. Qed.

Lemma isort_perm (l : list A) : Permutation (isort le l) l.
Proof.
  induction l as [|x l IH] using rev_ind.
  - reflexivity.
  - rewrite isort_snoc, insert_by_perm, IH.
    apply Permutation_cons_append.
Qed.

Lemma isort_length (l : list A) : List.length (isort le l) = List.length l.
Proof. apply Permutation_length, isort_perm. Qed.

Hypothesis le_total : forall x y, le x y = true \/ le y x = true.
Hypothesis le_trans :
  forall x y z, le x y = true -> le y z = true -> le x z = true.

Lemma insert_by_sorted (x : A) (l : list A) :
  StronglySorted leP l -> StronglySorted leP (insert_by le x l).
Proof.
  induction 1 as [|y l Hs IH Hall]; simpl.
  - constructor; constructor.
  - destruct (le y x) eqn:E.
    + constructor; [exact IH|].
      rewrite Forall_forall in *. intros z Hz.
      apply (Permutation_in _ (insert_by_perm x l)) in Hz.
      destruct Hz as [<-|Hz]; [exact E | now apply Hall].
    + assert (Hxy : leP x y) by (destruct (le_total x y); [assumption|congruence]).
      constructor; [now constructor|].
      constructor; [exact Hxy|].
      rewrite Forall_forall in *. intros z Hz.
      apply (le_trans x y z Hxy). now apply Hall.
Qed.

Lemma isort_sorted (l : list A) : StronglySorted leP (isort le l).
Proof.
  induction l as [|x l IH] using rev_ind.
  - constructor.
  - rewrite isort_snoc. now apply insert_by_sorted.
Qed.

End Isort.

(** ** Frames sorted by date *)

Lemma date_le_total (a b : obs) : date_le a b = true \/ date_le b a = true.
Proof. unfold date_le. rewrite !Z.leb_le. lia. Qed.

Lemma date_le_trans (a b c : obs) :
  date_le a b = true -> date_le b c = true -> date_le a c = true.
Proof. unfold date_le. rewrite !Z.leb_le. lia. Qed.

Lemma StronglySorted_weaken {A : Type} (R R' : A -> A -> Prop) (l : list A) :
  (forall x y, R x y -> R' x y) -> StronglySorted R l -> StronglySorted R' l.
Proof.
  intros HR. induction 1 as [|x l Hs IH Hall]; constructor.
  - exact IH.
  - eapply Forall_impl; [|exact Hall]. intros y. apply HR.
Qed.

Lemma sort_index_perm (df : series) : Permutation (sort_index df) df.
Proof. apply isort_perm. Qed.

Lemma sort_index_sorted (df : series) :
  StronglySorted date_order (sort_index df).
Proof.
  apply StronglySorted_weaken with (R := fun a b => date_le a b = true).
  - intros a b. unfold date_le, date_order. now rewrite Z.leb_le.
  - apply isort_sorted; [apply date_le_total | apply date_le_trans].
Qed.

Lemma sort_index_length (df : series) :
  List.length (sort_index df) = List.length df.
Proof. apply isort_length. Qed.

Lemma StronglySorted_app_inv {A : Type} (R : A -> A -> Prop) (l1 l2 : list A) :
  StronglySorted R (l1 ++ l2) ->
  forall x y, In x l1 -> In y l2 -> R x y.
Proof.
  induction l1 as [|a l1 IH]; simpl; intros Hs x y Hx Hy.
  - contradiction.
  - apply StronglySorted_inv in Hs. destruct Hs as [Hs Hall].
    destruct Hx as [<-|Hx].
    + rewrite Forall_forall in Hall. apply Hall, in_or_app. now right.
    + now apply IH.
Qed.

Lemma StronglySorted_filter {A : Type} (R : A -> A -> Prop) (p : A -> bool)
    (l : list A) :
  StronglySorted R l -> StronglySorted R (filter p l).
Proof.
  induction 1 as [|x l Hs IH Hall]; simpl.
  - constructor.
  - destruct (p x); [|exact IH].
    constructor; [exact IH|].
    rewrite Forall_forall in *. intros y Hy.
    apply filter_In in Hy. now apply Hall.
Qed.

(** Two arrangements of a series with unique dates that are both sorted by
    date coincide. *)
Lemma sorted_by_date_unique (l1 l2 : series) :
  NoDup (map fst l1) -> Permutation l1 l2 ->
  StronglySorted date_order l1 -> StronglySorted date_order l2 -> l1 = l2.
Proof.
  revert l2. induction l1 as [|a l1 IH]; intros l2 Hnd Hp Hs1 Hs2.
  - now apply Permutation_nil in Hp.
  - destruct l2 as [|b l2].
    + apply Permutation_sym, Permutation_nil in Hp. discriminate.
    + apply StronglySorted_inv in Hs1. destruct Hs1 as [Hs1 Hall1].
      apply StronglySorted_inv in Hs2. destruct Hs2 as [Hs2 Hall2].
      rewrite Forall_forall in Hall1, Hall2.
      assert (Hab : a = b).
      { assert (Hb : In b (a :: l1))
          by (apply (Permutation_in _ (Permutation_sym Hp)); now left).
        assert (Ha : In a (b :: l2))
          by (apply (Permutation_in _ Hp); now left).
        destruct Hb as [Hb|Hb]; [exact Hb|].
        destruct Ha as [Ha|Ha]; [now symmetry|].
        pose proof (Hall1 b Hb) as H1. pose proof (Hall2 a Ha) as H2.
        unfold date_order in H1, H2.
        simpl in Hnd. apply NoDup_cons_iff in Hnd. destruct Hnd as [Hnin _].
        exfalso. apply Hnin.
        replace (fst a) with (fst b) by lia. now apply in_map. }
      subst b. f_equal. apply IH; trivial.
      * simpl in Hnd. now apply NoDup_cons_iff in Hnd.
      * now apply Permutation_cons_inv in Hp.
Qed.

Lemma sort_index_unique (df l : series) :
  NoDup (map fst df) -> Permutation l df -> StronglySorted date_order l ->
  l = sort_index df.
Proof.
  intros Hnd Hp Hs. apply sorted_by_date_unique; trivial.
  - eapply Permutation_NoDup; [|exact Hnd].
    apply Permutation_map, Permutation_sym, Hp.
  - rewrite Hp. apply Permutation_sym, sort_index_perm.
  - apply sort_index_sorted.
Qed.

(** ** The last rows of a frame *)

Lemma last_row_snoc {A : Type} (l : list A) (x : A) :
  last_row (l ++ [x]) = Some x.
Proof. unfold last_row. now rewrite rev_unit. Qed.

Lemma last_row_cases {A : Type} (l : list A) :
  (l = [] /\ last_row l = None) \/
  (exists pre x, l = pre ++ [x] /\ last_row l = Some x).
Proof.
  destruct l as [|y l] using rev_ind.
  - now left.
  - right. exists l, y. split; [reflexivity | apply last_row_snoc].
Qed.

Lemma iloc_neg_1_snoc {A : Type} (l : list A) (x : A) :
  iloc_neg 1 (l ++ [x]) = Ok x.
Proof.
  unfold iloc_neg. rewrite length_app. simpl.
  replace (List.length l + 1 <? 1)%nat with false
    by (symmetry; apply Nat.ltb_ge; lia).
  replace (List.length l + 1 - 1)%nat with (List.length l) by lia.
  now rewrite nth_error_app2, Nat.sub_diag by lia.
Qed.

Lemma iloc_neg_2_snoc {A : Type} (l : list A) (x y : A) :
  iloc_neg 2 (l ++ [x; y]) = Ok x.
Proof.
  unfold iloc_neg. rewrite length_app. simpl.
  replace (List.length l + 2 <? 2)%nat with false
    by (symmetry; apply Nat.ltb_ge; lia).
  replace (List.length l + 2 - 2)%nat with (List.length l) by lia.
  now rewrite nth_error_app2, Nat.sub_diag by lia.
Qed.

Lemma empty_snoc {A : Type} (l : list A) (x : A) : empty (l ++ [x]) = false.
Proof. now destruct l. Qed.

(** ** Closed forms of the calculators *)

Lemma pct_update_ok (set : performance -> cell -> performance)
    (perf : performance) (cur ref : Q) :
  pct_update set perf cur ref =
  Ok (match pct_cell cur ref with Num q => set perf (Num q) | Str _ => perf end).
Proof.
  unfold pct_update, pct_cell, py_div, NA.
  now destruct (Qeq_bool ref 0).
Qed.

Lemma pct_lookback_ok (set : performance -> cell -> performance)
    (perf : performance) (TODAY : date) (days : Z) (df : series) (cur : Q) :
  pct_lookback set perf TODAY days df cur =
  Ok (match lookback_cell pct_cell TODAY days df cur with
      | Num q => set perf (Num q)
      | Str _ => perf
      end).
Proof.
  unfold pct_lookback, lookback_cell.
  destruct (last_row_cases (slice_le (TODAY - days) df))
    as [[-> ->]|(pre & r & -> & ->)].
  - reflexivity.
  - rewrite empty_snoc, iloc_neg_1_snoc. simpl. apply pct_update_ok.
Qed.

Lemma diff_lookback_ok (set : performance -> cell -> performance)
    (perf : performance) (TODAY : date) (days : Z) (df : series) (cur : Q) :
  diff_lookback set perf TODAY days df cur =
  Ok (match lookback_cell diff_cell TODAY days df cur with
      | Num q => set perf (Num q)
      | Str _ => perf
      end).
Proof.
  unfold diff_lookback, lookback_cell.
  destruct (last_row_cases (slice_le (TODAY - days) df))
    as [[-> ->]|(pre & r & -> & ->)].
  - reflexivity.
  - now rewrite empty_snoc, iloc_neg_1_snoc.
Qed.

Lemma pct_cell_cases (cur ref : Q) :
  (pct_cell cur ref = NA /\ Qeq_bool ref 0 = true) \/
  (pct_cell cur ref = Num (((cur - ref) / ref) * 100)%Q /\
   Qeq_bool ref 0 = false).
Proof. unfold pct_cell. destruct (Qeq_bool ref 0); auto. Qed.

Lemma lookback_cell_pct_cases (TODAY : date) (days : Z) (df : series) (cur : Q) :
  lookback_cell pct_cell TODAY days df cur = NA \/
  exists q, lookback_cell pct_cell TODAY days df cur = Num q.
Proof.
  unfold lookback_cell. destruct (last_row _) as [r|]; [|now left].
  destruct (pct_cell_cases cur (snd r)) as [[-> _]|[-> _]]; eauto.
Qed.

Lemma sort_index_nonempty (df : series) :
  df <> [] -> exists pre o, sort_index df = pre ++ [o].
Proof.
  intros Hne. destruct (last_row_cases (sort_index df))
    as [[E _]|(pre & o & E & _)]; [|eauto].
  apply (f_equal (@List.length obs)) in E.
  rewrite sort_index_length in E. destruct df; [congruence | discriminate].
Qed.

Lemma calculate_yfinance_performance_closed (TODAY : date) (df : series) :
  calculate_yfinance_performance TODAY df =
  Ok (performance_of pct_cell TODAY (sort_index df)).
Proof.
  unfold calculate_yfinance_performance.
  destruct df as [|o0 df]; [reflexivity|]. cbn [empty].
  destruct (sort_index_nonempty (o0 :: df)) as (pre & o & E); [discriminate|].
  rewrite E, empty_snoc, iloc_neg_1_snoc. cbn [bind].
  unfold performance_of. rewrite rev_unit.
  destruct pre as [|o' pre] using rev_ind.
  - cbn [app List.length Nat.leb rev bind].
    rewrite pct_lookback_ok. cbn [bind]. rewrite pct_lookback_ok.
    destruct (lookback_cell_pct_cases TODAY 7 [o] (snd o)) as [->|[q ->]];
    destruct (lookback_cell_pct_cases TODAY 30 [o] (snd o)) as [->|[q' ->]];
    reflexivity.
  - clear IHpre. rewrite <- app_assoc. cbn [app].
    rewrite iloc_neg_2_snoc, rev_unit.
    replace (2 <=? List.length (pre ++ [o'; o]))%nat with true
      by (symmetry; apply Nat.leb_le; rewrite length_app; simpl; lia).
    cbn [bind]. rewrite pct_update_ok.
    cbn [bind]. rewrite pct_lookback_ok. cbn [bind]. rewrite pct_lookback_ok.
    destruct (pct_cell_cases (snd o) (snd o')) as [[-> _]|[-> _]];
    destruct (lookback_cell_pct_cases TODAY 7 (pre ++ [o'; o]) (snd o))
      as [->|[q ->]];
    destruct (lookback_cell_pct_cases TODAY 30 (pre ++ [o'; o]) (snd o))
      as [->|[q' ->]];
    reflexivity.
Qed.

Lemma lookback_cell_diff_cases (TODAY : date) (days : Z) (df : series) (cur : Q) :
  lookback_cell diff_cell TODAY days df cur = NA \/
  exists q, lookback_cell diff_cell TODAY days df cur = Num q.
Proof.
  unfold lookback_cell, diff_cell. destruct (last_row _) as [r|]; eauto.
Qed.

Lemma calculate_fred_performance_closed (TODAY : date) (df : series) :
  calculate_fred_performance TODAY df =
  Ok (performance_of diff_cell TODAY (sort_index df)).
Proof.
  unfold calculate_fred_performance.
  destruct df as [|o0 df]; [reflexivity|]. cbn [empty].
  destruct (sort_index_nonempty (o0 :: df)) as (pre & o & E); [discriminate|].
  rewrite E, iloc_neg_1_snoc. cbn [bind].
  unfold performance_of. rewrite rev_unit.
  destruct pre as [|o' pre] using rev_ind.
  - cbn [app List.length Nat.leb rev bind].
    rewrite diff_lookback_ok. cbn [bind]. rewrite diff_lookback_ok.
    destruct (lookback_cell_diff_cases TODAY 7 [o] (snd o)) as [->|[q ->]];
    destruct (lookback_cell_diff_cases TODAY 30 [o] (snd o)) as [->|[q' ->]];
    reflexivity.
  - clear IHpre. rewrite <- app_assoc. cbn [app].
    rewrite iloc_neg_2_snoc, rev_unit.
    replace (2 <=? List.length (pre ++ [o'; o]))%nat with true
      by (symmetry; apply Nat.leb_le; rewrite length_app; simpl; lia).
    cbn [bind]. rewrite diff_lookback_ok. cbn [bind]. rewrite diff_lookback_ok.
    destruct (lookback_cell_diff_cases TODAY 7 (pre ++ [o'; o]) (snd o))
      as [->|[q ->]];
    destruct (lookback_cell_diff_cases TODAY 30 (pre ++ [o'; o]) (snd o))
      as [->|[q' ->]];
    reflexivity.
Qed.

(** The currency calculator is the percentage calculator, returning the
    current rate next to the changes. *)
Lemma get_currency_performance_closed (TODAY : date) (df : series) :
  get_currency_performance TODAY df =
  Ok (performance_of pct_cell TODAY (sort_index df),
      option_map snd (last_row (sort_index df))).
Proof.
  unfold get_currency_performance.
  destruct df as [|o0 df]; [reflexivity|]. cbn [empty].
  destruct (sort_index_nonempty (o0 :: df)) as (pre & o & E); [discriminate|].
  rewrite E, empty_snoc, iloc_neg_1_snoc, last_row_snoc. cbn [bind option_map].
  unfold performance_of. rewrite rev_unit.
  destruct pre as [|o' pre] using rev_ind.
  - cbn [app List.length Nat.leb rev bind].
    rewrite pct_lookback_ok. cbn [bind]. rewrite pct_lookback_ok.
    destruct (lookback_cell_pct_cases TODAY 7 [o] (snd o)) as [->|[q ->]];
    destruct (lookback_cell_pct_cases TODAY 30 [o] (snd o)) as [->|[q' ->]];
    reflexivity.
  - clear IHpre. rewrite <- app_assoc. cbn [app].
    rewrite iloc_neg_2_snoc, rev_unit.
    replace (2 <=? List.length (pre ++ [o'; o]))%nat with true
      by (symmetry; apply Nat.leb_le; rewrite length_app; simpl; lia).
    cbn [bind]. rewrite pct_update_ok.
    cbn [bind]. rewrite pct_lookback_ok. cbn [bind]. rewrite pct_lookback_ok.
    destruct (pct_cell_cases (snd o) (snd o')) as [[-> _]|[-> _]];
    destruct (lookback_cell_pct_cases TODAY 7 (pre ++ [o'; o]) (snd o))
      as [->|[q ->]];
    destruct (lookback_cell_pct_cases TODAY 30 (pre ++ [o'; o]) (snd o))
      as [->|[q' ->]];
    reflexivity.
Qed.

(** ** Which observations the calculators read *)

Lemma latest_of_sorted (df pre : series) (o : obs) :
  sort_index df = pre ++ [o] -> latest df o.
Proof.
  intros E. pose proof (sort_index_perm df) as Hp.
  pose proof (sort_index_sorted df) as Hs. rewrite E in Hp, Hs. split.
  - apply (Permutation_in _ Hp), in_or_app. right. now left.
  - intros o' Ho'. apply (Permutation_in _ (Permutation_sym Hp)) in Ho'.
    apply in_app_or in Ho'. destruct Ho' as [Ho'|[<-|[]]]; [|lia].
    apply (StronglySorted_app_inv _ _ _ Hs o' o Ho'). now left.
Qed.

Lemma as_of_sorted (l : series) (cutoff : date) (r : obs) :
  StronglySorted date_order l ->
  last_row (slice_le cutoff l) = Some r -> as_of l cutoff r.
Proof.
  intros Hs E.
  destruct (last_row_cases (slice_le cutoff l))
    as [[_ E']|(pre & x & Ex & E')]; [congruence|].
  assert (x = r) by congruence. subst x. clear E E'.
  assert (Hin : In r (slice_le cutoff l))
    by (rewrite Ex; apply in_or_app; right; now left).
  unfold slice_le in Hin. apply filter_In in Hin. destruct Hin as [Hin Hle].
  apply Z.leb_le in Hle. repeat split; trivial.
  intros o' Ho' Hc.
  assert (Ho : In o' (pre ++ [r])).
  { rewrite <- Ex. apply filter_In. split; [exact Ho'|now apply Z.leb_le]. }
  apply in_app_or in Ho. destruct Ho as [Ho|[<-|[]]]; [|lia].
  assert (Hf : StronglySorted date_order (slice_le cutoff l))
    by now apply StronglySorted_filter.
  rewrite Ex in Hf.
  apply (StronglySorted_app_inv _ _ _ Hf o' r Ho). now left.
Qed.

Lemma as_of_perm (l l' : series) (cutoff : date) (r : obs) :
  Permutation l l' -> as_of l cutoff r -> as_of l' cutoff r.
Proof.
  intros Hp (Hin & Hle & Hmax). repeat split; trivial.
  - now apply (Permutation_in _ Hp).
  - intros o' Ho'. apply Hmax. now apply (Permutation_in _ (Permutation_sym Hp)).
Qed.

Lemma slice_le_none (l : series) (cutoff : date) :
  last_row (slice_le cutoff l) = None ->
  forall o, In o l -> cutoff < fst o.
Proof.
  intros E o Ho.
  destruct (last_row_cases (slice_le cutoff l))
    as [[E' _]|(pre & x & _ & E')]; [|congruence].
  destruct (Z.leb_spec (fst o) cutoff) as [Hle|Hlt]; [|exact Hlt].
  assert (Hin : In o (slice_le cutoff l)).
  { apply filter_In. split; [exact Ho|now apply Z.leb_le]. }
  rewrite E' in Hin. contradiction.
Qed.

(** The lookback of a series, on its sorted frame: either nothing is dated
    at or before the cutoff, or the as-of observation is read. *)
Lemma lookback_cell_sort_index (change : Q -> Q -> cell) (TODAY : date)
    (days : Z) (df : series) (cur : Q) :
  ((forall o, In o df -> TODAY - days < fst o) /\
   lookback_cell change TODAY days (sort_index df) cur = NA) \/
  (exists r, as_of df (TODAY - days) r /\
             lookback_cell change TODAY days (sort_index df) cur =
             change cur (snd r)).
Proof.
  unfold lookback_cell.
  destruct (last_row (slice_le (TODAY - days) (sort_index df))) as [r|] eqn:E.
  - right. exists r. split; [|reflexivity].
    apply as_of_perm with (l := sort_index df); [apply sort_index_perm|].
    apply as_of_sorted; [apply sort_index_sorted | exact E].
  - left. split; [|reflexivity]. intros o Ho.
    apply (slice_le_none _ _ E).
    now apply (Permutation_in _ (Permutation_sym (sort_index_perm df))).
Qed.

Lemma lookback_field_sort_index (change : Q -> Q -> cell) (TODAY : date)
    (days : Z) (df pre : series) (o : obs) :
  sort_index df = pre ++ [o] ->
  lookback_field change df (TODAY - days)
    (lookback_cell change TODAY days (sort_index df) (snd o)).
Proof.
  intros E.
  destruct (lookback_cell_sort_index change TODAY days df (snd o))
    as [[Hnone ->]|(r & Hr & ->)]; split.
  - reflexivity.
  - intros (o' & Ho' & Hle). specialize (Hnone o' Ho'). lia.
  - intros Hnone. destruct Hr as (Hin & Hle & _).
    specialize (Hnone r Hin). lia.
  - intros _. exists o, r. split; [|split; trivial].
    now apply latest_of_sorted with (pre := pre).
Qed.

Lemma lookback_field_empty (change : Q -> Q -> cell) (cutoff : date) :
  lookback_field change [] cutoff NA.
Proof. split; [reflexivity|]. intros (o & [] & _). Qed.

(** The day cell on a frame of at least two rows and on a shorter one. *)
Lemma performance_of_day_snoc2 (change : Q -> Q -> cell) (TODAY : date)
    (pre : series) (o1 o2 : obs) :
  Day (performance_of change TODAY (pre ++ [o1; o2])) =
  change (snd o2) (snd o1).
Proof.
  unfold performance_of.
  replace (pre ++ [o1; o2]) with ((pre ++ [o1]) ++ [o2])
    by now rewrite <- app_assoc.
  now rewrite !rev_unit.
Qed.

Lemma performance_of_day_short (change : Q -> Q -> cell) (TODAY : date)
    (df : series) :
  (List.length df < 2)%nat -> Day (performance_of change TODAY df) = NA.
Proof.
  destruct df as [|a [|b df]]; simpl; intros H; try reflexivity; lia.
Qed.

Lemma sort_index_two (df : series) :
  (2 <= List.length df)%nat ->
  exists pre o1 o2, sort_index df = pre ++ [o1; o2].
Proof.
  intros Hlen. rewrite <- sort_index_length in Hlen.
  destruct (sort_index df) as [|o2 l] using rev_ind; [simpl in Hlen; lia|].
  clear IHl. destruct l as [|o1 l] using rev_ind.
  - simpl in Hlen. lia.
  - exists l, o1, o2. now rewrite <- app_assoc.
Qed.

Lemma performance_of_fields (change : Q -> Q -> cell) (TODAY : date)
    (df : series) :
  lookback_field change df (TODAY - 7)
    (Week (performance_of change TODAY (sort_index df))) /\
  lookback_field change df (TODAY - 30)
    (Month (performance_of change TODAY (sort_index df))).
Proof.
  destruct df as [|o0 df].
  - split; apply lookback_field_empty.
  - destruct (sort_index_nonempty (o0 :: df)) as (pre & o & E);
      [discriminate|].
    pose proof (lookback_field_sort_index change TODAY 7 _ _ _ E) as H7.
    pose proof (lookback_field_sort_index change TODAY 30 _ _ _ E) as H30.
    unfold performance_of. rewrite E in *. rewrite rev_unit. now split.
Qed.

Lemma performance_of_day_today (change : Q -> Q -> cell) (T T' : date)
    (df : series) :
  Day (performance_of change T df) = Day (performance_of change T' df).
Proof. unfold performance_of. now destruct (rev df). Qed.

(** ** Claims on the calculators *)

(** C1 (as amended).  With at least two observations the percentage Day
    change is computed from the last two rows of the series sorted by date,
    whatever the gap between their dates: it is
    [((latest - second_latest) / second_latest) * 100] when the
    second-latest value is not zero, and "N/A" when it is zero.  With fewer
    than two observations Day is "N/A".  For unique dates the two rows are
    those of every arrangement of the series in ascending date order. *)
Theorem day_change_two_most_recent (TODAY : date) (df : series) :
  ((2 <= List.length df)%nat ->
   exists pre o1 o2 perf,
     Permutation (pre ++ [o1; o2]) df /\
     StronglySorted date_order (pre ++ [o1; o2]) /\
     calculate_yfinance_performance TODAY df = Ok perf /\
     Day perf = if Qeq_bool (snd o1) 0 then NA
                else Num (((snd o2 - snd o1) / snd o1) * 100)%Q) /\
  ((List.length df < 2)%nat ->
   exists perf,
     calculate_yfinance_performance TODAY df = Ok perf /\ Day perf = NA) /\
  (NoDup (map fst df) ->
   forall pre o1 o2,
     Permutation (pre ++ [o1; o2]) df ->
     StronglySorted date_order (pre ++ [o1; o2]) ->
     exists perf,
       calculate_yfinance_performance TODAY df = Ok perf /\
       Day perf = if Qeq_bool (snd o1) 0 then NA
                  else Num (((snd o2 - snd o1) / snd o1) * 100)%Q).
Proof.
  rewrite calculate_yfinance_performance_closed. split; [|split].
  - intros Hlen. destruct (sort_index_two df Hlen) as (pre & o1 & o2 & E).
    exists pre, o1, o2, (performance_of pct_cell TODAY (sort_index df)).
    rewrite <- E. repeat split.
    + apply sort_index_perm.
    + apply sort_index_sorted.
    + rewrite E. apply performance_of_day_snoc2.
  - intros Hlen. eexists. split; [reflexivity|].
    apply performance_of_day_short. now rewrite sort_index_length.
  - intros Hnd pre o1 o2 Hp Hs. eexists. split; [reflexivity|].
    rewrite <- (sort_index_unique df _ Hnd Hp Hs).
    apply performance_of_day_snoc2.
Qed.

Lemma day_change_two_most_recent_witness :
  (exists pre o1 o2 perf,
     Permutation (pre ++ [o1; o2]) [(3, 99%Q); (1, 100%Q); (2, 102%Q)] /\
     StronglySorted date_order (pre ++ [o1; o2]) /\
     calculate_yfinance_performance 3 [(3, 99%Q); (1, 100%Q); (2, 102%Q)]
       = Ok perf /\
     Day perf = if Qeq_bool (snd o1) 0 then NA
                else Num (((snd o2 - snd o1) / snd o1) * 100)%Q) /\
  (exists perf,
     calculate_yfinance_performance 3 [(3, 99%Q)] = Ok perf /\ Day perf = NA).
Proof.
  split.
  - apply (day_change_two_most_recent 3 [(3, 99%Q); (1, 100%Q); (2, 102%Q)]).
    simpl. lia.
  - apply (day_change_two_most_recent 3 [(3, 99%Q)]). simpl. lia.
Defined.

(** C1, as stated, fails: a series of two observations whose earlier value
    is zero has Day "N/A", not the value of the formula. *)
Lemma day_change_zero_previous_close :
  exists perf,
    calculate_yfinance_performance 2 [(1, 0%Q); (2, 5%Q)] = Ok perf /\
    Day perf = NA /\
    Day perf <> Num (((5 - 0) / 0) * 100)%Q /\
    forall q, Day perf <> Num q.
Proof.
  eexists. split; [reflexivity|]. split; [reflexivity|].
  split; [discriminate|]. intros q. discriminate.
Qed.

(** C2.  In both calculators the Week (Month) cell is computed against an
    observation dated at or before [TODAY - 7] ([TODAY - 30]) with the
    greatest such date; when there is none the cell is "N/A"; the
    calculators return without raising; and the Day cell does not depend on
    the as-of date at all. *)
Theorem week_month_as_of_lookup (TODAY : date) (df : series) :
  exists py pf,
    calculate_yfinance_performance TODAY df = Ok py /\
    calculate_fred_performance TODAY df = Ok pf /\
    lookback_field pct_cell df (TODAY - 7) (Week py) /\
    lookback_field pct_cell df (TODAY - 30) (Month py) /\
    lookback_field diff_cell df (TODAY - 7) (Week pf) /\
    lookback_field diff_cell df (TODAY - 30) (Month pf) /\
    (forall TODAY', exists py' pf',
        calculate_yfinance_performance TODAY' df = Ok py' /\
        calculate_fred_performance TODAY' df = Ok pf' /\
        Day py' = Day py /\ Day pf' = Day pf).
Proof.
  exists (performance_of pct_cell TODAY (sort_index df)),
         (performance_of diff_cell TODAY (sort_index df)).
  split; [apply calculate_yfinance_performance_closed|].
  split; [apply calculate_fred_performance_closed|].
  destruct (performance_of_fields pct_cell TODAY df) as [H1 H2].
  destruct (performance_of_fields diff_cell TODAY df) as [H3 H4].
  repeat (split; trivial).
  intros T'. do 2 eexists.
  split; [apply calculate_yfinance_performance_closed|].
  split; [apply calculate_fred_performance_closed|].
  split; apply performance_of_day_today.
Qed.

Lemma week_month_as_of_lookup_witness :
  exists py pf,
    calculate_yfinance_performance 10 [(1, 100%Q); (2, 102%Q); (10, 99%Q)]
      = Ok py /\
    calculate_fred_performance 10 [(1, 100%Q); (2, 102%Q); (10, 99%Q)]
      = Ok pf /\
    Day py = Num (((99 - 102) / 102) * 100)%Q /\
    Week py = Num (((99 - 102) / 102) * 100)%Q /\ Month py = NA /\
    Day pf = Num (99 - 102)%Q /\
    Week pf = Num (99 - 102)%Q /\ Month pf = NA.
Proof.
  destruct (week_month_as_of_lookup 10 [(1, 100%Q); (2, 102%Q); (10, 99%Q)])
    as (py & pf & Ey & Ef & _).
  exists py, pf. split; [exact Ey|]. split; [exact Ef|].
  vm_compute in Ey, Ef.
  injection Ey as <-. injection Ef as <-.
  repeat split; reflexivity.
Defined.

Lemma unique_date_obs (df : series) (a b : obs) :
  NoDup (map fst df) -> In a df -> In b df -> fst a = fst b -> a = b.
Proof.
  induction df as [|x df IH]; simpl; intros Hnd Ha Hb E; [contradiction|].
  apply NoDup_cons_iff in Hnd. destruct Hnd as [Hnin Hnd].
  destruct Ha as [<-|Ha], Hb as [<-|Hb]; trivial.
  - exfalso. apply Hnin. rewrite E. now apply in_map.
  - exfalso. apply Hnin. rewrite <- E. now apply in_map.
  - now apply IH.
Qed.

Lemma as_of_unique (df : series) (cutoff : date) (r1 r2 : obs) :
  NoDup (map fst df) -> as_of df cutoff r1 -> as_of df cutoff r2 -> r1 = r2.
Proof.
  intros Hnd (H1 & L1 & M1) (H2 & L2 & M2).
  apply (unique_date_obs df); trivial.
  specialize (M1 r2 H2 L2). specialize (M2 r1 H1 L1). lia.
Qed.

Lemma pct_cell_zero (cur ref : Q) : (ref == 0)%Q -> pct_cell cur ref = NA.
Proof.
  intros H. unfold pct_cell. apply Qeq_bool_iff in H. now rewrite H.
Qed.

Lemma lookback_field_pct_zero (df : series) (cutoff : date) (field : cell)
    (ref : obs) :
  NoDup (map fst df) -> lookback_field pct_cell df cutoff field ->
  as_of df cutoff ref -> (snd ref == 0)%Q -> field = NA.
Proof.
  intros Hnd [_ Hsome] Href Hz.
  destruct Hsome as (cur & ref' & _ & Href' & ->).
  - exists ref. destruct Href as (Hin & Hle & _). now split.
  - rewrite (as_of_unique df cutoff ref' ref Hnd Href' Href).
    now apply pct_cell_zero.
Qed.

Lemma performance_of_lookback_zero (TODAY : date) (df : series) (days : Z)
    (ref : obs) (cur : Q) :
  last_row (slice_le (TODAY - days) df) = Some ref -> (snd ref == 0)%Q ->
  lookback_cell pct_cell TODAY days df cur = NA.
Proof.
  intros E Hz. unfold lookback_cell. rewrite E. now apply pct_cell_zero.
Qed.

(** C7.  The percentage calculator returns without raising on every
    series, so in particular never divides by zero; and on a series with
    unique dates each of Day, Week and Month is "N/A" whenever the
    observation its division would use as denominator has value exactly
    zero. *)
Theorem zero_denominator_unavailable (TODAY : date) (df : series) :
  exists perf,
    calculate_yfinance_performance TODAY df = Ok perf /\
    (forall pre o1 o2,
        sort_index df = pre ++ [o1; o2] -> (snd o1 == 0)%Q ->
        Day perf = NA) /\
    (forall ref,
        last_row (slice_le (TODAY - 7) (sort_index df)) = Some ref ->
        (snd ref == 0)%Q -> Week perf = NA) /\
    (forall ref,
        last_row (slice_le (TODAY - 30) (sort_index df)) = Some ref ->
        (snd ref == 0)%Q -> Month perf = NA) /\
    (NoDup (map fst df) ->
     (forall pre o1 o2,
         Permutation (pre ++ [o1; o2]) df ->
         StronglySorted date_order (pre ++ [o1; o2]) ->
         (snd o1 == 0)%Q -> Day perf = NA) /\
     (forall ref, as_of df (TODAY - 7) ref -> (snd ref == 0)%Q ->
                  Week perf = NA) /\
     (forall ref, as_of df (TODAY - 30) ref -> (snd ref == 0)%Q ->
                  Month perf = NA)).
Proof.
  exists (performance_of pct_cell TODAY (sort_index df)).
  split; [apply calculate_yfinance_performance_closed|].
  split; [|split; [|split]].
  { intros pre o1 o2 E Hz. rewrite E, performance_of_day_snoc2.
    now apply pct_cell_zero. }
  { intros ref E Hz. unfold performance_of.
    destruct (rev (sort_index df)); [reflexivity|].
    apply (performance_of_lookback_zero _ _ 7 _ _ E Hz). }
  { intros ref E Hz. unfold performance_of.
    destruct (rev (sort_index df)); [reflexivity|].
    apply (performance_of_lookback_zero _ _ 30 _ _ E Hz). }
  intros Hnd. destruct (performance_of_fields pct_cell TODAY df) as [H7 H30].
  split; [|split].
  - intros pre o1 o2 Hp Hs Hz.
    rewrite <- (sort_index_unique df _ Hnd Hp Hs).
    rewrite performance_of_day_snoc2. now apply pct_cell_zero.
  - intros ref. now apply lookback_field_pct_zero.
  - intros ref. now apply lookback_field_pct_zero.
Qed.

Lemma zero_denominator_unavailable_witness :
  exists perf,
    calculate_yfinance_performance 40 [(1, 0%Q); (2, 0%Q); (33, 0%Q); (40, 7%Q)]
      = Ok perf /\
    Day perf = NA /\ Week perf = NA /\ Month perf = NA.
Proof.
  destruct (zero_denominator_unavailable 40
              [(1, 0%Q); (2, 0%Q); (33, 0%Q); (40, 7%Q)])
    as (perf & E & _ & _ & _ & H).
  exists perf. split; [exact E|].
  destruct H as (Hd & Hw & Hm).
  - simpl. repeat constructor; simpl; intuition lia.
  - split; [|split].
    + apply (Hd [(1, 0%Q); (2, 0%Q)] (33, 0%Q) (40, 7%Q)).
      * reflexivity.
      * unfold date_order. repeat constructor; simpl; lia.
      * reflexivity.
    + apply (Hw (33, 0%Q)); [|reflexivity].
      unfold as_of. simpl. split; [tauto|]. split; [lia|].
      intros o' Ho' Hle. intuition (subst; simpl in *; lia).
    + apply (Hm (2, 0%Q)); [|reflexivity].
      unfold as_of. simpl. split; [tauto|]. split; [lia|].
      intros o' Ho' Hle. intuition (subst; simpl in *; lia).
Defined.

(** C9.  On a raw-difference series whose latest observation is dated at or
    before [TODAY - 7] the Week cell is a number equal to zero, the latest
    value minus itself; likewise the Month cell when the latest observation
    is dated at or before [TODAY - 30]. *)
Theorem stale_series_zero_change (TODAY : date) (df : series) (o : obs) :
  latest df o ->
  exists perf,
    calculate_fred_performance TODAY df = Ok perf /\
    (fst o <= TODAY - 7 -> exists v, Week perf = Num v /\ (v == 0)%Q) /\
    (fst o <= TODAY - 30 -> exists v, Month perf = Num v /\ (v == 0)%Q).
Proof.
  intros [Hin Hmax].
  exists (performance_of diff_cell TODAY (sort_index df)).
  split; [apply calculate_fred_performance_closed|].
  destruct (sort_index_nonempty df) as (pre & cur & E).
  { intros ->. contradiction. }
  assert (Hcur : fst cur <= fst o).
  { apply Hmax. apply (latest_of_sorted df pre cur E). }
  assert (Hslice : forall c, fst o <= c ->
            last_row (slice_le c (sort_index df)) = Some cur).
  { intros c Hc. rewrite E. unfold slice_le. rewrite filter_app. simpl.
    destruct (Z.leb_spec (fst cur) c) as [_|Hlt]; [|lia].
    apply last_row_snoc. }
  unfold performance_of. rewrite E, rev_unit. rewrite <- E. simpl.
  unfold lookback_cell, diff_cell.
  split; intros Hc; rewrite (Hslice _ Hc);
    exists (snd cur - snd cur)%Q; (split; [reflexivity | ring]).
Qed.

Lemma stale_series_zero_change_witness :
  exists perf,
    calculate_fred_performance 50 [(1, 4%Q); (5, (17 # 4)%Q)] = Ok perf /\
    (exists v, Week perf = Num v /\ (v == 0)%Q) /\
    (exists v, Month perf = Num v /\ (v == 0)%Q).
Proof.
  destruct (stale_series_zero_change 50 [(1, 4%Q); (5, (17 # 4)%Q)]
              (5, (17 # 4)%Q))
    as (perf & E & Hw & Hm).
  - split; [simpl; tauto|].
    intros o' Ho'. simpl in Ho'. intuition (subst; simpl; lia).
  - exists perf. split; [exact E|]. split; [apply Hw | apply Hm]; simpl; lia.
Defined.

(** ** The table loops *)

Lemma performance_eta (p : performance) :
  p = {| Day := Day p; Week := Week p; Month := Month p |}.
Proof. now destruct p. Qed.

Lemma for_each_rows {A R : Type} (Q : A -> R -> Prop)
    (body : list R -> A -> result (list R)) (l : list A) (acc : list R) :
  (forall acc x, In x l -> exists r, body acc x = Ok (acc ++ [r]) /\ Q x r) ->
  exists rows, for_each l acc body = Ok (acc ++ rows) /\ Forall2 Q l rows.
Proof.
  revert acc. induction l as [|x l IH]; intros acc Hbody; simpl.
  - exists []. now rewrite app_nil_r.
  - destruct (Hbody acc x (or_introl eq_refl)) as (r & -> & Hr). simpl.
    destruct (IH (acc ++ [r])) as (rows & -> & Hrows).
    { intros acc' y Hy. apply Hbody. now right. }
    exists (r :: rows). rewrite <- app_assoc. now split; [|constructor].
Qed.

Lemma Forall2_map_eq {A R B : Type} (Q : A -> R -> Prop) (f : R -> B)
    (g : A -> B) (l : list A) (rows : list R) :
  (forall x r, Q x r -> f r = g x) ->
  Forall2 Q l rows -> map f rows = map g l.
Proof.
  intros HQ. induction 1 as [|x r l rows Hxr _ IH]; simpl.
  - reflexivity.
  - now rewrite (HQ x r Hxr), IH.
Qed.

Lemma Forall2_Forall_r {A R : Type} (Q : A -> R -> Prop) (F : R -> Prop)
    (l : list A) (rows : list R) :
  (forall x r, Q x r -> F r) -> Forall2 Q l rows -> Forall F rows.
Proof.
  intros HQ. induction 1 as [|x r l rows Hxr _ IH]; constructor; eauto.
Qed.

Lemma dict_find_key {V : Type} (d : dict V) (k : string) :
  In k (keys d) -> exists v, dict_find d k = Some v.
Proof.
  induction d as [|[k' v] d IH]; simpl; intros H; [contradiction|].
  destruct (String.eqb_spec k' k) as [->|Hne]; [eauto|].
  destruct H as [H|H]; [congruence | now apply IH].
Qed.

Lemma full_order_keys {V : Type} (TICKERS : dict V) (order : list string) :
  (forall name, In name order -> In name (keys TICKERS)) ->
  forall name, In name (full_order TICKERS order) -> In name (keys TICKERS).
Proof.
  intros Hord name Hin. unfold full_order in Hin.
  apply in_app_or in Hin. destruct Hin as [Hin|Hin]; [now apply Hord|].
  unfold sorted in Hin. apply (Permutation_in _ (isort_perm _ _)) in Hin.
  now apply filter_In in Hin.
Qed.

Lemma current_level_cell (hist : series) :
  (if negb (empty hist) then o <- iloc_neg 1 hist ;; Ok (Num (snd o))
   else Ok NA) = Ok (current_level hist).
Proof.
  unfold current_level.
  destruct (last_row_cases hist) as [[-> ->]|(pre & o & -> & ->)].
  - reflexivity.
  - now rewrite empty_snoc, iloc_neg_1_snoc.
Qed.

Lemma get_yfinance_data_degrades (P : providers) (ticker : string)
    (start_date end_date : date) :
  failed_or_empty (yf_download P ticker start_date end_date) ->
  get_yfinance_data P ticker start_date end_date = [].
Proof.
  unfold get_yfinance_data, failed_or_empty.
  destruct (yf_download P ticker start_date end_date) as [l|e];
    [intros ->|]; reflexivity.
Qed.

Lemma get_fred_data_degrades (P : providers) (series_id : string)
    (api_key : option string) (start_date end_date : date) :
  key_missing api_key = true \/
  failed_or_empty (fred_observations P series_id start_date end_date) ->
  get_fred_data P series_id api_key start_date end_date = [].
Proof.
  unfold get_fred_data, failed_or_empty.
  destruct (key_missing api_key); [reflexivity|].
  intros [H|H]; [discriminate|].
  destruct (fred_observations P series_id start_date end_date) as [l|e];
    [subst l|]; reflexivity.
Qed.

Lemma us_equities_df_rows (P : providers) (TODAY : date)
    (TICKERS : dict string) (order : list string) :
  (forall name, In name order -> In name (keys TICKERS)) ->
  exists rows,
    us_equities_df P TODAY TICKERS order = Ok rows /\
    Forall2 (us_equity_row P TODAY TICKERS) (full_order TICKERS order) rows.
Proof.
  intros Hord. unfold us_equities_df.
  apply (for_each_rows (us_equity_row P TODAY TICKERS) _ _ []).
  intros acc name Hin.
  destruct (dict_find_key TICKERS name) as [ticker Ht];
    [now apply (full_order_keys TICKERS order)|].
  unfold dict_get. rewrite Ht. cbn [bind].
  rewrite calculate_yfinance_performance_closed. cbn [bind].
  rewrite current_level_cell. cbn [bind].
  eexists. split; [reflexivity|].
  exists ticker. cbn. repeat split; trivial.
  rewrite calculate_yfinance_performance_closed. f_equal. apply performance_eta.
Qed.

Lemma fixed_income_df_rows (P : providers) (TODAY : date)
    (FRED_API_KEY : option string) (FRED_SERIES YF_TICKERS : dict string)
    (order : list string) :
  exists rows,
    fixed_income_df P TODAY FRED_API_KEY FRED_SERIES YF_TICKERS order
      = Ok rows /\
    Forall2 (fixed_income_row P TODAY FRED_API_KEY FRED_SERIES YF_TICKERS)
      order rows.
Proof.
  unfold fixed_income_df.
  apply (for_each_rows
           (fixed_income_row P TODAY FRED_API_KEY FRED_SERIES YF_TICKERS)
           _ _ []).
  intros acc name _. unfold fixed_income_row, dict_mem, dict_get.
  destruct (dict_find FRED_SERIES name) as [s_id|].
  - cbn [bind].
    set (h := get_fred_data P s_id FRED_API_KEY
                (THREE_MONTHS_AGO_FOR_FETCH TODAY) TODAY).
    destruct (last_row_cases h) as [[Eh El]|(pre & o & Eh & El)].
    + rewrite Eh. cbn. eexists. split; [reflexivity|]. cbn. tauto.
    + rewrite Eh, empty_snoc, iloc_neg_1_snoc. cbn [negb bind].
      rewrite calculate_fred_performance_closed. cbn [bind].
      eexists. split; [reflexivity|]. cbn.
      unfold current_level. rewrite last_row_snoc.
      repeat split. f_equal. apply performance_eta.
  - destruct (dict_find YF_TICKERS name) as [tckr|].
    + cbn [bind].
      set (h := get_yfinance_data P tckr
                  (THREE_MONTHS_AGO_FOR_FETCH TODAY) TODAY).
      destruct (last_row_cases h) as [[Eh El]|(pre & o & Eh & El)].
      * rewrite Eh. cbn. eexists. split; [reflexivity|]. cbn. tauto.
      * rewrite Eh, empty_snoc, iloc_neg_1_snoc. cbn [negb bind].
        rewrite calculate_yfinance_performance_closed. cbn [bind].
        eexists. split; [reflexivity|]. cbn.
        unfold current_level. rewrite last_row_snoc.
        repeat split. f_equal. apply performance_eta.
    + cbn. eexists. split; [reflexivity|]. cbn. unfold unavailable. tauto.
Qed.

Lemma us_equity_row_degrades_ok (P : providers) (TODAY : date)
    (TICKERS : dict string) (name : string) (r : row) :
  us_equity_row P TODAY TICKERS name r -> us_equity_row_degrades P TODAY r.
Proof.
  intros (ticker & _ & _ & Et & Ec & Ep) ticker' Et' Hfail.
  assert (ticker' = ticker) by congruence. subst ticker'.
  rewrite (get_yfinance_data_degrades _ _ _ _ Hfail) in Ec, Ep.
  split; [exact Ec|]. cbn in Ep. congruence.
Qed.

Lemma fixed_income_row_degrades_ok (P : providers) (TODAY : date)
    (FRED_API_KEY : option string) (FRED_SERIES YF_TICKERS : dict string)
    (name : string) (r : row) :
  fixed_income_row P TODAY FRED_API_KEY FRED_SERIES YF_TICKERS name r ->
  fixed_income_row_degrades P TODAY FRED_API_KEY FRED_SERIES YF_TICKERS r.
Proof.
  intros (Ea & _ & H). unfold fixed_income_row_degrades. rewrite Ea.
  destruct (dict_find FRED_SERIES name) as [s_id|].
  - intros Hfail. destruct H as [Ec Ep].
    rewrite (get_fred_data_degrades _ _ _ _ _ Hfail) in Ec, Ep.
    split; [exact Ec|]. cbn in Ep. congruence.
  - destruct (dict_find YF_TICKERS name) as [tckr|]; [|exact H].
    intros Hfail. destruct H as [Ec Ep].
    rewrite (get_yfinance_data_degrades _ _ _ _ Hfail) in Ec, Ep.
    split; [exact Ec|]. cbn in Ep. congruence.
Qed.

(** ** Claims on the tables *)

(** C6.  Both table loops return, without raising, exactly one row per
    asset of their order, in that order (the equity order being the leading
    names followed by the remaining keys, sorted); a fetch that raised or
    returned nothing leaves the row of its asset in place with current
    level and all three changes "N/A"; and every row is computed from the
    fetch of its own asset alone. *)
Theorem one_row_per_asset (P : providers) (TODAY : date)
    (TICKERS : dict string) (order : list string)
    (FRED_API_KEY : option string) (FRED_SERIES YF_TICKERS : dict string)
    (fi_order : list string) :
  (forall name, In name order -> In name (keys TICKERS)) ->
  exists us fi,
    us_equities_df P TODAY TICKERS order = Ok us /\
    fixed_income_df P TODAY FRED_API_KEY FRED_SERIES YF_TICKERS fi_order
      = Ok fi /\
    map Asset us = full_order TICKERS order /\
    map Ticker us = map (dict_find TICKERS) (full_order TICKERS order) /\
    map Asset fi = fi_order /\
    Forall (us_equity_row_degrades P TODAY) us /\
    Forall (fixed_income_row_degrades P TODAY FRED_API_KEY FRED_SERIES
              YF_TICKERS) fi /\
    Forall2 (us_equity_row P TODAY TICKERS) (full_order TICKERS order) us /\
    Forall2 (fixed_income_row P TODAY FRED_API_KEY FRED_SERIES YF_TICKERS)
      fi_order fi.
Proof.
  intros Hord.
  destruct (us_equities_df_rows P TODAY TICKERS order Hord) as (us & Eus & Hus).
  destruct (fixed_income_df_rows P TODAY FRED_API_KEY FRED_SERIES YF_TICKERS
              fi_order) as (fi & Efi & Hfi).
  exists us, fi. split; [exact Eus|]. split; [exact Efi|].
  split; [|split; [|split; [|split; [|split; [|split; trivial]]]]].
  - rewrite <- (map_id (full_order TICKERS order)).
    eapply Forall2_map_eq; [|exact Hus].
    intros x r (t & _ & Ea & _). exact Ea.
  - eapply Forall2_map_eq; [|exact Hus].
    intros x r (t & Ef & _ & Et & _). congruence.
  - rewrite <- (map_id fi_order).
    eapply Forall2_map_eq; [|exact Hfi].
    intros x r (Ea & _). exact Ea.
  - apply (Forall2_Forall_r _ _ _ _ (us_equity_row_degrades_ok P TODAY TICKERS)
             Hus).
  - apply (Forall2_Forall_r _ _ _ _
             (fixed_income_row_degrades_ok P TODAY FRED_API_KEY FRED_SERIES
                YF_TICKERS) Hfi).
Qed.

Lemma one_row_per_asset_witness :
  exists us fi,
    us_equities_df offline 0 US_EQUITY_TICKERS us_equity_order = Ok us /\
    fixed_income_df offline 0 None FRED_FIXED_INCOME_SERIES
      YFINANCE_FIXED_INCOME_TICKERS full_fixed_income_order = Ok fi /\
    map Asset us = full_order US_EQUITY_TICKERS us_equity_order /\
    map Ticker us =
      map (dict_find US_EQUITY_TICKERS)
          (full_order US_EQUITY_TICKERS us_equity_order) /\
    map Asset fi = full_fixed_income_order /\
    Forall (us_equity_row_degrades offline 0) us /\
    Forall (fixed_income_row_degrades offline 0 None FRED_FIXED_INCOME_SERIES
              YFINANCE_FIXED_INCOME_TICKERS) fi /\
    Forall2 (us_equity_row offline 0 US_EQUITY_TICKERS)
      (full_order US_EQUITY_TICKERS us_equity_order) us /\
    Forall2 (fixed_income_row offline 0 None FRED_FIXED_INCOME_SERIES
               YFINANCE_FIXED_INCOME_TICKERS)
      full_fixed_income_order fi.
Proof.
  apply (one_row_per_asset offline 0 US_EQUITY_TICKERS us_equity_order None
           FRED_FIXED_INCOME_SERIES YFINANCE_FIXED_INCOME_TICKERS
           full_fixed_income_order).
  intros name [<-|[<-|[<-|[]]]]; simpl; tauto.
Defined.

(** C8.  The raw-difference calculator reports plain level differences:
    Day is the latest value minus the second-latest one, Week and Month the
    latest value minus the as-of value, with no division and no factor 100;
    the percentage and currency calculators report percentages; and each
    fixed-income row takes all three of its changes from one calculator,
    the raw-difference one for a FRED series and the percentage one for a
    Yahoo ticker. *)
Theorem raw_difference_variant (P : providers) (TODAY : date) (df : series)
    (FRED_API_KEY : option string) (FRED_SERIES YF_TICKERS : dict string)
    (order : list string) :
  (exists pf,
     calculate_fred_performance TODAY df = Ok pf /\
     ((2 <= List.length df)%nat ->
      exists pre o1 o2,
        Permutation (pre ++ [o1; o2]) df /\
        StronglySorted date_order (pre ++ [o1; o2]) /\
        Day pf = Num (snd o2 - snd o1)%Q) /\
     ((List.length df < 2)%nat -> Day pf = NA) /\
     lookback_field (fun cur ref => Num (cur - ref)%Q) df (TODAY - 7)
       (Week pf) /\
     lookback_field (fun cur ref => Num (cur - ref)%Q) df (TODAY - 30)
       (Month pf)) /\
  (exists py rate,
     calculate_yfinance_performance TODAY df = Ok py /\
     get_currency_performance TODAY df = Ok (py, rate) /\
     lookback_field pct_cell df (TODAY - 7) (Week py) /\
     lookback_field pct_cell df (TODAY - 30) (Month py)) /\
  (exists rows,
     fixed_income_df P TODAY FRED_API_KEY FRED_SERIES YF_TICKERS order
       = Ok rows /\
     Forall2 (fixed_income_row P TODAY FRED_API_KEY FRED_SERIES YF_TICKERS)
       order rows).
Proof.
  split; [|split].
  - exists (performance_of diff_cell TODAY (sort_index df)).
    split; [apply calculate_fred_performance_closed|].
    destruct (performance_of_fields diff_cell TODAY df) as [H7 H30].
    repeat split; trivial.
    + intros Hlen. destruct (sort_index_two df Hlen) as (pre & o1 & o2 & E).
      exists pre, o1, o2. rewrite <- E. repeat split.
      * apply sort_index_perm.
      * apply sort_index_sorted.
      * rewrite E. apply performance_of_day_snoc2.
    + intros Hlen. apply performance_of_day_short.
      now rewrite sort_index_length.
    + apply H7.
    + apply H7.
    + apply H30.
    + apply H30.
  - do 2 eexists.
    split; [apply calculate_yfinance_performance_closed|].
    split; [apply get_currency_performance_closed|].
    apply performance_of_fields.
  - apply fixed_income_df_rows.
Qed.

Lemma raw_difference_variant_witness :
  exists pf pre o1 o2,
    calculate_fred_performance 10 [(1, 4%Q); (2, (17 # 4)%Q); (10, (9 # 2)%Q)]
      = Ok pf /\
    Permutation (pre ++ [o1; o2])
      [(1, 4%Q); (2, (17 # 4)%Q); (10, (9 # 2)%Q)] /\
    Day pf = Num (snd o2 - snd o1)%Q.
Proof.
  destruct (raw_difference_variant
              (serving [(1, 4%Q); (2, (17 # 4)%Q); (10, (9 # 2)%Q)]) 10
              [(1, 4%Q); (2, (17 # 4)%Q); (10, (9 # 2)%Q)] (Some "key"%string)
              FRED_FIXED_INCOME_SERIES YFINANCE_FIXED_INCOME_TICKERS
              full_fixed_income_order)
    as [(pf & E & Hday & _) _].
  destruct Hday as (pre & o1 & o2 & Hp & _ & Hd); [simpl; lia|].
  exists pf, pre, o1, o2. now repeat split.
Defined.

(** ** Subsequences *)

Lemma subseq_refl {A : Type} (l : list A) : subseq l l.
Proof. induction l; constructor; assumption. Qed.

Lemma subseq_nil_l {A : Type} (l : list A) : subseq [] l.
Proof. induction l; constructor; assumption. Qed.

Lemma subseq_trans {A : Type} (l1 l2 l3 : list A) :
  subseq l1 l2 -> subseq l2 l3 -> subseq l1 l3.
Proof.
  intros H12 H23. revert l1 H12.
  induction H23 as [|x l2 l3 H23 IH|x l2 l3 H23 IH]; intros l1 H12.
  - exact H12.
  - constructor. now apply IH.
  - inversion H12; subst.
    + constructor. now apply IH.
    + apply subseq_take. now apply IH.
Qed.

Lemma subseq_filter {A : Type} (p : A -> bool) (l : list A) :
  subseq (filter p l) l.
Proof.
  induction l as [|x l IH]; simpl; [constructor|].
  destruct (p x); now constructor.
Qed.

Lemma subseq_filter_mono {A : Type} (p : A -> bool) (l1 l2 : list A) :
  subseq l1 l2 -> subseq (filter p l1) (filter p l2).
Proof.
  induction 1 as [|x l1 l2 H IH|x l1 l2 H IH]; simpl.
  - constructor.
  - destruct (p x); [now constructor | exact IH].
  - destruct (p x); [now constructor | exact IH].
Qed.

Lemma subseq_map {A B : Type} (f : A -> B) (l1 l2 : list A) :
  subseq l1 l2 -> subseq (map f l1) (map f l2).
Proof. induction 1; simpl; now constructor. Qed.

Lemma subseq_firstn {A : Type} (n : nat) (l : list A) : subseq (firstn n l) l.
Proof.
  revert n. induction l as [|x l IH]; intros [|n]; simpl.
  - constructor.
  - constructor.
  - apply subseq_nil_l.
  - now constructor.
Qed.

Lemma subseq_skipn {A : Type} (n : nat) (l : list A) : subseq (skipn n l) l.
Proof.
  revert n. induction l as [|x l IH]; intros [|n]; simpl.
  - constructor.
  - constructor.
  - apply subseq_refl.
  - now constructor.
Qed.

Lemma subseq_length {A : Type} (l1 l2 : list A) :
  subseq l1 l2 -> (List.length l1 <= List.length l2)%nat.
Proof. induction 1; simpl; lia. Qed.

(** ** Sorted lists *)

Lemma StronglySorted_app_l {A : Type} (R : A -> A -> Prop) (l1 l2 : list A) :
  StronglySorted R (l1 ++ l2) -> StronglySorted R l1.
Proof.
  induction l1 as [|x l1 IH]; simpl; intros H; [constructor|].
  apply StronglySorted_inv in H. destruct H as [H Hall].
  constructor; [now apply IH|].
  apply Forall_app in Hall. tauto.
Qed.

Lemma StronglySorted_app_r {A : Type} (R : A -> A -> Prop) (l1 l2 : list A) :
  StronglySorted R (l1 ++ l2) -> StronglySorted R l2.
Proof.
  induction l1 as [|x l1 IH]; simpl; intros H; [exact H|].
  apply StronglySorted_inv in H. now apply IH.
Qed.

(** ** The two sorting behaviours *)

Lemma key_le_total {A : Type} (key : A -> Q) (ascending : bool) (x y : A) :
  key_le key ascending x y = true \/ key_le key ascending y x = true.
Proof.
  unfold key_le. destruct ascending; rewrite !Qle_bool_iff;
    destruct (Qlt_le_dec (key x) (key y)) as [H|H]; auto using Qlt_le_weak.
Qed.

Lemma key_le_trans {A : Type} (key : A -> Q) (ascending : bool) (x y z : A) :
  key_le key ascending x y = true -> key_le key ascending y z = true ->
  key_le key ascending x z = true.
Proof.
  unfold key_le. destruct ascending; rewrite !Qle_bool_iff; intros H1 H2;
    eapply Qle_trans; eassumption.
Qed.

Lemma isort_key_le_sorted {A : Type} (key : A -> Q) (ascending : bool)
    (l : list A) :
  StronglySorted (ordered key ascending) (isort (key_le key ascending) l).
Proof.
  apply StronglySorted_weaken
    with (R := fun x y => key_le key ascending x y = true).
  - intros x y. unfold key_le, ordered.
    destruct ascending; now rewrite Qle_bool_iff.
  - apply isort_sorted; [apply key_le_total | apply key_le_trans].
Qed.

Lemma stable_pandas_sorts (parse : string -> option Q) :
  sort_values_sorts (stable_pandas parse).
Proof.
  intros A key ascending l. split.
  - apply isort_perm.
  - apply isort_key_le_sorted.
Qed.

(** ** The ranker *)

Section Ranker.
Context {P : Pandas} {R : Type} (column : R -> cell).

Lemma coerce_dropna_rows (df : list R) :
  map fst (coerce_dropna column df) =
  filter (fun r => is_numeric (column r)) df.
Proof.
  induction df as [|r df IH]; simpl; [reflexivity|]. unfold is_numeric at 1.
  destruct (to_numeric (column r)); simpl; now rewrite ?IH.
Qed.

Lemma coerce_dropna_value (df : list R) (r : R) (q : Q) :
  In (r, q) (coerce_dropna column df) ->
  In r df /\ to_numeric (column r) = Some q.
Proof.
  induction df as [|r' df IH]; simpl; [contradiction|].
  destruct (to_numeric (column r')) as [q'|] eqn:E.
  - intros [H|H]; [inversion H; subst; auto | destruct (IH H); auto].
  - intros H. destruct (IH H); auto.
Qed.

Lemma coerce_dropna_subseq (df : list R) :
  subseq (map fst (coerce_dropna column df)) df.
Proof. rewrite coerce_dropna_rows. apply subseq_filter. Qed.

Hypothesis sorts : sort_values_sorts P.

Lemma top_spec (df : list R) (k : nat) :
  let E := coerce_dropna column df in
  let top := fst (get_top_bottom_performers column df k) in
  (exists rest,
      Permutation (top ++ rest) E /\
      forall x y, In x top -> In y rest -> (snd y <= snd x)%Q) /\
  StronglySorted (fun x y => (snd y <= snd x)%Q) top /\
  List.length top = Nat.min k (List.length E).
Proof.
  intros E top. subst top. unfold get_top_bottom_performers, head. cbn [fst].
  fold E. destruct (sorts _ snd false E) as [Hp Hs].
  set (D := sort_values snd false E) in *.
  rewrite <- (firstn_skipn k D) in Hs. split; [|split].
  - exists (skipn k D). split; [now rewrite firstn_skipn|].
    intros x y Hx Hy. apply (StronglySorted_app_inv _ _ _ Hs x y Hx Hy).
  - apply (StronglySorted_app_l _ _ _ Hs).
  - rewrite length_firstn. now rewrite (Permutation_length Hp).
Qed.

Lemma bottom_spec (df : list R) (k : nat) :
  let E := coerce_dropna column df in
  let bottom := snd (get_top_bottom_performers column df k) in
  (exists rest,
      Permutation (rest ++ bottom) E /\
      forall x y, In x bottom -> In y rest -> (snd x <= snd y)%Q) /\
  StronglySorted (fun x y => (snd x <= snd y)%Q) bottom /\
  List.length bottom = Nat.min k (List.length E).
Proof.
  intros E bottom. subst bottom.
  unfold get_top_bottom_performers, tail. cbn [snd].
  fold E. destruct (sorts _ snd false E) as [Hp Hs].
  set (D := sort_values snd false E) in *.
  set (n := (List.length D - k)%nat).
  destruct (sorts _ snd true (skipn n D)) as [Hp' Hs'].
  rewrite <- (firstn_skipn n D) in Hs. split; [|split].
  - exists (firstn n D). split.
    + now rewrite Hp', firstn_skipn.
    + intros x y Hx Hy. apply (Permutation_in _ Hp') in Hx.
      apply (StronglySorted_app_inv _ _ _ Hs y x Hy Hx).
  - exact Hs'.
  - rewrite (Permutation_length Hp'), length_skipn.
    subst n. rewrite (Permutation_length Hp). lia.
Qed.

Lemma top_in_table (df : list R) (k : nat) (x : R * Q) :
  In x (fst (get_top_bottom_performers column df k)) ->
  In x (coerce_dropna column df).
Proof.
  destruct (top_spec df k) as [(rest & Hp & _) _]. intros Hx.
  apply (Permutation_in _ Hp), in_or_app. now left.
Qed.

Lemma bottom_in_table (df : list R) (k : nat) (x : R * Q) :
  In x (snd (get_top_bottom_performers column df k)) ->
  In x (coerce_dropna column df).
Proof.
  destruct (bottom_spec df k) as [(rest & Hp & _) _]. intros Hx.
  apply (Permutation_in _ Hp), in_or_app. now right.
Qed.
End Ranker.

(** ** Claims on the ranker *)

(** C4.  Whatever algorithm sorts, [get_top_bottom_performers] ranks
    exactly the rows whose column entry is numeric: the top result holds
    the [k] largest values in descending order, the bottom result the [k]
    smallest in ascending order, each has [min k n] rows for [n] eligible
    rows (so at most [k], and all of them when [n <= k]), and a row whose
    entry is not numeric, "N/A" included, is in neither. *)
Theorem top_bottom_performers_ranking {P : Pandas} {R : Type}
    (column : R -> cell) (df : list R) (k : nat) :
  sort_values_sorts P ->
  map fst (coerce_dropna column df) =
    filter (fun r => is_numeric (column r)) df /\
  (forall r q, In (r, q) (coerce_dropna column df) ->
               to_numeric (column r) = Some q) /\
  ((exists rest,
       Permutation (fst (get_top_bottom_performers column df k) ++ rest)
         (coerce_dropna column df) /\
       forall x y, In x (fst (get_top_bottom_performers column df k)) ->
                   In y rest -> (snd y <= snd x)%Q) /\
   StronglySorted (fun x y => (snd y <= snd x)%Q)
     (fst (get_top_bottom_performers column df k)) /\
   List.length (fst (get_top_bottom_performers column df k)) =
     Nat.min k (List.length (coerce_dropna column df))) /\
  ((exists rest,
       Permutation (rest ++ snd (get_top_bottom_performers column df k))
         (coerce_dropna column df) /\
       forall x y, In x (snd (get_top_bottom_performers column df k)) ->
                   In y rest -> (snd x <= snd y)%Q) /\
   StronglySorted (fun x y => (snd x <= snd y)%Q)
     (snd (get_top_bottom_performers column df k)) /\
   List.length (snd (get_top_bottom_performers column df k)) =
     Nat.min k (List.length (coerce_dropna column df))) /\
  (forall r q, to_numeric (column r) = None ->
               ~ In (r, q) (fst (get_top_bottom_performers column df k)) /\
               ~ In (r, q) (snd (get_top_bottom_performers column df k))) /\
  (str_to_numeric "N/A" = None ->
   forall r q, column r = NA ->
               ~ In (r, q) (fst (get_top_bottom_performers column df k)) /\
               ~ In (r, q) (snd (get_top_bottom_performers column df k))).
Proof.
  intros sorts.
  assert (Hex : forall r q, to_numeric (column r) = None ->
            ~ In (r, q) (fst (get_top_bottom_performers column df k)) /\
            ~ In (r, q) (snd (get_top_bottom_performers column df k))).
  { intros r q Hnone. split; intros Hin.
    - apply (top_in_table column sorts) in Hin.
      apply coerce_dropna_value in Hin. destruct Hin. congruence.
    - apply (bottom_in_table column sorts) in Hin.
      apply coerce_dropna_value in Hin. destruct Hin. congruence. }
  split; [apply coerce_dropna_rows|].
  split; [intros r q H; now apply (coerce_dropna_value column df)|].
  split; [apply (top_spec column sorts)|].
  split; [apply (bottom_spec column sorts)|].
  split; [exact Hex|].
  intros Hna r q Hr. apply Hex. rewrite Hr. exact Hna.
Qed.

Lemma top_bottom_performers_ranking_witness :
  fst (@get_top_bottom_performers (stable_pandas (fun _ => None)) _
         snd sample_table 2) =
    [ ("c"%string, Num 3, 3%Q); ("e"%string, Num 2, 2%Q) ] /\
  snd (@get_top_bottom_performers (stable_pandas (fun _ => None)) _
         snd sample_table 2) =
    [ ("a"%string, Num 1, 1%Q); ("d"%string, Num 1, 1%Q) ] /\
  List.length (fst (@get_top_bottom_performers (stable_pandas (fun _ => None))
                      _ snd sample_table 2)) =
    Nat.min 2 (List.length (@coerce_dropna (stable_pandas (fun _ => None)) _
                              snd sample_table)) /\
  ~ In ("b"%string, NA, 0%Q)
       (fst (@get_top_bottom_performers (stable_pandas (fun _ => None)) _
               snd sample_table 2)).
Proof.
  destruct (@top_bottom_performers_ranking (stable_pandas (fun _ => None)) _
              snd sample_table 2 (stable_pandas_sorts _))
    as (_ & _ & (_ & _ & Hlen) & _ & _ & Hna).
  split; [reflexivity|]. split; [reflexivity|]. split; [exact Hlen|].
  apply (Hna eq_refl ("b"%string, NA) 0%Q eq_refl).
Defined.

Lemma nth_error_in_firstn {A : Type} (l : list A) (i k : nat) (x : A) :
  nth_error l i = Some x -> (i < k)%nat -> In x (firstn k l).
Proof.
  revert i k. induction l as [|y l IH]; intros [|i] [|k] H Hik;
    simpl in *; try discriminate; try lia.
  - left. congruence.
  - right. apply (IH i k H). lia.
Qed.

Lemma nth_error_in_skipn {A : Type} (l : list A) (i : nat) (x : A) :
  nth_error l i = Some x -> In x (skipn i l).
Proof.
  revert i. induction l as [|y l IH]; intros [|i] H;
    simpl in *; try discriminate.
  - left. congruence.
  - now apply IH.
Qed.

(** C10 (as amended).  When at most [k] rows are eligible, the top and the
    bottom result each hold all eligible rows; and whenever at least one
    and fewer than [2 * k] rows are eligible, some row is in both. *)
Theorem top_bottom_overlap {P : Pandas} {R : Type}
    (column : R -> cell) (df : list R) (k : nat) :
  sort_values_sorts P ->
  ((List.length (coerce_dropna column df) <= k)%nat ->
   Permutation (fst (get_top_bottom_performers column df k))
     (coerce_dropna column df) /\
   Permutation (snd (get_top_bottom_performers column df k))
     (coerce_dropna column df)) /\
  ((1 <= List.length (coerce_dropna column df) < 2 * k)%nat ->
   exists x, In x (fst (get_top_bottom_performers column df k)) /\
             In x (snd (get_top_bottom_performers column df k))).
Proof.
  intros sorts. unfold get_top_bottom_performers, head, tail. cbn [fst snd].
  set (E := coerce_dropna column df).
  destruct (sorts _ snd false E) as [Hp Hs].
  set (D := sort_values snd false E) in *.
  pose proof (Permutation_length Hp) as Hlen.
  destruct (sorts _ snd true (skipn (List.length D - k) D)) as [Hp' _].
  split.
  - intros Hk. split.
    + rewrite firstn_all2 by lia. exact Hp.
    + rewrite Hp'. replace (List.length D - k)%nat with 0%nat by lia.
      exact Hp.
  - intros Hk.
    destruct (nth_error D (List.length D - k)) as [x|] eqn:Ex.
    + exists x. split.
      * apply (nth_error_in_firstn _ _ _ _ Ex). lia.
      * apply (Permutation_in _ (Permutation_sym Hp')).
        now apply nth_error_in_skipn.
    + apply nth_error_None in Ex. lia.
Qed.

Lemma top_bottom_overlap_witness :
  Permutation
    (fst (@get_top_bottom_performers (stable_pandas (fun _ => None)) _
            snd sample_table 5))
    (@coerce_dropna (stable_pandas (fun _ => None)) _ snd sample_table) /\
  Permutation
    (snd (@get_top_bottom_performers (stable_pandas (fun _ => None)) _
            snd sample_table 5))
    (@coerce_dropna (stable_pandas (fun _ => None)) _ snd sample_table) /\
  exists x,
    In x (fst (@get_top_bottom_performers (stable_pandas (fun _ => None)) _
                 snd sample_table 3)) /\
    In x (snd (@get_top_bottom_performers (stable_pandas (fun _ => None)) _
                 snd sample_table 3)).
Proof.
  destruct (@top_bottom_overlap (stable_pandas (fun _ => None)) _
              snd sample_table 5 (stable_pandas_sorts _)) as [Hall _].
  destruct (@top_bottom_overlap (stable_pandas (fun _ => None)) _
              snd sample_table 3 (stable_pandas_sorts _)) as [_ Hsome].
  destruct Hall as [Ht Hb]; [simpl; lia|].
  split; [exact Ht|]. split; [exact Hb|].
  apply Hsome. simpl. lia.
Defined.

(** C10, as stated, fails: a table with no eligible row has fewer than
    [2 * k] eligible rows, and its top and bottom results share no row. *)
Lemma top_bottom_disjoint_without_eligible_rows :
  sort_values_sorts (stable_pandas (fun _ => None)) /\
  (List.length (@coerce_dropna (stable_pandas (fun _ => None)) _
                  snd [("a"%string, NA)]) < 2 * 5)%nat /\
  ~ exists x,
      In x (fst (@get_top_bottom_performers (stable_pandas (fun _ => None)) _
                   snd [("a"%string, NA)] 5)) /\
      In x (snd (@get_top_bottom_performers (stable_pandas (fun _ => None)) _
                   snd [("a"%string, NA)] 5)).
Proof.
  split; [apply stable_pandas_sorts|]. split; [simpl; lia|].
  intros (x & Hx & _). exact Hx.
Qed.

(** ** The heatmap *)

Lemma py_max_int_max (a b : Z) : py_max_int a b = Z.max a b.
Proof. unfold py_max_int. destruct (Z.ltb_spec a b); lia. Qed.

Lemma py_min_int_min (a b : Z) : py_min_int a b = Z.min a b.
Proof. unfold py_min_int. destruct (Z.ltb_spec b a); lia. Qed.

(** *** Powers of two and the binary logarithm *)

Lemma pow2_pos (e : Z) : (0 < pow2 e)%Q.
Proof. apply Qpower_0_lt. reflexivity. Qed.

Lemma pow2_add (a b : Z) : (pow2 (a + b) == pow2 a * pow2 b)%Q.
Proof. apply Qpower_plus. discriminate. Qed.

Lemma pow2_le (a b : Z) : a <= b -> (pow2 a <= pow2 b)%Q.
Proof. intros H. apply Qpower_le_compat_l; [exact H|discriminate]. Qed.

Lemma pow2_lt (a b : Z) : a < b -> (pow2 a < pow2 b)%Q.
Proof. intros H. apply Qpower_lt_compat_l; [exact H|reflexivity]. Qed.

Lemma pow2_lt_inv (a b : Z) : (pow2 a < pow2 b)%Q -> a < b.
Proof. intros H. apply (Qpower_lt_compat_l_inv 2); [exact H|reflexivity]. Qed.

Lemma pow2_Z (n : Z) : 0 <= n -> (inject_Z (2 ^ n) == pow2 n)%Q.
Proof. intros H. unfold pow2. now rewrite Zpower_Qpower. Qed.

Lemma inject_Z_pos (n : Z) : 0 < n -> (0 < inject_Z n)%Q.
Proof. intros H. change 0%Q with (inject_Z 0). now rewrite <- Zlt_Qlt. Qed.

Lemma ilog2_spec (q : Q) :
  (0 < q)%Q -> (pow2 (ilog2 q) <= q)%Q /\ (q < pow2 (ilog2 q + 1))%Q.
Proof.
  intros Hq. destruct q as [n d]. unfold ilog2. cbn [Qnum Qden].
  assert (Hn : 0 < n) by (unfold Qlt in Hq; simpl in Hq; lia).
  set (a := Z.log2 n). set (b := Z.log2 (Z.pos d)).
  destruct (Z.log2_spec n Hn) as [Ha1 Ha2]. fold a in Ha1, Ha2.
  destruct (Z.log2_spec (Z.pos d) eq_refl) as [Hb1 Hb2]. fold b in Hb1, Hb2.
  assert (Ha0 : 0 <= a) by apply Z.log2_nonneg.
  assert (Hb0 : 0 <= b) by apply Z.log2_nonneg.
  assert (Hlo : (pow2 (a - b - 1) <= n # d)%Q).
  { replace (a - b - 1) with (a + - (b + 1)) by ring.
    rewrite pow2_add. unfold pow2 at 2. rewrite Qpower_opp. fold (pow2 (b + 1)).
    rewrite Qmake_Qdiv. rewrite <- !pow2_Z by lia.
    apply Qle_shift_div_l; [reflexivity|].
    unfold Qdiv. rewrite <- Qmult_assoc, (Qmult_comm (/ _)), Qmult_assoc.
    apply Qle_shift_div_r.
    { apply inject_Z_pos. lia. }
    rewrite <- !inject_Z_mult, <- Zle_Qle. nia. }
  assert (Hhi : (n # d < pow2 (a - b + 1))%Q).
  { replace (a - b + 1) with (a + 1 + - b) by ring.
    rewrite pow2_add. unfold pow2 at 2. rewrite Qpower_opp. fold (pow2 b).
    rewrite Qmake_Qdiv. rewrite <- !pow2_Z by lia.
    apply Qlt_shift_div_r; [reflexivity|].
    unfold Qdiv. rewrite <- Qmult_assoc, (Qmult_comm (/ _)), Qmult_assoc.
    apply Qlt_shift_div_l.
    { apply inject_Z_pos. lia. }
    rewrite <- !inject_Z_mult, <- Zlt_Qlt. nia. }
  destruct (Qle_bool (pow2 (a - b)) (n # d)) eqn:E.
  - apply Qle_bool_iff in E. now split.
  - split; [exact Hlo|]. replace (a - b - 1 + 1) with (a - b) by ring.
    apply Qnot_le_lt. intros H. apply Qle_bool_iff in H. congruence.
Qed.

Lemma ilog2_mono (q1 q2 : Q) :
  (0 < q1)%Q -> (q1 <= q2)%Q -> ilog2 q1 <= ilog2 q2.
Proof.
  intros H1 H12.
  assert (H2 : (0 < q2)%Q) by (eapply Qlt_le_trans; eassumption).
  destruct (ilog2_spec q1 H1) as [Ha _].
  destruct (ilog2_spec q2 H2) as [_ Hb].
  assert (H : (pow2 (ilog2 q1) < pow2 (ilog2 q2 + 1))%Q).
  { eapply Qle_lt_trans; [exact Ha|]. eapply Qle_lt_trans; eassumption. }
  apply pow2_lt_inv in H. lia.
Qed.

Lemma round_half_even_bounds (x : Q) :
  Qfloor x <= round_half_even x <= Qfloor x + 1.
Proof.
  unfold round_half_even.
  destruct (x - inject_Z (Qfloor x) ?= 1 # 2)%Q; [destruct (Z.even _)| |]; lia.
Qed.

Lemma round_half_even_mono (x y : Q) :
  (x <= y)%Q -> round_half_even x <= round_half_even y.
Proof.
  intros Hxy. pose proof (Qfloor_resp_le x y Hxy) as Hf.
  pose proof (round_half_even_bounds x) as Bx.
  pose proof (round_half_even_bounds y) as By.
  destruct (Z.eq_dec (Qfloor x) (Qfloor y)) as [E|E]; [|lia].
  unfold round_half_even. rewrite <- E.
  destruct (Qcompare_spec (x - inject_Z (Qfloor x)) (1 # 2)) as [Hx|Hx|Hx];
    destruct (Qcompare_spec (y - inject_Z (Qfloor x)) (1 # 2)) as [Hy|Hy|Hy];
    try (destruct (Z.even (Qfloor x))); try lia; exfalso; lra.
Qed.

Lemma round_half_even_comp (x y : Q) :
  (x == y)%Q -> round_half_even x = round_half_even y.
Proof.
  intros H. apply Z.le_antisymm; apply round_half_even_mono; rewrite H;
    apply Qle_refl.
Qed.

Lemma round_half_even_Z (n : Z) : round_half_even (inject_Z n) = n.
Proof.
  unfold round_half_even. rewrite Qfloor_Z.
  destruct (Qcompare_spec (inject_Z n - inject_Z n) (1 # 2)) as [H|H|H];
    try reflexivity; exfalso; lra.
Qed.

Lemma ulp_exponent_mono (q1 q2 : Q) :
  (0 < q1)%Q -> (q1 <= q2)%Q -> ulp_exponent q1 <= ulp_exponent q2.
Proof.
  intros H1 H12. unfold ulp_exponent.
  pose proof (ilog2_mono q1 q2 H1 H12). lia.
Qed.

(** Below the binade of its unit the rounded significand has at most 53
    bits, and in a normal binade at least 53. *)
Lemma significand_upper (q : Q) :
  (0 < q)%Q ->
  round_half_even (q / pow2 (ulp_exponent q)) <= 2 ^ 53.
Proof.
  intros Hq. rewrite <- (round_half_even_Z (2 ^ 53)).
  apply round_half_even_mono.
  apply Qle_shift_div_r; [apply pow2_pos|].
  rewrite pow2_Z by lia. rewrite <- pow2_add.
  destruct (ilog2_spec q Hq) as [_ H]. apply Qlt_le_weak.
  eapply Qlt_le_trans; [exact H|]. apply pow2_le. unfold ulp_exponent. lia.
Qed.

Lemma significand_lower (q : Q) :
  (0 < q)%Q -> - 1074 < ulp_exponent q ->
  2 ^ 52 <= round_half_even (q / pow2 (ulp_exponent q)).
Proof.
  intros Hq He. rewrite <- (round_half_even_Z (2 ^ 52)) at 1.
  apply round_half_even_mono.
  apply Qle_shift_div_l; [apply pow2_pos|].
  rewrite pow2_Z by lia. rewrite <- pow2_add.
  destruct (ilog2_spec q Hq) as [H _].
  eapply Qle_trans; [|exact H]. apply pow2_le. unfold ulp_exponent in *. lia.
Qed.

Lemma round_pos_nonneg (q : Q) : (0 < q)%Q -> (0 <= round_pos q)%Q.
Proof.
  intros Hq. unfold round_pos. apply Qmult_le_0_compat.
  - change 0%Q with (inject_Z 0). rewrite <- Zle_Qle.
    rewrite <- (round_half_even_Z 0). apply round_half_even_mono.
    apply Qle_shift_div_l; [apply pow2_pos|]. rewrite Qmult_0_l.
    now apply Qlt_le_weak.
  - apply Qlt_le_weak, pow2_pos.
Qed.

Lemma round_pos_mono (q1 q2 : Q) :
  (0 < q1)%Q -> (q1 <= q2)%Q -> (round_pos q1 <= round_pos q2)%Q.
Proof.
  intros H1 H12.
  assert (H2 : (0 < q2)%Q) by (eapply Qlt_le_trans; eassumption).
  pose proof (ulp_exponent_mono q1 q2 H1 H12) as He.
  unfold round_pos.
  destruct (Z.eq_dec (ulp_exponent q1) (ulp_exponent q2)) as [E|E].
  - rewrite E. apply Qmult_le_compat_r; [|apply Qlt_le_weak, pow2_pos].
    rewrite <- Zle_Qle. apply round_half_even_mono.
    apply Qmult_le_compat_r; [exact H12|].
    apply Qlt_le_weak, Qinv_lt_0_compat, pow2_pos.
  - assert (He2 : - 1074 < ulp_exponent q2).
    { unfold ulp_exponent in *. lia. }
    pose proof (significand_upper q1 H1) as Hu.
    pose proof (significand_lower q2 H2 He2) as Hl.
    apply Qle_trans with (y := pow2 (ulp_exponent q1 + 53)).
    + rewrite pow2_add, (Qmult_comm (pow2 _)).
      apply Qmult_le_compat_r; [|apply Qlt_le_weak, pow2_pos].
      rewrite <- (pow2_Z 53) by lia. now rewrite <- Zle_Qle.
    + apply Qle_trans with (y := pow2 (ulp_exponent q2 + 52)).
      * apply pow2_le. lia.
      * rewrite pow2_add, (Qmult_comm (pow2 _)).
        apply Qmult_le_compat_r; [|apply Qlt_le_weak, pow2_pos].
        rewrite <- (pow2_Z 52) by lia. now rewrite <- Zle_Qle.
Qed.

Lemma round_pos_comp (q1 q2 : Q) :
  (0 < q1)%Q -> (q1 == q2)%Q -> (round_pos q1 == round_pos q2)%Q.
Proof.
  intros H1 H12.
  assert (H2 : (0 < q2)%Q) by now rewrite <- H12.
  apply Qle_antisym; apply round_pos_mono; trivial; rewrite H12;
    apply Qle_refl.
Qed.

(** *** Rounding to a double *)

Lemma round_pos_small (q : Q) (n : Z) :
  (0 < q)%Q -> (q <= inject_Z n)%Q -> 0 < n < 2 ^ 53 ->
  (round_pos q <= inject_Z n)%Q.
Proof.
  intros Hq Hn Hb.
  assert (Hn0 : (0 < inject_Z n)%Q) by (apply inject_Z_pos; lia).
  assert (E : (round_pos (inject_Z n) == inject_Z n)%Q).
  { unfold round_pos.
    assert (He : ulp_exponent (inject_Z n) <= 0).
    { unfold ulp_exponent.
      destruct (ilog2_spec (inject_Z n) Hn0) as [Hlo _].
      assert (Hl : ilog2 (inject_Z n) < 53).
      { apply pow2_lt_inv. eapply Qle_lt_trans; [exact Hlo|].
        rewrite <- (pow2_Z 53) by lia. rewrite <- Zlt_Qlt. lia. }
      lia. }
    set (e := ulp_exponent (inject_Z n)) in *.
    assert (Ex : (inject_Z n / pow2 e == inject_Z (n * 2 ^ (- e)))%Q).
    { rewrite inject_Z_mult, pow2_Z by lia. unfold pow2.
      rewrite Qpower_opp. reflexivity. }
    rewrite (round_half_even_comp _ _ Ex), round_half_even_Z.
    rewrite inject_Z_mult, pow2_Z by lia. rewrite <- Qmult_assoc.
    rewrite <- pow2_add. replace (- e + e) with 0 by ring.
    unfold pow2. simpl. ring. }
  rewrite <- E. now apply round_pos_mono.
Qed.

Lemma round64_comp (q q' : Q) : (q == q')%Q -> round64 q = round64 q'.
Proof.
  intros H. unfold round64.
  rewrite (Qcompare_comp q q' H 0%Q 0%Q (Qeq_refl 0%Q)).
  destruct (q' ?= 0)%Q eqn:E; [reflexivity| |].
  - apply Qlt_alt in E.
    assert (Hp : (0 < - q)%Q) by (rewrite H; lra).
    assert (Hr : (round_pos (- q) == round_pos (- q'))%Q).
    { apply round_pos_comp; [exact Hp|]. now rewrite H. }
    rewrite (Qleb_comp _ _ (Qeq_refl (pow2 1024)) _ _ Hr).
    destruct (Qle_bool (pow2 1024) (round_pos (- q'))); [reflexivity|].
    f_equal. apply Qred_complete. now rewrite Hr.
  - apply Qgt_alt in E.
    assert (Hp : (0 < q)%Q) by (rewrite H; exact E).
    assert (Hr : (round_pos q == round_pos q')%Q)
      by now apply round_pos_comp.
    rewrite (Qleb_comp _ _ (Qeq_refl (pow2 1024)) _ _ Hr).
    destruct (Qle_bool (pow2 1024) (round_pos q')); [reflexivity|].
    f_equal. apply Qred_complete. exact Hr.
Qed.

(** The double nearest to a quotient that is not negative. *)
Lemma round64_nonneg (q : Q) :
  (0 <= q)%Q ->
  (round64 q = PInf /\ (pow2 1024 <= round_pos q)%Q /\ (0 < q)%Q) \/
  (exists r, round64 q = Fin r /\ (0 <= r)%Q /\
             ((q == 0)%Q /\ r = 0%Q \/
              (0 < q)%Q /\ (r == round_pos q)%Q /\
              (round_pos q < pow2 1024)%Q)).
Proof.
  intros Hq. unfold round64. destruct (Qcompare_spec q 0) as [E|E|E].
  - right. exists 0%Q. split; [reflexivity|]. split; [apply Qle_refl|].
    now left.
  - exfalso. apply (Qlt_not_le _ _ E Hq).
  - destruct (Qle_bool (pow2 1024) (round_pos q)) eqn:Eo.
    + left. apply Qle_bool_iff in Eo. now split.
    + right. exists (Qred (round_pos q)). split; [reflexivity|].
      split; [rewrite Qred_correct; now apply round_pos_nonneg|].
      right. split; [exact E|]. split; [apply Qred_correct|].
      apply Qnot_le_lt. intros H. apply Qle_bool_iff in H. congruence.
Qed.

Lemma clamp01_Fin_range (q : Q) : (0 <= clamp01 (Fin q) <= 1)%Q.
Proof.
  cbn [clamp01]. split.
  - apply Q.le_max_l.
  - apply Q.max_lub; [discriminate | apply Q.le_min_r].
Qed.

Lemma clamp01_range (x : pyfloat) : (0 <= clamp01 x <= 1)%Q.
Proof.
  destruct x; [apply clamp01_Fin_range | | |]; split; discriminate.
Qed.

Lemma clamp01_Fin_mono (q q' : Q) :
  (q <= q')%Q -> (clamp01 (Fin q) <= clamp01 (Fin q'))%Q.
Proof.
  intros H. cbn [clamp01].
  apply Q.max_le_compat_l, Q.min_le_compat_r, H.
Qed.

Lemma clamp01_Fin_above (q : Q) : (1 <= q)%Q -> (clamp01 (Fin q) == 1)%Q.
Proof.
  intros H1. cbn [clamp01].
  rewrite (Q.min_r q 1 H1). now apply Q.max_r.
Qed.

Lemma clamp01_Fin_inside (q : Q) :
  (0 <= q)%Q -> (q <= 1)%Q -> (clamp01 (Fin q) == q)%Q.
Proof.
  intros H0 H1. cbn [clamp01].
  rewrite (Q.min_l q 1 H1). now apply Q.max_r.
Qed.

(** A larger quotient has no smaller scale, rounding and clamping
    included. *)
Lemma clamp01_round64_mono (q q' : Q) :
  (0 <= q)%Q -> (q <= q')%Q ->
  (clamp01 (round64 q) <= clamp01 (round64 q'))%Q.
Proof.
  intros H0 H.
  assert (H0' : (0 <= q')%Q) by (eapply Qle_trans; eassumption).
  destruct (round64_nonneg q H0) as [(E & Ho & Hp)|(r & E & Hr & Hc)];
    destruct (round64_nonneg q' H0') as [(E' & Ho' & Hp')|(r' & E' & Hr' & Hc')];
    rewrite E, E'.
  - apply Qle_refl.
  - exfalso. destruct Hc' as [[Hz _]|(_ & _ & Hlt)].
    + rewrite Hz in H. apply (Qlt_not_le _ _ Hp H).
    + pose proof (round_pos_mono q q' Hp H) as Hm.
      apply (Qlt_not_le _ _ Hlt). eapply Qle_trans; eassumption.
  - apply clamp01_range.
  - destruct Hc as [[Hz ->]|(Hp & Er & _)].
    + eapply Qle_trans; [|apply clamp01_Fin_range]. discriminate.
    + destruct Hc' as [[Hz' _]|(_ & Er' & _)].
      * exfalso. rewrite Hz' in H. apply (Qlt_not_le _ _ Hp H).
      * apply clamp01_Fin_mono. rewrite Er, Er'. now apply round_pos_mono.
Qed.

(** A quotient that reaches 1 has scale 1. *)
Lemma clamp01_round64_full (q : Q) :
  (1 <= q)%Q -> (clamp01 (round64 q) == 1)%Q.
Proof.
  intros H1.
  assert (H0 : (0 <= q)%Q) by (eapply Qle_trans; [|exact H1]; discriminate).
  assert (E1 : (clamp01 (round64 1) == 1)%Q) by reflexivity.
  apply Qle_antisym; [apply clamp01_range|].
  rewrite <- E1 at 1. apply clamp01_round64_mono; [discriminate|exact H1].
Qed.

(** A product within [[0, 4]] rounds to a double within [[0, 4]]. *)
Lemma round64_upto_4 (q : Q) :
  (0 <= q)%Q -> (q <= 4)%Q ->
  exists x, round64 q = Fin x /\ (0 <= x)%Q /\ (x <= 4)%Q.
Proof.
  intros H0 H4.
  destruct (round64_nonneg q H0) as [(_ & Ho & Hp)|(r & E & Hr & Hc)].
  - exfalso. pose proof (round_pos_small q 4 Hp H4 ltac:(lia)) as Hs.
    assert (Hlt : (inject_Z 4 < pow2 1024)%Q) by reflexivity.
    apply (Qlt_not_le _ _ Hlt). eapply Qle_trans; eassumption.
  - exists r. split; [exact E|]. split; [exact Hr|].
    destruct Hc as [[_ ->]|(Hp & Er & _)]; [discriminate|].
    rewrite Er. apply (round_pos_small q 4 Hp H4). lia.
Qed.

Lemma round64_mono_upto_4 (q q' x x' : Q) :
  (0 <= q)%Q -> (q <= q')%Q ->
  round64 q = Fin x -> round64 q' = Fin x' -> (x <= x')%Q.
Proof.
  intros H0 H E E'.
  assert (H0' : (0 <= q')%Q) by (eapply Qle_trans; eassumption).
  destruct (round64_nonneg q H0) as [(Ei & _)|(r & Er & Hr & Hc)];
    [congruence|].
  destruct (round64_nonneg q' H0') as [(Ei' & _)|(r' & Er' & Hr' & Hc')];
    [congruence|].
  rewrite E in Er. injection Er as <-.
  rewrite E' in Er'. injection Er' as <-.
  destruct Hc as [[_ ->]|(Hp & Ex & _)]; [exact Hr'|].
  destruct Hc' as [[Hz' _]|(_ & Ex' & _)].
  - exfalso. rewrite Hz' in H. apply (Qlt_not_le _ _ Hp H).
  - rewrite Ex, Ex'. now apply round_pos_mono.
Qed.

(** *** Comparisons of finite floats *)

Lemma float_leb_Fin (x y : Q) : float_leb (Fin x) (Fin y) = Qle_bool x y.
Proof.
  unfold float_leb. cbn [float_ltb float_eqb].
  destruct (Qle_bool x y) eqn:E.
  - apply Qle_bool_iff in E. destruct (Qle_bool y x) eqn:E'; [|reflexivity].
    apply Qle_bool_iff in E'. cbn [negb orb]. apply Qeq_bool_iff.
    now apply Qle_antisym.
  - assert (Hlt : (y < x)%Q).
    { apply Qnot_le_lt. intros H. apply Qle_bool_iff in H. congruence. }
    assert (E1 : Qle_bool y x = true)
      by now apply Qle_bool_iff, Qlt_le_weak.
    rewrite E1. cbn [negb orb].
    destruct (Qeq_bool x y) eqn:E2; [|reflexivity].
    apply Qeq_bool_iff in E2. rewrite E2 in Hlt.
    now apply Qlt_irrefl in Hlt.
Qed.

Lemma Qabs_neg_pos (m : Q) : (m < 0)%Q -> (0 < Qabs m)%Q.
Proof.
  intros Hm. rewrite Qabs_neg by now apply Qlt_le_weak.
  rewrite <- (Qopp_opp 0). now apply Qopp_lt_compat.
Qed.

Lemma Qdiv_nonneg (a b : Q) : (0 <= a)%Q -> (0 < b)%Q -> (0 <= a / b)%Q.
Proof.
  intros Ha Hb. apply Qle_shift_div_l; [exact Hb|]. now rewrite Qmult_0_l.
Qed.

Lemma Qdiv_le_mono (a b c : Q) : (0 < c)%Q -> (a <= b)%Q -> (a / c <= b / c)%Q.
Proof.
  intros Hc Hab. unfold Qdiv. apply Qmult_le_compat_r; [exact Hab|].
  apply Qlt_le_weak, Qinv_lt_0_compat, Hc.
Qed.

(** [min(q, 1.0)] on a quotient that is not negative is the clamp. *)
Lemma py_min_clamp01 (q : Q) :
  (0 <= q)%Q ->
  exists s, py_min (round64 q) (Fin 1) = Fin s /\
            (s == clamp01 (round64 q))%Q.
Proof.
  intros Hq.
  destruct (round64_nonneg q Hq) as [(E & _)|(r & E & Hr & _)]; rewrite E.
  - exists 1%Q. now split.
  - unfold py_min. cbn [float_ltb].
    destruct (Qle_bool r 1) eqn:E1; cbn [negb].
    + apply Qle_bool_iff in E1. exists r. split; [reflexivity|].
      symmetry. now apply clamp01_Fin_inside.
    + assert (H1 : (1 <= r)%Q).
      { apply Qlt_le_weak, Qnot_le_lt. intros H.
        apply Qle_bool_iff in H. congruence. }
      exists 1%Q. split; [reflexivity|].
      symmetry. now apply clamp01_Fin_above.
Qed.

(** The scale of a positive value against the column maximum, as the code
    computes it and as the specification words it. *)
Lemma positive_scale (v : Q) (max_col_val : option Q) :
  (0 < v)%Q ->
  exists s,
    match option_map Fin max_col_val with
    | None => Ok (Fin 1)
    | Some m => if float_leb m (Fin 0) then Ok (Fin 1)
                else q <- float_div (Fin v) m ;; Ok (py_min q (Fin 1))
    end = Ok (Fin s) /\
    (s == green_scale v max_col_val)%Q.
Proof.
  intros Hv. unfold green_scale.
  destruct max_col_val as [m|]; cbn [option_map]; [|exists 1%Q; now split].
  rewrite float_leb_Fin. destruct (Qle_bool m 0) eqn:E.
  - apply Qle_bool_iff in E. exists 1%Q. split; [reflexivity|].
    destruct (Qlt_le_dec 0 m) as [H|H]; [|reflexivity].
    exfalso. apply (Qlt_not_le _ _ H E).
  - assert (Hm : (0 < m)%Q).
    { apply Qnot_le_lt. intros H. apply Qle_bool_iff in H. congruence. }
    assert (Ez : Qeq_bool m 0 = false).
    { destruct (Qeq_bool m 0) eqn:Ez; [|reflexivity].
      apply Qeq_bool_iff in Ez. rewrite Ez in Hm.
      now apply Qlt_irrefl in Hm. }
    unfold float_div. cbn [float_eqb]. rewrite Ez. cbn [bind].
    destruct (Qlt_le_dec 0 m) as [_|H];
      [|exfalso; apply (Qlt_not_le _ _ Hm H)].
    destruct (py_min_clamp01 (v / m)) as (s & Es & Hs).
    { apply Qdiv_nonneg; [now apply Qlt_le_weak | exact Hm]. }
    exists s. rewrite Es. now split.
Qed.

Lemma negative_scale (v : Q) (min_col_val : option Q) :
  (v < 0)%Q ->
  exists s,
    match option_map Fin min_col_val with
    | None => Ok (Fin 1)
    | Some m => if float_leb (Fin 0) m then Ok (Fin 1)
                else q <- float_div (float_abs (Fin v)) (float_abs m) ;;
                     Ok (py_min q (Fin 1))
    end = Ok (Fin s) /\
    (s == red_scale v min_col_val)%Q.
Proof.
  intros Hv. unfold red_scale.
  destruct min_col_val as [m|]; cbn [option_map]; [|exists 1%Q; now split].
  rewrite float_leb_Fin. destruct (Qle_bool 0 m) eqn:E.
  - apply Qle_bool_iff in E. exists 1%Q. split; [reflexivity|].
    destruct (Qlt_le_dec m 0) as [H|H]; [|reflexivity].
    exfalso. apply (Qlt_not_le _ _ H E).
  - assert (Hm : (m < 0)%Q).
    { apply Qnot_le_lt. intros H. apply Qle_bool_iff in H. congruence. }
    pose proof (Qabs_neg_pos m Hm) as Ha.
    assert (Ez : Qeq_bool (Qabs m) 0 = false).
    { destruct (Qeq_bool (Qabs m) 0) eqn:Ez; [|reflexivity].
      apply Qeq_bool_iff in Ez. rewrite Ez in Ha.
      now apply Qlt_irrefl in Ha. }
    unfold float_div. cbn [float_abs float_eqb]. rewrite Ez. cbn [bind].
    destruct (Qlt_le_dec m 0) as [_|H];
      [|exfalso; apply (Qlt_not_le _ _ Hm H)].
    destruct (py_min_clamp01 (Qabs v / Qabs m)) as (s & Es & Hs).
    { apply Qdiv_nonneg; [apply Qabs_nonneg | exact Ha]. }
    exists s. rewrite Es. now split.
Qed.

Lemma green_scale_range (v : Q) (b : option Q) :
  (0 <= green_scale v b <= 1)%Q.
Proof.
  unfold green_scale. destruct b as [m|]; [|split; discriminate].
  destruct (Qlt_le_dec 0 m); [apply clamp01_range | split; discriminate].
Qed.

Lemma red_scale_range (v : Q) (b : option Q) : (0 <= red_scale v b <= 1)%Q.
Proof.
  unfold red_scale. destruct b as [m|]; [|split; discriminate].
  destruct (Qlt_le_dec m 0); [apply clamp01_range | split; discriminate].
Qed.



Lemma bucket_index_range {L : Libm} (s : Q) : 0 <= bucket_index s <= 4.
Proof.
  unfold bucket_index. destruct (round64 (float_root s * 4)); lia.
Qed.

(** *** The index under a conforming library *)

Section Conforming.
Context {L : Libm} (conforms : libm_conforms L).

Lemma float_root_range (s : Q) :
  (0 <= s)%Q -> (s <= 1)%Q ->
  (0 <= float_root s)%Q /\ (float_root s <= 1)%Q.
Proof.
  intros H0 H1. unfold float_root. destruct (Qeq_bool s 0) eqn:E.
  - split; discriminate.
  - apply (pow_half_unit L conforms); [|exact H1].
    apply Qle_lteq in H0. destruct H0 as [H0|H0]; [exact H0|].
    symmetry in H0. apply Qeq_bool_iff in H0. congruence.
Qed.

Lemma float_root_mono (s s' : Q) :
  (0 <= s)%Q -> (s <= s')%Q -> (s' <= 1)%Q ->
  (float_root s <= float_root s')%Q.
Proof.
  intros H0 H H1.
  assert (H0' : (0 <= s')%Q) by (eapply Qle_trans; eassumption).
  pose proof (float_root_range s' H0' H1) as [Hr' _].
  unfold float_root in *. destruct (Qeq_bool s 0) eqn:E; [exact Hr'|].
  assert (Hs : (0 < s)%Q).
  { apply Qle_lteq in H0. destruct H0 as [H0|H0]; [exact H0|].
    symmetry in H0. apply Qeq_bool_iff in H0. congruence. }
  destruct (Qeq_bool s' 0) eqn:E'.
  - exfalso. apply Qeq_bool_iff in E'. rewrite E' in H.
    apply (Qlt_not_le _ _ Hs H).
  - now apply (pow_half_mono L conforms).
Qed.

Lemma float_root_comp (s s' : Q) :
  (0 <= s)%Q -> (s <= 1)%Q -> (s == s')%Q ->
  (float_root s == float_root s')%Q.
Proof.
  intros H0 H1 E.
  assert (H0' : (0 <= s')%Q) by now rewrite <- E.
  assert (H1' : (s' <= 1)%Q) by now rewrite <- E.
  apply Qle_antisym; apply float_root_mono; trivial; rewrite E;
    apply Qle_refl.
Qed.

Lemma float_root_one (s : Q) : (s == 1)%Q -> (float_root s == 1)%Q.
Proof.
  intros E. rewrite (float_root_comp s 1); [| | |exact E].
  - unfold float_root. cbn. apply (pow_half_one L conforms).
  - rewrite E. discriminate.
  - rewrite E. apply Qle_refl.
Qed.

(** On a scale in [[0, 1]] the product is a double in [[0, 4]], and the
    clamp of the index is idle. *)
Lemma bucket_index_floor (s : Q) :
  (0 <= s)%Q -> (s <= 1)%Q ->
  exists x, round64 (float_root s * 4) = Fin x /\
            (0 <= x)%Q /\ (x <= 4)%Q /\ bucket_index s = Qfloor x.
Proof.
  intros H0 H1. destruct (float_root_range s H0 H1) as [Hr0 Hr1].
  destruct (round64_upto_4 (float_root s * 4)) as (x & E & Hx0 & Hx4).
  - apply Qmult_le_0_compat; [exact Hr0 | discriminate].
  - apply (Qmult_le_compat_r _ _ 4) in Hr1; [|discriminate]. exact Hr1.
  - exists x. split; [exact E|]. split; [exact Hx0|]. split; [exact Hx4|].
    unfold bucket_index. rewrite E.
    assert (Hf0 : 0 <= Qfloor x).
    { change 0 with (Qfloor 0). now apply Qfloor_resp_le. }
    assert (Hf4 : Qfloor x <= 4).
    { change 4 with (Qfloor 4). now apply Qfloor_resp_le. }
    lia.
Qed.

Lemma bucket_index_mono (s s' : Q) :
  (0 <= s)%Q -> (s <= s')%Q -> (s' <= 1)%Q ->
  bucket_index s <= bucket_index s'.
Proof.
  intros H0 H H1.
  assert (H0' : (0 <= s')%Q) by (eapply Qle_trans; eassumption).
  assert (H1' : (s <= 1)%Q) by (eapply Qle_trans; eassumption).
  destruct (bucket_index_floor s H0 H1') as (x & E & _ & _ & ->).
  destruct (bucket_index_floor s' H0' H1) as (x' & E' & _ & _ & ->).
  apply Qfloor_resp_le.
  apply (round64_mono_upto_4 (float_root s * 4) (float_root s' * 4));
    trivial.
  - apply Qmult_le_0_compat; [|discriminate].
    now apply float_root_range.
  - apply Qmult_le_compat_r; [|discriminate]. now apply float_root_mono.
Qed.

Lemma bucket_index_comp (s s' : Q) :
  (0 <= s)%Q -> (s <= 1)%Q -> (s == s')%Q ->
  bucket_index s = bucket_index s'.
Proof.
  intros H0 H1 E. unfold bucket_index.
  rewrite (round64_comp (float_root s * 4) (float_root s' * 4));
    [reflexivity|].
  now rewrite (float_root_comp s s' H0 H1 E).
Qed.

Lemma bucket_index_one (s : Q) : (s == 1)%Q -> bucket_index s = 4.
Proof.
  intros E. unfold bucket_index.
  rewrite (round64_comp (float_root s * 4) 4); [reflexivity|].
  now rewrite (float_root_one s E).
Qed.

(** [max(0, min(int(scale ** 0.5 * 4), 4))] is the index of the
    specification. *)
Lemma heatmap_index (s : Q) (classes : list string) :
  (0 <= s)%Q -> (s <= 1)%Q -> len classes - 1 = 4 ->
  (root <- py_pow_half (Fin s) ;;
   i <- py_int (float_mul root (Fin (inject_Z (len classes - 1)))) ;;
   Ok (py_max_int 0 (py_min_int i (len classes - 1))))
  = Ok (bucket_index s).
Proof.
  intros H0 H1 ->.
  destruct (bucket_index_floor s H0 H1) as (x & E & Hx0 & Hx4 & Ei).
  assert (Er : py_pow_half (Fin s) = Ok (Fin (float_root s))).
  { unfold py_pow_half, float_root.
    destruct (Qcompare_spec s 0) as [Hs|Hs|Hs].
    - apply Qeq_bool_iff in Hs. now rewrite Hs.
    - exfalso. apply (Qlt_not_le _ _ Hs H0).
    - destruct (Qeq_bool s 0) eqn:Ez; [|reflexivity].
      apply Qeq_bool_iff in Ez. rewrite Ez in Hs.
      now apply Qlt_irrefl in Hs. }
  rewrite Er. cbn [bind float_mul].
  change (inject_Z 4) with 4%Q. rewrite E. cbn [py_int bind].
  destruct (Qlt_le_dec x 0) as [Hn|_].
  - exfalso. apply (Qlt_not_le _ _ Hn Hx0).
  - rewrite py_max_int_max, py_min_int_min, Ei.
    assert (Hf0 : 0 <= Qfloor x).
    { change 0 with (Qfloor 0). now apply Qfloor_resp_le. }
    assert (Hf4 : Qfloor x <= 4).
    { change 4 with (Qfloor 4). now apply Qfloor_resp_le. }
    f_equal. lia.
Qed.

Lemma green_class_selected (value : cell) (i : Z) :
  0 <= i <= 4 ->
  (selected_class <- py_index green_classes i ;;
   Ok (selected_class ++ " " ++
       (if (3 <=? i)%Z then "text-white" else "text-gray-800"))%string)
  = Ok (bucket_class value (green (S (Z.to_nat i)))).
Proof.
  intros Hi.
  assert (H : i = 0 \/ i = 1 \/ i = 2 \/ i = 3 \/ i = 4) by lia.
  destruct H as [->|[->|[->|[->| ->]]]]; reflexivity.
Qed.

Lemma red_class_selected (value : cell) (i : Z) :
  0 <= i <= 4 ->
  (selected_class <- py_index red_classes i ;;
   Ok (selected_class ++ " " ++
       (if (3 <=? i)%Z then "text-white" else "text-gray-800"))%string)
  = Ok (bucket_class value (red (S (Z.to_nat i)))).
Proof.
  intros Hi.
  assert (H : i = 0 \/ i = 1 \/ i = 2 \/ i = 3 \/ i = 4) by lia.
  destruct H as [->|[->|[->|[->| ->]]]]; reflexivity.
Qed.

Lemma get_heatmap_class_bucket (value : cell)
    (min_col_val max_col_val : option Q) :
  get_heatmap_class (cell_object value)
    (option_map Fin min_col_val) (option_map Fin max_col_val) =
  Ok (bucket_class value (bucket value min_col_val max_col_val)).
Proof.
  destruct value as [v|s]; [|reflexivity].
  unfold get_heatmap_class, bucket. cbn [cell_object float_eqb float_ltb].
  destruct (Qeq_bool v 0) eqn:E0.
  - apply Qeq_bool_iff, Qeq_alt in E0. now rewrite E0.
  - assert (Hne : ~ (v == 0)%Q).
    { intros H. apply Qeq_bool_iff in H. congruence. }
    destruct (Qle_bool v 0) eqn:E1; cbn [negb].
    + assert (Hlt : (v < 0)%Q).
      { apply Qle_bool_iff in E1. apply Qle_lteq in E1. tauto. }
      rewrite (proj1 (Qlt_alt v 0) Hlt).
      destruct (negative_scale v min_col_val Hlt) as (s & Es & Hs).
      destruct (red_scale_range v min_col_val) as [R0 R1].
      assert (S0 : (0 <= s)%Q) by now rewrite Hs.
      assert (S1 : (s <= 1)%Q) by now rewrite Hs.
      rewrite Es. cbn [bind].
      pose proof (heatmap_index s red_classes S0 S1 eq_refl) as Ei.
      change (len red_classes - 1) with 4 in *.
      destruct (py_pow_half (Fin s)) as [root|e]; [|discriminate].
      cbn [bind] in *.
      destruct (py_int (float_mul root (Fin (inject_Z 4))))
        as [i|e]; [|discriminate].
      cbn [bind] in *. injection Ei as Ei. cbv zeta. rewrite Ei.
      rewrite (bucket_index_comp s _ S0 S1 Hs).
      apply red_class_selected, bucket_index_range.
    + assert (Hgt : (0 < v)%Q).
      { apply Qnot_le_lt. intros H. apply Qle_bool_iff in H. congruence. }
      rewrite (proj1 (Qgt_alt v 0) Hgt).
      destruct (positive_scale v max_col_val Hgt) as (s & Es & Hs).
      destruct (green_scale_range v max_col_val) as [R0 R1].
      assert (S0 : (0 <= s)%Q) by now rewrite Hs.
      assert (S1 : (s <= 1)%Q) by now rewrite Hs.
      rewrite Es. cbn [bind].
      pose proof (heatmap_index s green_classes S0 S1 eq_refl) as Ei.
      change (len green_classes - 1) with 4 in *.
      destruct (py_pow_half (Fin s)) as [root|e]; [|discriminate].
      cbn [bind] in *.
      destruct (py_int (float_mul root (Fin (inject_Z 4))))
        as [i|e]; [|discriminate].
      cbn [bind] in *. injection Ei as Ei. cbv zeta. rewrite Ei.
      rewrite (bucket_index_comp s _ S0 S1 Hs).
      apply green_class_selected, bucket_index_range.
Qed.



End Conforming.

(** *** A correctly rounding library conforms *)

Lemma round_sqrt_bounds (M : Q) :
  Z.sqrt (Qfloor M) <= round_sqrt M <= Z.sqrt (Qfloor M) + 1.
Proof.
  unfold round_sqrt.
  destruct (M ?= _)%Q; [destruct (Z.even _)| |]; lia.
Qed.

Lemma round_sqrt_mono (M M' : Q) :
  (M <= M')%Q -> round_sqrt M <= round_sqrt M'.
Proof.
  intros H.
  pose proof (Z.sqrt_le_mono _ _ (Qfloor_resp_le M M' H)) as Hm.
  pose proof (round_sqrt_bounds M) as B.
  pose proof (round_sqrt_bounds M') as B'.
  destruct (Z.eq_dec (Z.sqrt (Qfloor M)) (Z.sqrt (Qfloor M'))) as [E|E];
    [|lia].
  unfold round_sqrt. rewrite <- E.
  set (c := ((inject_Z (Z.sqrt (Qfloor M)) + (1 # 2))
             * (inject_Z (Z.sqrt (Qfloor M)) + (1 # 2)))%Q).
  destruct (Qcompare_spec M c) as [Hx|Hx|Hx];
    destruct (Qcompare_spec M' c) as [Hy|Hy|Hy];
    try (destruct (Z.even (Z.sqrt (Qfloor M)))); try lia; exfalso; lra.
Qed.

(** The scaled argument of the root has 105 or 106 bits, the root 53. *)
Lemma sqrt_scaled_bounds (q : Q) :
  (0 < q)%Q ->
  (pow2 104 <= q / pow2 (2 * (ilog2 q / 2 - 52)))%Q /\
  (q / pow2 (2 * (ilog2 q / 2 - 52)) < pow2 106)%Q.
Proof.
  intros Hq. destruct (ilog2_spec q Hq) as [Hlo Hhi].
  set (l := ilog2 q) in *.
  pose proof (Z.div_mod l 2 ltac:(lia)) as Hd.
  pose proof (Z.mod_pos_bound l 2 ltac:(lia)) as Hm.
  set (e := 2 * (l / 2 - 52)). split.
  - apply Qle_shift_div_l; [apply pow2_pos|]. rewrite <- pow2_add.
    eapply Qle_trans; [|exact Hlo]. apply pow2_le. unfold e. lia.
  - apply Qlt_shift_div_r; [apply pow2_pos|]. rewrite <- pow2_add.
    eapply Qlt_le_trans; [exact Hhi|]. apply pow2_le. unfold e. lia.
Qed.

Lemma round_sqrt_scaled (q : Q) :
  (0 < q)%Q ->
  2 ^ 52 <= round_sqrt (q / pow2 (2 * (ilog2 q / 2 - 52))) <= 2 ^ 53.
Proof.
  intros Hq. destruct (sqrt_scaled_bounds q Hq) as [Hlo Hhi].
  set (M := (q / pow2 (2 * (ilog2 q / 2 - 52)))%Q) in *.
  pose proof (round_sqrt_bounds M) as B.
  assert (Hf1 : 2 ^ 104 <= Qfloor M).
  { rewrite <- (Qfloor_Z (2 ^ 104)). apply Qfloor_resp_le.
    now rewrite pow2_Z by lia. }
  assert (Hf2 : Qfloor M < 2 ^ 106).
  { rewrite Zlt_Qlt. eapply Qle_lt_trans; [apply Qfloor_le|].
    now rewrite pow2_Z by lia. }
  assert (H1 : 2 ^ 52 <= Z.sqrt (Qfloor M)).
  { change (2 ^ 52) with (Z.sqrt (2 ^ 104)). now apply Z.sqrt_le_mono. }
  assert (H2 : Z.sqrt (Qfloor M) < 2 ^ 53).
  { apply Z.sqrt_lt_square; [lia | lia |].
    change (2 ^ 53 * 2 ^ 53) with (2 ^ 106). exact Hf2. }
  lia.
Qed.

Lemma sqrt64_mono (q q' : Q) :
  (0 < q)%Q -> (q <= q')%Q -> (sqrt64 q <= sqrt64 q')%Q.
Proof.
  intros Hq H.
  assert (Hq' : (0 < q')%Q) by (eapply Qlt_le_trans; eassumption).
  unfold sqrt64. rewrite !Qred_correct.
  pose proof (ilog2_mono q q' Hq H) as Hl.
  pose proof (Z.div_le_mono _ _ 2 ltac:(lia) Hl) as Hd.
  set (e := ilog2 q / 2 - 52). set (e' := ilog2 q' / 2 - 52).
  destruct (Z.eq_dec e e') as [E|E].
  - rewrite <- E. apply Qmult_le_compat_r; [|apply Qlt_le_weak, pow2_pos].
    rewrite <- Zle_Qle. apply round_sqrt_mono.
    apply Qmult_le_compat_r; [exact H|].
    apply Qlt_le_weak, Qinv_lt_0_compat, pow2_pos.
  - pose proof (round_sqrt_scaled q Hq) as [_ Hu].
    pose proof (round_sqrt_scaled q' Hq') as [Hlo _].
    fold e in Hu. fold e' in Hlo.
    apply Qle_trans with (y := pow2 (e + 53)).
    + rewrite pow2_add, (Qmult_comm (pow2 _)).
      apply Qmult_le_compat_r; [|apply Qlt_le_weak, pow2_pos].
      rewrite <- (pow2_Z 53) by lia. now rewrite <- Zle_Qle.
    + apply Qle_trans with (y := pow2 (e' + 52)).
      * apply pow2_le. unfold e, e' in *. lia.
      * rewrite pow2_add, (Qmult_comm (pow2 _)).
        apply Qmult_le_compat_r; [|apply Qlt_le_weak, pow2_pos].
        rewrite <- (pow2_Z 52) by lia. now rewrite <- Zle_Qle.
Qed.

Lemma sqrt64_nonneg (q : Q) : (0 < q)%Q -> (0 <= sqrt64 q)%Q.
Proof.
  intros Hq. unfold sqrt64. rewrite Qred_correct.
  apply Qmult_le_0_compat; [|apply Qlt_le_weak, pow2_pos].
  change 0%Q with (inject_Z 0). rewrite <- Zle_Qle.
  pose proof (round_sqrt_scaled q Hq). lia.
Qed.

Lemma correctly_rounded_conforms : libm_conforms correctly_rounded.
Proof.
  assert (E1 : (sqrt64 1 == 1)%Q) by (vm_compute; reflexivity).
  split; cbn [pow_half correctly_rounded].
  - intros q H0 H1. split; [now apply sqrt64_nonneg|].
    rewrite <- E1. now apply sqrt64_mono.
  - intros q q' H0 H _. now apply sqrt64_mono.
  - exact E1.
Qed.

(** On the sample pairs the quotient, the product and the correctly rounded
    root of the model are those of the kernel's binary64 floats. *)
Lemma binary64_agrees :
  Forall (fun p : PrimFloat.float * PrimFloat.float =>
            float_div (Binary64.double (fst p)) (Binary64.double (snd p)) =
              Ok (Binary64.double (PrimFloat.div (fst p) (snd p))) /\
            float_mul (Binary64.double (fst p)) (Binary64.double (snd p)) =
              Binary64.double (PrimFloat.mul (fst p) (snd p)) /\
            @py_pow_half correctly_rounded (Binary64.double (fst p)) =
              Ok (Binary64.double (PrimFloat.sqrt (fst p))))
         Binary64.sample_pairs.
Proof.
  unfold Binary64.sample_pairs.
  repeat (apply Forall_cons; [repeat split; vm_compute; reflexivity|]).
  apply Forall_nil.
Qed.

(** ** Claim on the heatmap *)


(** * Further properties of the code *)

(** ** The calculators on reordered, stale and empty series *)

Lemma sort_index_row_order (df df' : series) :
  NoDup (map fst df) -> Permutation df df' -> sort_index df = sort_index df'.
Proof.
  intros Hnd Hp. apply sort_index_unique.
  - eapply Permutation_NoDup; [|exact Hnd]. now apply Permutation_map.
  - rewrite sort_index_perm. exact Hp.
  - apply sort_index_sorted.
Qed.

(** X1.  The three calculators sort their input first: on a series with
    unique dates the result does not depend on the order in which the rows
    were fetched. *)
Theorem calculators_ignore_row_order (TODAY : date) (df df' : series) :
  NoDup (map fst df) -> Permutation df df' ->
  calculate_yfinance_performance TODAY df =
    calculate_yfinance_performance TODAY df' /\
  calculate_fred_performance TODAY df =
    calculate_fred_performance TODAY df' /\
  get_currency_performance TODAY df = get_currency_performance TODAY df'.
Proof.
  intros Hnd Hp.
  rewrite !calculate_yfinance_performance_closed,
          !calculate_fred_performance_closed,
          !get_currency_performance_closed.
  now rewrite (sort_index_row_order df df' Hnd Hp).
Qed.

Lemma calculators_ignore_row_order_witness :
  calculate_yfinance_performance 10 [(1, 100%Q); (2, 102%Q); (10, 99%Q)] =
    calculate_yfinance_performance 10 [(10, 99%Q); (1, 100%Q); (2, 102%Q)] /\
  calculate_fred_performance 10 [(1, 100%Q); (2, 102%Q); (10, 99%Q)] =
    calculate_fred_performance 10 [(10, 99%Q); (1, 100%Q); (2, 102%Q)] /\
  get_currency_performance 10 [(1, 100%Q); (2, 102%Q); (10, 99%Q)] =
    get_currency_performance 10 [(10, 99%Q); (1, 100%Q); (2, 102%Q)].
Proof.
  apply (calculators_ignore_row_order 10
           [(1, 100%Q); (2, 102%Q); (10, 99%Q)]
           [(10, 99%Q); (1, 100%Q); (2, 102%Q)]).
  - simpl. repeat constructor; simpl; intuition lia.
  - change [(10, 99%Q); (1, 100%Q); (2, 102%Q)]
      with ([(10, 99%Q)] ++ [(1, 100%Q); (2, 102%Q)]).
    change [(1, 100%Q); (2, 102%Q); (10, 99%Q)]
      with ([(1, 100%Q); (2, 102%Q)] ++ [(10, 99%Q)]).
    apply Permutation_app_comm.
Defined.

Lemma lookback_field_diff_available (df : series) (cutoff : date)
    (field : cell) :
  lookback_field diff_cell df cutoff field ->
  (field = NA <-> forall o, In o df -> cutoff < fst o).
Proof.
  intros [Hnone Hsome]. split; [|exact Hnone].
  intros E o Ho.
  destruct (Z.lt_ge_cases cutoff (fst o)) as [H|H]; [exact H|].
  destruct Hsome as (cur & ref & _ & _ & E'); [now exists o|].
  rewrite E in E'. discriminate.
Qed.

(** X2.  The raw-difference calculator has no guard besides the lookup:
    its Week (Month) cell is "N/A" exactly when no observation is dated at
    or before [TODAY - 7] ([TODAY - 30]); so a series with a Month change
    has a Week change too. *)
Theorem fred_lookback_available_iff (TODAY : date) (df : series) :
  exists pf,
    calculate_fred_performance TODAY df = Ok pf /\
    (Week pf = NA <-> forall o, In o df -> TODAY - 7 < fst o) /\
    (Month pf = NA <-> forall o, In o df -> TODAY - 30 < fst o) /\
    (Week pf = NA -> Month pf = NA).
Proof.
  exists (performance_of diff_cell TODAY (sort_index df)).
  split; [apply calculate_fred_performance_closed|].
  destruct (performance_of_fields diff_cell TODAY df) as [H7 H30].
  apply lookback_field_diff_available in H7, H30.
  split; [exact H7|]. split; [exact H30|].
  intros E. apply H30. intros o Ho.
  pose proof (proj1 H7 E o Ho). lia.
Qed.

(** X3.  [get_currency_performance] returns the changes
    [calculate_yfinance_performance] computes, and next to them the value
    of an observation with the greatest date; the rate is [None] exactly
    for an empty frame. *)
Theorem currency_rate_is_latest (TODAY : date) (df : series) :
  exists perf rate,
    get_currency_performance TODAY df = Ok (perf, rate) /\
    calculate_yfinance_performance TODAY df = Ok perf /\
    (rate = None <-> df = []) /\
    (forall v, rate = Some v -> exists o, latest df o /\ snd o = v).
Proof.
  do 2 eexists. split; [apply get_currency_performance_closed|].
  split; [apply calculate_yfinance_performance_closed|].
  destruct df as [|o0 df].
  - split; [now split|]. intros v H. discriminate.
  - destruct (sort_index_nonempty (o0 :: df)) as (pre & o & E);
      [discriminate|].
    rewrite E, last_row_snoc. cbn [option_map]. split.
    + split; discriminate.
    + intros v H. injection H as <-. exists o. split; [|reflexivity].
      now apply (latest_of_sorted _ pre).
Qed.

(** X4.  The percentage calculators on a stale series: when every
    observation is dated at or before [TODAY - 7] the Week cell compares
    the latest value with itself, so it is a number equal to zero, or
    "N/A" when that value is zero; likewise for Month and [TODAY - 30]. *)
Theorem stale_series_percentage (TODAY : date) (df : series) (o : obs) :
  latest df o ->
  exists perf cur,
    calculate_yfinance_performance TODAY df = Ok perf /\
    latest df cur /\
    (fst o <= TODAY - 7 ->
     ((snd cur == 0)%Q -> Week perf = NA) /\
     (~ (snd cur == 0)%Q -> exists v, Week perf = Num v /\ (v == 0)%Q)) /\
    (fst o <= TODAY - 30 ->
     ((snd cur == 0)%Q -> Month perf = NA) /\
     (~ (snd cur == 0)%Q -> exists v, Month perf = Num v /\ (v == 0)%Q)).
Proof.
  intros [Hin Hmax].
  destruct (sort_index_nonempty df) as (pre & cur & E).
  { intros ->. contradiction. }
  pose proof (latest_of_sorted df pre cur E) as Hcur.
  exists (performance_of pct_cell TODAY (sort_index df)), cur.
  split; [apply calculate_yfinance_performance_closed|].
  split; [exact Hcur|].
  assert (Hle : fst cur <= fst o) by (apply Hmax, Hcur).
  assert (Hslice : forall c, fst o <= c ->
            last_row (slice_le c (sort_index df)) = Some cur).
  { intros c Hc. rewrite E. unfold slice_le. rewrite filter_app. simpl.
    destruct (Z.leb_spec (fst cur) c) as [_|Hlt]; [|lia].
    apply last_row_snoc. }
  assert (Hpct : (~ (snd cur == 0)%Q ->
            exists v, pct_cell (snd cur) (snd cur) = Num v /\ (v == 0)%Q)).
  { intros Hne. destruct (pct_cell_cases (snd cur) (snd cur))
      as [[_ Hz]|[-> _]].
    - apply Qeq_bool_iff in Hz. contradiction.
    - eexists. split; [reflexivity|]. field. exact Hne. }
  unfold performance_of. rewrite E, rev_unit. rewrite <- E. simpl.
  unfold lookback_cell.
  split; intros Hc; rewrite (Hslice _ Hc); (split; [apply pct_cell_zero|exact Hpct]).
Qed.

Lemma stale_series_percentage_witness :
  exists perf cur,
    calculate_yfinance_performance 50 [(1, 4%Q); (5, (17 # 4)%Q)] = Ok perf /\
    latest [(1, 4%Q); (5, (17 # 4)%Q)] cur /\
    (((snd cur == 0)%Q -> Week perf = NA) /\
     (~ (snd cur == 0)%Q -> exists v, Week perf = Num v /\ (v == 0)%Q)) /\
    (((snd cur == 0)%Q -> Month perf = NA) /\
     (~ (snd cur == 0)%Q -> exists v, Month perf = Num v /\ (v == 0)%Q)).
Proof.
  destruct (stale_series_percentage 50 [(1, 4%Q); (5, (17 # 4)%Q)]
              (5, (17 # 4)%Q))
    as (perf & cur & E & Hc & Hw & Hm).
  - split; [simpl; tauto|].
    intros o' Ho'. simpl in Ho'. intuition (subst; simpl; lia).
  - exists perf, cur. split; [exact E|]. split; [exact Hc|].
    split; [apply Hw | apply Hm]; simpl; lia.
Defined.

(** ** Intensity levels of the heatmap *)

Lemma green_scale_mono (v w : Q) (b : option Q) :
  (0 <= v)%Q -> (v <= w)%Q -> (green_scale v b <= green_scale w b)%Q.
Proof.
  intros H0 H. unfold green_scale. destruct b as [m|]; [|apply Qle_refl].
  destruct (Qlt_le_dec 0 m) as [Hm|_]; [|apply Qle_refl].
  apply clamp01_round64_mono; [now apply Qdiv_nonneg | now apply Qdiv_le_mono].
Qed.

Lemma red_scale_mono (v w : Q) (b : option Q) :
  (Qabs v <= Qabs w)%Q -> (red_scale v b <= red_scale w b)%Q.
Proof.
  intros H. unfold red_scale. destruct b as [m|]; [|apply Qle_refl].
  destruct (Qlt_le_dec m 0) as [Hm|_]; [|apply Qle_refl].
  pose proof (Qabs_neg_pos m Hm) as Ha.
  apply clamp01_round64_mono;
    [apply Qdiv_nonneg; [apply Qabs_nonneg | exact Ha]
    | now apply Qdiv_le_mono].
Qed.

Lemma green_scale_full (v : Q) (b : option Q) :
  (0 < v)%Q ->
  b = None \/ (exists m, b = Some m /\ ((m <= 0)%Q \/ (m <= v)%Q)) ->
  (green_scale v b == 1)%Q.
Proof.
  intros Hv [->|(m & -> & Hm)]; [reflexivity|]. unfold green_scale.
  destruct (Qlt_le_dec 0 m) as [Hpos|_]; [|reflexivity].
  destruct Hm as [Hm|Hm]; [exfalso; apply (Qlt_not_le _ _ Hpos Hm)|].
  apply clamp01_round64_full, Qle_shift_div_l; [exact Hpos|].
  now rewrite Qmult_1_l.
Qed.

Lemma red_scale_full (v : Q) (b : option Q) :
  (v < 0)%Q ->
  b = None \/ (exists m, b = Some m /\ ((0 <= m)%Q \/ (v <= m)%Q)) ->
  (red_scale v b == 1)%Q.
Proof.
  intros Hv [->|(m & -> & Hm)]; [reflexivity|]. unfold red_scale.
  destruct (Qlt_le_dec m 0) as [Hneg|_]; [|reflexivity].
  destruct Hm as [Hm|Hm]; [exfalso; apply (Qlt_not_le _ _ Hneg Hm)|].
  apply clamp01_round64_full, Qle_shift_div_l; [now apply Qabs_neg_pos|].
  rewrite Qmult_1_l, !Qabs_neg by now apply Qlt_le_weak.
  now apply Qopp_le_compat.
Qed.

Lemma green_result {L : Libm} (v : Q) (mn mx : option Q) :
  libm_conforms L -> (0 < v)%Q ->
  get_heatmap_class (cell_object (Num v))
    (option_map Fin mn) (option_map Fin mx) =
  Ok (bucket_class (Num v)
        (green (S (Z.to_nat (bucket_index (green_scale v mx)))))).
Proof.
  intros conforms Hv. rewrite (get_heatmap_class_bucket conforms).
  unfold bucket. now rewrite (proj1 (Qgt_alt v 0) Hv).
Qed.

Lemma red_result {L : Libm} (v : Q) (mn mx : option Q) :
  libm_conforms L -> (v < 0)%Q ->
  get_heatmap_class (cell_object (Num v))
    (option_map Fin mn) (option_map Fin mx) =
  Ok (bucket_class (Num v)
        (red (S (Z.to_nat (bucket_index (red_scale v mn)))))).
Proof.
  intros conforms Hv. rewrite (get_heatmap_class_bucket conforms).
  unfold bucket. now rewrite (proj1 (Qlt_alt v 0) Hv).
Qed.

(** X5.  Against one range a larger positive value never gets a weaker
    green than a smaller one, and a more negative value never a weaker red:
    the intensity level is monotone in the magnitude, rounding included,
    as long as the power [** 0.5] of the C library grows with its
    argument. *)
Theorem heatmap_intensity_monotone {L : Libm} (v w : Q)
    (min_col_val max_col_val : option Q) :
  libm_conforms L ->
  ((0 < v)%Q -> (v <= w)%Q ->
   exists l1 l2,
     get_heatmap_class (cell_object (Num v))
       (option_map Fin min_col_val) (option_map Fin max_col_val) =
       Ok (bucket_class (Num v) (green l1)) /\
     get_heatmap_class (cell_object (Num w))
       (option_map Fin min_col_val) (option_map Fin max_col_val) =
       Ok (bucket_class (Num w) (green l2)) /\
     (1 <= l1 <= l2)%nat /\ (l2 <= 5)%nat) /\
  ((v < 0)%Q -> (w <= v)%Q ->
   exists l1 l2,
     get_heatmap_class (cell_object (Num v))
       (option_map Fin min_col_val) (option_map Fin max_col_val) =
       Ok (bucket_class (Num v) (red l1)) /\
     get_heatmap_class (cell_object (Num w))
       (option_map Fin min_col_val) (option_map Fin max_col_val) =
       Ok (bucket_class (Num w) (red l2)) /\
     (1 <= l1 <= l2)%nat /\ (l2 <= 5)%nat).
Proof.
  intros conforms. split; intros Hv Hvw.
  - assert (Hw : (0 < w)%Q) by (eapply Qlt_le_trans; eassumption).
    do 2 eexists. split; [now apply green_result|].
    split; [now apply green_result|].
    pose proof (bucket_index_mono conforms _ _
                  (proj1 (green_scale_range v max_col_val))
                  (green_scale_mono v w max_col_val
                     (Qlt_le_weak _ _ Hv) Hvw)
                  (proj2 (green_scale_range w max_col_val))).
    pose proof (bucket_index_range (green_scale v max_col_val)).
    pose proof (bucket_index_range (green_scale w max_col_val)). lia.
  - assert (Hw : (w < 0)%Q) by (eapply Qle_lt_trans; eassumption).
    do 2 eexists. split; [now apply red_result|].
    split; [now apply red_result|].
    assert (Habs : (Qabs v <= Qabs w)%Q).
    { rewrite !Qabs_neg by now apply Qlt_le_weak.
      now apply Qopp_le_compat. }
    pose proof (bucket_index_mono conforms _ _
                  (proj1 (red_scale_range v min_col_val))
                  (red_scale_mono v w min_col_val Habs)
                  (proj2 (red_scale_range w min_col_val))).
    pose proof (bucket_index_range (red_scale v min_col_val)).
    pose proof (bucket_index_range (red_scale w min_col_val)). lia.
Qed.

Lemma heatmap_intensity_monotone_witness :
  (exists l1 l2,
     @get_heatmap_class correctly_rounded (cell_object (Num 3))
       (Some (Fin (-5))) (Some (Fin 10)) =
       Ok (bucket_class (Num 3) (green l1)) /\
     @get_heatmap_class correctly_rounded (cell_object (Num 7))
       (Some (Fin (-5))) (Some (Fin 10)) =
       Ok (bucket_class (Num 7) (green l2)) /\
     (1 <= l1 <= l2)%nat /\ (l2 <= 5)%nat) /\
  (exists l1 l2,
     @get_heatmap_class correctly_rounded (cell_object (Num (-2)))
       (Some (Fin (-5))) (Some (Fin 10)) =
       Ok (bucket_class (Num (-2)) (red l1)) /\
     @get_heatmap_class correctly_rounded (cell_object (Num (-4)))
       (Some (Fin (-5))) (Some (Fin 10)) =
       Ok (bucket_class (Num (-4)) (red l2)) /\
     (1 <= l1 <= l2)%nat /\ (l2 <= 5)%nat).
Proof.
  split.
  - apply (@heatmap_intensity_monotone correctly_rounded 3 7
             (Some (-5)%Q) (Some 10%Q) correctly_rounded_conforms);
      [reflexivity | discriminate].
  - apply (@heatmap_intensity_monotone correctly_rounded (-2) (-4)
             (Some (-5)%Q) (Some 10%Q) correctly_rounded_conforms);
      [reflexivity | discriminate].
Defined.

(** X6.  Full intensity.  A positive value gets the strongest green, with
    white text, when the column has no maximum, a maximum that is not
    positive, or a maximum the value reaches or exceeds; a negative value
    gets the strongest red under the mirrored conditions on the minimum. *)
Theorem heatmap_full_intensity {L : Libm} (v : Q)
    (min_col_val max_col_val : option Q) :
  libm_conforms L ->
  ((0 < v)%Q ->
   max_col_val = None \/
   (exists m, max_col_val = Some m /\ ((m <= 0)%Q \/ (m <= v)%Q)) ->
   get_heatmap_class (cell_object (Num v))
     (option_map Fin min_col_val) (option_map Fin max_col_val) =
     Ok "bg-green-500 text-white"%string) /\
  ((v < 0)%Q ->
   min_col_val = None \/
   (exists m, min_col_val = Some m /\ ((0 <= m)%Q \/ (v <= m)%Q)) ->
   get_heatmap_class (cell_object (Num v))
     (option_map Fin min_col_val) (option_map Fin max_col_val) =
     Ok "bg-red-500 text-white"%string).
Proof.
  intros conforms. split; intros Hv Hb.
  - rewrite (green_result v _ _ conforms Hv).
    now rewrite (bucket_index_one conforms _
                   (green_scale_full v max_col_val Hv Hb)).
  - rewrite (red_result v _ _ conforms Hv).
    now rewrite (bucket_index_one conforms _
                   (red_scale_full v min_col_val Hv Hb)).
Qed.

Lemma heatmap_full_intensity_witness :
  @get_heatmap_class correctly_rounded (cell_object (Num 12))
    (Some (Fin (-5))) (Some (Fin 10)) =
    Ok "bg-green-500 text-white"%string /\
  @get_heatmap_class correctly_rounded (cell_object (Num (1 # 100)))
    None None =
    Ok "bg-green-500 text-white"%string /\
  @get_heatmap_class correctly_rounded (cell_object (Num (-5)))
    (Some (Fin (-5))) (Some (Fin 10)) =
    Ok "bg-red-500 text-white"%string /\
  @get_heatmap_class correctly_rounded (cell_object (Num (-1 # 100)))
    (Some (Fin 2)) (Some (Fin 10)) =
    Ok "bg-red-500 text-white"%string.
Proof.
  split; [|split; [|split]].
  - apply (@heatmap_full_intensity correctly_rounded 12
             (Some (-5)%Q) (Some 10%Q) correctly_rounded_conforms);
      [reflexivity|].
    right. exists 10%Q. split; [reflexivity|]. right. discriminate.
  - apply (@heatmap_full_intensity correctly_rounded (1 # 100) None None
             correctly_rounded_conforms); [reflexivity|].
    now left.
  - apply (@heatmap_full_intensity correctly_rounded (-5)
             (Some (-5)%Q) (Some 10%Q) correctly_rounded_conforms);
      [reflexivity|].
    right. exists (-5)%Q. split; [reflexivity|]. right. discriminate.
  - apply (@heatmap_full_intensity correctly_rounded (-1 # 100)
             (Some 2%Q) (Some 10%Q) correctly_rounded_conforms);
      [reflexivity|].
    right. exists 2%Q. split; [reflexivity|]. left. discriminate.
Defined.

(** ** NaN and the infinities in the heatmap *)










(** ** The leaders of the two rankings *)

Lemma In_skipn_le {A : Type} (l : list A) (a b : nat) (x : A) :
  (b <= a)%nat -> In x (skipn a l) -> In x (skipn b l).
Proof.
  intros Hba Hx. replace a with (a - b + b)%nat in Hx by lia.
  rewrite <- skipn_skipn in Hx.
  revert Hx. generalize (skipn b l). intros l'. revert l'.
  induction (a - b)%nat as [|n IH]; intros l' Hx; [exact Hx|].
  destruct l' as [|y l']; [exact Hx|]. right. now apply IH.
Qed.

Lemma StronglySorted_head {A : Type} (R : A -> A -> Prop) (l : list A) (x y : A) :
  (forall z, R z z) -> StronglySorted R l ->
  nth_error l 0 = Some x -> In y l -> R x y.
Proof.
  intros Hrefl Hs Hx Hy. destruct l as [|a l]; [discriminate|].
  injection Hx as ->. apply StronglySorted_inv in Hs. destruct Hs as [_ Hall].
  destruct Hy as [<-|Hy]; [apply Hrefl|].
  rewrite Forall_forall in Hall. now apply Hall.
Qed.

(** X8.  The first row of the top result carries a maximum of the numeric
    column and the first row of the bottom result a minimum, whatever
    algorithm sorts. *)
Theorem ranking_leaders_are_extremes {P : Pandas} {R : Type}
    (column : R -> cell) (df : list R) (k : nat) :
  sort_values_sorts P ->
  (forall x y,
      nth_error (fst (get_top_bottom_performers column df k)) 0 = Some x ->
      In y (coerce_dropna column df) -> (snd y <= snd x)%Q) /\
  (forall x y,
      nth_error (snd (get_top_bottom_performers column df k)) 0 = Some x ->
      In y (coerce_dropna column df) -> (snd x <= snd y)%Q).
Proof.
  intros sorts. split; intros x y Hx Hy.
  - destruct (top_spec column sorts df k) as ((rest & Hp & Hrest) & Hs & _).
    cbv zeta in Hp, Hrest, Hs.
    apply (Permutation_in _ (Permutation_sym Hp)) in Hy.
    apply in_app_or in Hy. destruct Hy as [Hy|Hy].
    + apply (StronglySorted_head _ _ x y (fun z => Qle_refl (snd z)) Hs Hx Hy).
    + apply Hrest; [|exact Hy]. eapply nth_error_In, Hx.
  - destruct (bottom_spec column sorts df k) as ((rest & Hp & Hrest) & Hs & _).
    cbv zeta in Hp, Hrest, Hs.
    apply (Permutation_in _ (Permutation_sym Hp)) in Hy.
    apply in_app_or in Hy. destruct Hy as [Hy|Hy].
    + apply Hrest; [|exact Hy]. eapply nth_error_In, Hx.
    + apply (StronglySorted_head _ _ x y (fun z => Qle_refl (snd z)) Hs Hx Hy).
Qed.

Lemma ranking_leaders_are_extremes_witness :
  In ("e"%string, Num 2, 2%Q)
     (@coerce_dropna (stable_pandas (fun _ => None)) _ snd sample_table) /\
  (snd ("e"%string, Num 2, 2%Q) <= snd ("c"%string, Num 3, 3%Q))%Q /\
  (snd ("a"%string, Num 1, 1%Q) <= snd ("e"%string, Num 2, 2%Q))%Q.
Proof.
  destruct (@ranking_leaders_are_extremes (stable_pandas (fun _ => None)) _
              snd sample_table 2 (stable_pandas_sorts _)) as [Ht Hb].
  assert (Hin : In ("e"%string, Num 2, 2%Q)
                  (@coerce_dropna (stable_pandas (fun _ => None)) _
                     snd sample_table)) by (simpl; tauto).
  split; [exact Hin|]. split.
  - apply (Ht ("c"%string, Num 3, 3%Q) _ eq_refl Hin).
  - apply (Hb ("a"%string, Num 1, 1%Q) _ eq_refl Hin).
Defined.

(** X9.  When at least [2 * k] rows are eligible, no value of the bottom
    result exceeds a value of the top result. *)
Theorem bottom_below_top {P : Pandas} {R : Type}
    (column : R -> cell) (df : list R) (k : nat) :
  sort_values_sorts P ->
  (2 * k <= List.length (coerce_dropna column df))%nat ->
  forall x y,
    In x (snd (get_top_bottom_performers column df k)) ->
    In y (fst (get_top_bottom_performers column df k)) ->
    (snd x <= snd y)%Q.
Proof.
  intros sorts Hlen x y. unfold get_top_bottom_performers, head, tail.
  cbn [fst snd]. set (E := coerce_dropna column df) in *.
  destruct (sorts _ snd false E) as [Hp Hs].
  set (D := sort_values snd false E) in *.
  pose proof (Permutation_length Hp) as HlenD.
  destruct (sorts _ snd true (skipn (List.length D - k) D)) as [Hp' _].
  intros Hx Hy. apply (Permutation_in _ Hp') in Hx.
  apply (In_skipn_le D (List.length D - k) k) in Hx; [|lia].
  rewrite <- (firstn_skipn k D) in Hs.
  apply (StronglySorted_app_inv _ _ _ Hs y x Hy Hx).
Qed.

Lemma bottom_below_top_witness :
  (2 * 2 <= List.length (@coerce_dropna (stable_pandas (fun _ => None)) _
                           snd sample_table))%nat /\
  (snd ("d"%string, Num 1, 1%Q) <= snd ("e"%string, Num 2, 2%Q))%Q.
Proof.
  split; [simpl; lia|].
  apply (@bottom_below_top (stable_pandas (fun _ => None)) _
           snd sample_table 2 (stable_pandas_sorts _)).
  - simpl. lia.
  - simpl. tauto.
  - simpl. tauto.
Defined.

(** ** The heat-mapped columns of a table *)

Lemma dict_find_set {V : Type} (d : dict V) (k c : string) (v : V) :
  dict_find (dict_set d k v) c =
  if String.eqb k c then Some v else dict_find d c.
Proof.
  induction d as [|[k' v'] d IH]; simpl.
  - reflexivity.
  - destruct (String.eqb_spec k' k) as [->|Hne]; simpl.
    + now destruct (String.eqb k c).
    + rewrite IH. destruct (String.eqb_spec k' c) as [->|Hne'];
        [|reflexivity].
      destruct (String.eqb_spec k c) as [->|_]; [congruence|reflexivity].
Qed.

Lemma str_mem_In (name : string) (l : list string) :
  str_mem name l = true <-> In name l.
Proof.
  unfold str_mem. rewrite existsb_exists. split.
  - intros (x & Hx & E). apply String.eqb_eq in E. now subst.
  - intros H. exists name. split; [exact H | apply String.eqb_refl].
Qed.

Lemma Qmin_cases (x y : Q) : Qmin x y = x \/ Qmin x y = y.
Proof.
  unfold Qmin, GenericMinMax.gmin. destruct (x ?= y)%Q; auto.
Qed.

Lemma Qmax_cases (x y : Q) : Qmax x y = x \/ Qmax x y = y.
Proof.
  unfold Qmax, GenericMinMax.gmax. destruct (x ?= y)%Q; auto.
Qed.

Lemma series_min_spec (l : list Q) (x : Q) :
  In (series_min x l) (x :: l) /\
  forall v, In v (x :: l) -> (series_min x l <= v)%Q.
Proof.
  unfold series_min. revert x. induction l as [|y l IH]; intros x; simpl.
  - split; [now left|]. intros v [<-|[]]. apply Qle_refl.
  - destruct (IH (Qmin x y)) as [Hin Hle]. split.
    + destruct Hin as [E|Hin]; [|now right; right].
      rewrite <- E. destruct (Qmin_cases x y) as [->| ->]; auto.
    + intros v [<-|[<-|Hv]].
      * eapply Qle_trans; [apply Hle; now left | apply Q.le_min_l].
      * eapply Qle_trans; [apply Hle; now left | apply Q.le_min_r].
      * apply Hle. now right.
Qed.

Lemma series_max_spec (l : list Q) (x : Q) :
  In (series_max x l) (x :: l) /\
  forall v, In v (x :: l) -> (v <= series_max x l)%Q.
Proof.
  unfold series_max. revert x. induction l as [|y l IH]; intros x; simpl.
  - split; [now left|]. intros v [<-|[]]. apply Qle_refl.
  - destruct (IH (Qmax x y)) as [Hin Hle]. split.
    + destruct Hin as [E|Hin]; [|now right; right].
      rewrite <- E. destruct (Qmax_cases x y) as [->| ->]; auto.
    + intros v [<-|[<-|Hv]].
      * eapply Qle_trans; [apply Q.le_max_l | apply Hle; now left].
      * eapply Qle_trans; [apply Q.le_max_r | apply Hle; now left].
      * apply Hle. now right.
Qed.

Lemma numeric_values_In {P : Pandas} (cells : list cell) (q : Q) :
  In q (numeric_values cells) <->
  exists c, In c cells /\ to_numeric c = Some q.
Proof.
  induction cells as [|c cells IH]; simpl.
  - split; [contradiction | intros (c & [] & _)].
  - destruct (to_numeric c) as [q'|] eqn:E; simpl; rewrite IH; split.
    + intros [<-|(c' & Hc' & E')]; [exists c; auto | exists c'; auto].
    + intros (c' & [<-|Hc'] & E'); [left; congruence | right; eauto].
    + intros (c' & Hc' & E'). exists c'. auto.
    + intros (c' & [<-|Hc'] & E'); [congruence | eauto].
Qed.

Lemma column_range_spec {P : Pandas} (df : table) (col : string) (mn mx : Q) :
  column_range df col = Some (mn, mx) ->
  change_like col = true /\
  In mn (numeric_values (column_cells df col)) /\
  In mx (numeric_values (column_cells df col)) /\
  forall v, In v (numeric_values (column_cells df col)) ->
            (mn <= v <= mx)%Q.
Proof.
  unfold column_range. destruct (change_like col); [|discriminate].
  destruct (numeric_values (column_cells df col)) as [|x l]; [discriminate|].
  intros E. injection E as <- <-.
  destruct (series_min_spec l x) as [Hmin Hle].
  destruct (series_max_spec l x) as [Hmax Hge].
  repeat split; auto.
Qed.

Lemma ranges_fold_find {P : Pandas} (df : table) (cols : list string)
    (acc : dict (Q * Q)) (c : string) :
  dict_find
    (fold_left
       (fun ranges col =>
          if change_like col then
            match numeric_values (column_cells df col) with
            | [] => ranges
            | x :: l => dict_set ranges col (series_min x l, series_max x l)
            end
          else ranges) cols acc) c =
  match (if str_mem c cols then column_range df c else None) with
  | Some r => Some r
  | None => dict_find acc c
  end.
Proof.
  revert acc. induction cols as [|col cols IH]; intros acc; [reflexivity|].
  cbn [fold_left]. rewrite IH. unfold str_mem. cbn [existsb].
  fold (str_mem c cols).
  assert (Hstep :
    dict_find
      (if change_like col then
         match numeric_values (column_cells df col) with
         | [] => acc
         | x :: l => dict_set acc col (series_min x l, series_max x l)
         end
       else acc) c =
    if String.eqb c col then
      match column_range df c with Some r => Some r | None => dict_find acc c end
    else dict_find acc c).
  { destruct (String.eqb_spec c col) as [->|Hne].
    - unfold column_range. destruct (change_like col); [|reflexivity].
      destruct (numeric_values (column_cells df col)); [reflexivity|].
      now rewrite dict_find_set, String.eqb_refl.
    - destruct (change_like col); [|reflexivity].
      destruct (numeric_values (column_cells df col)); [reflexivity|].
      rewrite dict_find_set.
      destruct (String.eqb_spec col c) as [->|_]; [congruence|reflexivity]. }
  rewrite Hstep.
  destruct (String.eqb c col), (str_mem c cols); simpl;
    destruct (column_range df c); reflexivity.
Qed.

Lemma column_heatmap_ranges_find {P : Pandas} (df : table) (c : string) :
  dict_find (column_heatmap_ranges df true) c =
  if str_mem c (tbl_columns df) then column_range df c else None.
Proof.
  unfold column_heatmap_ranges. rewrite ranges_fold_find.
  now destruct (if str_mem c (tbl_columns df) then column_range df c else None).
Qed.

(** X10.  [column_heatmap_ranges] holds a range exactly for the columns of
    the table whose name contains "Change", "Yield" or "Return" and that
    have a numeric value, and only when the heatmap is applied; the range
    is the least and the greatest numeric value of the column. *)
Theorem heatmap_ranges_bound_their_column {P : Pandas} (df : table)
    (apply_heatmap : bool) (col : string) :
  (dict_mem (column_heatmap_ranges df apply_heatmap) col = true <->
   apply_heatmap = true /\ In col (tbl_columns df) /\
   change_like col = true /\
   numeric_values (column_cells df col) <> []) /\
  (forall mn mx,
      dict_find (column_heatmap_ranges df apply_heatmap) col = Some (mn, mx) ->
      In mn (numeric_values (column_cells df col)) /\
      In mx (numeric_values (column_cells df col)) /\
      forall v, In v (numeric_values (column_cells df col)) ->
                (mn <= v <= mx)%Q).
Proof.
  destruct apply_heatmap.
  - unfold dict_mem. rewrite column_heatmap_ranges_find. split.
    + destruct (str_mem col (tbl_columns df)) eqn:Em.
      * apply str_mem_In in Em. unfold column_range.
        destruct (change_like col) eqn:Ec.
        -- destruct (numeric_values (column_cells df col)) eqn:En.
           ++ split; [discriminate|]. intros (_ & _ & _ & H).
              now contradiction H.
           ++ split; [|reflexivity]. intros _.
              repeat split; trivial. discriminate.
        -- split; [discriminate|]. intros (_ & _ & H & _). discriminate.
      * split; [discriminate|]. intros (_ & Hin & _).
        apply str_mem_In in Hin. congruence.
    + intros mn mx E.
      destruct (str_mem col (tbl_columns df)); [|discriminate].
      destruct (column_range_spec df col mn mx E) as (_ & H1 & H2 & H3).
      auto.
  - split.
    + split; [discriminate | intros [H _]; discriminate].
    + intros mn mx E. discriminate.
Qed.

Lemma heatmap_ranges_bound_their_column_witness :
  dict_find (@column_heatmap_ranges (stable_pandas (fun _ => None))
               sample_html_table true) "Past Day Change (%)"
    = Some ((-5)%Q, 10%Q) /\
  dict_mem (@column_heatmap_ranges (stable_pandas (fun _ => None))
              sample_html_table true) "Current Level" = false /\
  In (-5)%Q (@numeric_values (stable_pandas (fun _ => None))
               (column_cells sample_html_table "Past Day Change (%)")) /\
  In 10%Q (@numeric_values (stable_pandas (fun _ => None))
             (column_cells sample_html_table "Past Day Change (%)")).
Proof.
  destruct (@heatmap_ranges_bound_their_column (stable_pandas (fun _ => None))
              sample_html_table true "Past Day Change (%)") as [_ Hb].
  destruct (Hb (-5)%Q 10%Q eq_refl) as (Hmn & Hmx & _).
  split; [reflexivity|]. split; [reflexivity|]. now split.
Defined.

Lemma cell_heatmap_class_ranged {L : Libm} (ranges : dict (Q * Q))
    (col : string) (mn mx : Q) (c : cell) :
  dict_find ranges col = Some (mn, mx) ->
  cell_heatmap_class ranges true col c =
  (cls <- get_heatmap_class (cell_object c) (Some (Fin mn)) (Some (Fin mx)) ;;
   Ok (Some cls)).
Proof.
  intros E. unfold cell_heatmap_class, dict_mem, dict_get. now rewrite E.
Qed.

(** X11.  In a table rendered with heatmap, the number in a cell of a
    ranged column lies within the range of its column; the cell holding
    the column maximum gets the strongest green when that maximum is
    positive, and the cell holding the minimum the strongest red when it
    is negative.  A cell of a column without range gets no class. *)
Theorem column_extremes_get_full_intensity {P : Pandas} {L : Libm}
    (df : table) (col : string) (r : string -> cell) (v : Q) :
  libm_conforms L ->
  In r (tbl_rows df) -> r col = Num v ->
  (forall mn mx,
      dict_find (column_heatmap_ranges df true) col = Some (mn, mx) ->
      (mn <= v <= mx)%Q /\
      ((0 < v)%Q -> (mx <= v)%Q ->
       cell_heatmap_class (column_heatmap_ranges df true) true col (r col)
       = Ok (Some "bg-green-500 text-white"%string)) /\
      ((v < 0)%Q -> (v <= mn)%Q ->
       cell_heatmap_class (column_heatmap_ranges df true) true col (r col)
       = Ok (Some "bg-red-500 text-white"%string))) /\
  (dict_find (column_heatmap_ranges df true) col = None ->
   cell_heatmap_class (column_heatmap_ranges df true) true col (r col)
   = Ok None).
Proof.
  intros conforms Hr Hv. split.
  - intros mn mx E. rewrite (cell_heatmap_class_ranged _ _ _ _ _ E), Hv.
    split; [|split].
    + rewrite column_heatmap_ranges_find in E.
      destruct (str_mem col (tbl_columns df)); [|discriminate].
      destruct (column_range_spec df col mn mx E) as (_ & _ & _ & Hb).
      apply Hb, numeric_values_In. exists (Num v). split; [|reflexivity].
      unfold column_cells. rewrite <- Hv.
      apply (in_map (fun r0 : string -> cell => r0 col)), Hr.
    + intros Hpos Hmax.
      change (Some (Fin mn)) with (option_map Fin (Some mn)).
      change (Some (Fin mx)) with (option_map Fin (Some mx)).
      rewrite (green_result v (Some mn) (Some mx) conforms Hpos).
      rewrite (bucket_index_one conforms _
                 (green_scale_full v (Some mx) Hpos
                    (or_intror (ex_intro _ mx
                                  (conj eq_refl (or_intror Hmax)))))).
      reflexivity.
    + intros Hneg Hmin.
      change (Some (Fin mn)) with (option_map Fin (Some mn)).
      change (Some (Fin mx)) with (option_map Fin (Some mx)).
      rewrite (red_result v (Some mn) (Some mx) conforms Hneg).
      rewrite (bucket_index_one conforms _
                 (red_scale_full v (Some mn) Hneg
                    (or_intror (ex_intro _ mn
                                  (conj eq_refl (or_intror Hmin)))))).
      reflexivity.
  - intros E. unfold cell_heatmap_class, dict_mem. now rewrite E.
Qed.

Lemma column_extremes_get_full_intensity_witness :
  @cell_heatmap_class correctly_rounded
    (@column_heatmap_ranges (stable_pandas (fun _ => None))
       sample_html_table true) true "Past Day Change (%)" (Num 10)
  = Ok (Some "bg-green-500 text-white"%string) /\
  @cell_heatmap_class correctly_rounded
    (@column_heatmap_ranges (stable_pandas (fun _ => None))
       sample_html_table true) true "Past Day Change (%)" (Num (-5))
  = Ok (Some "bg-red-500 text-white"%string) /\
  @cell_heatmap_class correctly_rounded
    (@column_heatmap_ranges (stable_pandas (fun _ => None))
       sample_html_table true) true "Current Level" (Num 50)
  = Ok None.
Proof.
  split; [|split].
  - destruct (@column_extremes_get_full_intensity
                (stable_pandas (fun _ => None)) correctly_rounded
                sample_html_table "Past Day Change (%)"
                (fun col => if String.eqb col "Asset" then Str "c"
                            else if String.eqb col "Current Level" then Num 50
                            else Num 10) 10%Q correctly_rounded_conforms)
      as [H _]; [simpl; tauto | reflexivity |].
    destruct (H (-5)%Q 10%Q eq_refl) as (_ & Hg & _).
    apply Hg; [reflexivity | discriminate].
  - destruct (@column_extremes_get_full_intensity
                (stable_pandas (fun _ => None)) correctly_rounded
                sample_html_table "Past Day Change (%)"
                (fun col => if String.eqb col "Asset" then Str "a"
                            else if String.eqb col "Current Level" then Num 100
                            else Num (-5)) (-5)%Q correctly_rounded_conforms)
      as [H _]; [simpl; tauto | reflexivity |].
    destruct (H (-5)%Q 10%Q eq_refl) as (_ & _ & Hr).
    apply Hr; [reflexivity | discriminate].
  - destruct (@column_extremes_get_full_intensity
                (stable_pandas (fun _ => None)) correctly_rounded
                sample_html_table "Current Level"
                (fun col => if String.eqb col "Asset" then Str "c"
                            else if String.eqb col "Current Level" then Num 50
                            else Num 10) 50%Q correctly_rounded_conforms)
      as [_ H]; [simpl; tauto | reflexivity |].
    apply H. reflexivity.
Defined.

(** ** The chart window *)

Lemma short_frame {A : Type} (l : list A) :
  empty l || (List.length l <? 2)%nat = (List.length l <? 2)%nat.
Proof. now destruct l. Qed.

Lemma iloc_tail_positive {A : Type} (n : Z) (l : list A) :
  0 < n ->
  iloc_tail n l = skipn (List.length l - Z.to_nat n) l /\
  List.length (iloc_tail n l) = Nat.min (Z.to_nat n) (List.length l).
Proof.
  intros Hn. unfold iloc_tail.
  destruct (Z.ltb_spec 0 n) as [_|H]; [|lia].
  split; [reflexivity|]. rewrite length_skipn. lia.
Qed.

(** X12.  [generate_plotly_chart] with a positive [days_history] plots the
    last [min(days_history, n)] rows of the series sorted by date, dates
    against values, provided there are at least two of them; with fewer,
    with no frame, an empty frame or another column than ['Close'] it
    returns a message instead of a figure. *)
Theorem chart_plots_latest_window (data_df : series) (title y_col : string)
    (days_history : Z) :
  0 < days_history ->
  (exists s, generate_plotly_chart None title y_col days_history = Html s) /\
  (data_df = [] \/ y_col <> "Close"%string ->
   exists s,
     generate_plotly_chart (Some data_df) title y_col days_history = Html s) /\
  (data_df <> [] -> y_col = "Close"%string ->
   exists older window,
     Permutation (older ++ window) data_df /\
     StronglySorted date_order (older ++ window) /\
     List.length window =
       Nat.min (Z.to_nat days_history) (List.length data_df) /\
     ((List.length window < 2)%nat ->
      exists s,
        generate_plotly_chart (Some data_df) title y_col days_history
        = Html s) /\
     ((2 <= List.length window)%nat ->
      generate_plotly_chart (Some data_df) title y_col days_history
      = Plot title (map fst window) (map snd window))).
Proof.
  intros Hd. split; [eexists; reflexivity|]. split.
  - intros [->|Hy]; [eexists; reflexivity|].
    unfold generate_plotly_chart.
    destruct (String.eqb_spec y_col "Close") as [E|_]; [contradiction|].
    rewrite orb_true_r. eexists. reflexivity.
  - intros Hne ->. unfold generate_plotly_chart.
    destruct data_df as [|o0 df]; [contradiction|]. cbn [empty orb negb].
    rewrite String.eqb_refl. cbn [negb]. rewrite short_frame.
    destruct (iloc_tail_positive days_history (sort_index (o0 :: df)) Hd)
      as [Ew Hlen].
    rewrite sort_index_length in Hlen.
    exists (firstn (List.length (sort_index (o0 :: df))
                    - Z.to_nat days_history) (sort_index (o0 :: df))),
           (iloc_tail days_history (sort_index (o0 :: df))).
    rewrite Ew at 1 2. rewrite firstn_skipn.
    split; [apply sort_index_perm|]. split; [apply sort_index_sorted|].
    split; [exact Hlen|]. split; intros Hw.
    + apply Nat.ltb_lt in Hw. rewrite Hw. eexists. reflexivity.
    + apply Nat.ltb_ge in Hw. now rewrite Hw.
Qed.

Lemma chart_plots_latest_window_witness :
  exists older window,
    Permutation (older ++ window) [(3, 99%Q); (1, 100%Q); (2, 102%Q)] /\
    StronglySorted date_order (older ++ window) /\
    List.length window = 2%nat /\
    generate_plotly_chart (Some [(3, 99%Q); (1, 100%Q); (2, 102%Q)])
      "SPY" "Close" 2
    = Plot "SPY" (map fst window) (map snd window).
Proof.
  destruct (chart_plots_latest_window [(3, 99%Q); (1, 100%Q); (2, 102%Q)]
              "SPY" "Close" 2) as (_ & _ & H); [lia|].
  destruct H as (older & window & Hp & Hs & Hlen & _ & Hplot);
    [discriminate | reflexivity |].
  exists older, window. split; [exact Hp|]. split; [exact Hs|].
  split; [exact Hlen|]. apply Hplot. rewrite Hlen. simpl. lia.
Defined.

(** X13.  [days_history = 0] does not plot an empty window: the slice
    [iloc[-0:]] is the whole frame, so the chart shows the full history;
    and a negative [days_history] drops that many of the oldest rows. *)
Theorem chart_window_nonpositive_days (data_df : series) (title : string)
    (days_history : Z) :
  days_history <= 0 ->
  (2 <= List.length data_df - Z.to_nat (- days_history))%nat ->
  generate_plotly_chart (Some data_df) title "Close" days_history =
  Plot title
    (map fst (skipn (Z.to_nat (- days_history)) (sort_index data_df)))
    (map snd (skipn (Z.to_nat (- days_history)) (sort_index data_df))).
Proof.
  intros Hd Hlen. unfold generate_plotly_chart.
  destruct data_df as [|o0 df]; [simpl in Hlen; lia|]. cbn [empty orb negb].
  rewrite String.eqb_refl. cbn [negb]. rewrite short_frame.
  unfold iloc_tail. destruct (Z.ltb_spec 0 days_history) as [H|_]; [lia|].
  rewrite <- sort_index_length in Hlen.
  replace (List.length (skipn (Z.to_nat (- days_history))
                          (sort_index (o0 :: df))) <? 2)%nat with false.
  - reflexivity.
  - symmetry. apply Nat.ltb_ge. rewrite length_skipn. exact Hlen.
Qed.

Lemma chart_window_nonpositive_days_witness :
  generate_plotly_chart (Some [(3, 99%Q); (1, 100%Q); (2, 102%Q)])
    "SPY" "Close" 0 =
  Plot "SPY" [1; 2; 3] [100%Q; 102%Q; 99%Q].
Proof.
  apply (chart_window_nonpositive_days [(3, 99%Q); (1, 100%Q); (2, 102%Q)]
           "SPY" 0); simpl; lia.
Defined.

(** ** The order of the assets *)

(** X14.  The display order built from a ticker dictionary and the leading
    names starts with the leading names and lists every key of the
    dictionary exactly once, provided the keys are distinct and the leading
    names are distinct keys. *)
Theorem full_order_lists_each_asset_once {V : Type} (TICKERS : dict V)
    (order : list string) :
  NoDup (keys TICKERS) -> NoDup order ->
  (forall name, In name order -> In name (keys TICKERS)) ->
  firstn (List.length order) (full_order TICKERS order) = order /\
  NoDup (full_order TICKERS order) /\
  Permutation (full_order TICKERS order) (keys TICKERS) /\
  List.length (full_order TICKERS order) = List.length TICKERS.
Proof.
  intros Hk Ho Hsub. unfold full_order.
  set (rest := filter (fun name => negb (str_mem name order)) (keys TICKERS)).
  assert (Hrest : forall name, In name rest <->
            In name (keys TICKERS) /\ ~ In name order).
  { intros name. unfold rest. rewrite filter_In, negb_true_iff.
    split; intros [H1 H2]; (split; [exact H1|]).
    - intros Hin. apply str_mem_In in Hin. congruence.
    - destruct (str_mem name order) eqn:E; [|reflexivity].
      apply str_mem_In in E. contradiction. }
  assert (Hs : Permutation (sorted rest) rest) by apply isort_perm.
  assert (Hnd : NoDup (order ++ sorted rest)).
  { apply NoDup_app; trivial.
    - eapply Permutation_NoDup; [apply Permutation_sym, Hs|].
      now apply NoDup_filter.
    - intros name Hin Hin'. apply (Permutation_in _ Hs), Hrest in Hin'.
      tauto. }
  assert (Hperm : Permutation (order ++ sorted rest) (keys TICKERS)).
  { apply NoDup_Permutation; trivial. intros name.
    rewrite in_app_iff. split.
    - intros [H|H]; [now apply Hsub|].
      apply (Permutation_in _ Hs), Hrest in H. tauto.
    - intros H. destruct (in_dec string_dec name order) as [Hin|Hnin];
        [now left|].
      right. apply (Permutation_in _ (Permutation_sym Hs)), Hrest. tauto. }
  split; [|split; [exact Hnd|split; [exact Hperm|]]].
  - rewrite firstn_app, Nat.sub_diag, firstn_all. simpl. apply app_nil_r.
  - rewrite (Permutation_length Hperm). unfold keys. apply length_map.
Qed.

Lemma full_order_lists_each_asset_once_witness :
  firstn (List.length us_equity_order)
    (full_order US_EQUITY_TICKERS us_equity_order) = us_equity_order /\
  NoDup (full_order US_EQUITY_TICKERS us_equity_order) /\
  Permutation (full_order US_EQUITY_TICKERS us_equity_order)
    (keys US_EQUITY_TICKERS) /\
  List.length (full_order US_EQUITY_TICKERS us_equity_order) =
    List.length US_EQUITY_TICKERS.
Proof.
  apply (full_order_lists_each_asset_once US_EQUITY_TICKERS us_equity_order).
  - apply (NoDup_count_occ' string_dec). intros name Hin.
    simpl in Hin.
    repeat (destruct Hin as [<-|Hin]; [reflexivity|]). contradiction.
  - apply (NoDup_count_occ' string_dec). intros name Hin.
    simpl in Hin.
    repeat (destruct Hin as [<-|Hin]; [reflexivity|]). contradiction.
  - intros name [<-|[<-|[<-|[]]]]; simpl; tauto.
Defined.

(** ** What the fetchers hand on *)

Lemma dropna_In (l : list (date * option Q)) (d : date) (v : Q) :
  In (d, v) (dropna l) <-> In (d, Some v) l.
Proof.
  induction l as [|[d' [v'|]] l IH]; simpl.
  - tauto.
  - rewrite IH. split; (intros [H|H]; [left; congruence | now right]).
  - rewrite IH. split; [now right | intros [H|H]; [discriminate|exact H]].
Qed.

Lemma dropna_dates (l : list (date * option Q)) :
  subseq (map fst (dropna l)) (map fst l).
Proof.
  induction l as [|[d [v|]] l IH]; simpl; now constructor.
Qed.

Lemma subseq_In {A : Type} (l1 l2 : list A) (x : A) :
  subseq l1 l2 -> In x l1 -> In x l2.
Proof.
  induction 1 as [|y l1 l2 H IH|y l1 l2 H IH]; simpl; intuition.
Qed.

Lemma subseq_NoDup {A : Type} (l1 l2 : list A) :
  subseq l1 l2 -> NoDup l2 -> NoDup l1.
Proof.
  induction 1 as [|y l1 l2 H IH|y l1 l2 H IH]; intros Hnd.
  - constructor.
  - apply NoDup_cons_iff in Hnd. now apply IH.
  - apply NoDup_cons_iff in Hnd. destruct Hnd as [Hnin Hnd].
    constructor; [|now apply IH].
    intros Hin. apply Hnin. now apply (subseq_In l1 l2).
Qed.

(** X15.  What [get_fred_data] returns are exactly the observations of the
    provider whose value parsed, in the provider's order, and nothing when
    the API key is missing or the request fails; dates that are unique in
    the response stay unique in the result.  [get_yfinance_data] returns
    the provider's rows, and nothing when the download fails. *)
Theorem fetchers_return_usable_observations (P : providers)
    (symbol : string) (api_key : option string) (start_date end_date : date) :
  (forall d v,
      In (d, v) (get_fred_data P symbol api_key start_date end_date) <->
      key_missing api_key = false /\
      exists raw,
        fred_observations P symbol start_date end_date = Ok raw /\
        In (d, Some v) raw) /\
  (forall raw,
      fred_observations P symbol start_date end_date = Ok raw ->
      subseq (map fst (get_fred_data P symbol api_key start_date end_date))
        (map fst raw) /\
      (NoDup (map fst raw) ->
       NoDup (map fst (get_fred_data P symbol api_key start_date end_date)))) /\
  (forall o,
      In o (get_yfinance_data P symbol start_date end_date) <->
      exists data,
        yf_download P symbol start_date end_date = Ok data /\ In o data).
Proof.
  split; [|split].
  - intros d v. unfold get_fred_data.
    destruct (key_missing api_key).
    + split; [contradiction | intros [H _]; discriminate].
    + destruct (fred_observations P symbol start_date end_date) as [raw|e];
        cbn [bind try_except].
      * destruct raw as [|x raw]; cbn [empty try_except].
        -- split; [contradiction|]. intros (_ & raw' & E & H).
           injection E as <-. contradiction.
        -- rewrite dropna_In. split.
           ++ intros H. split; [reflexivity|]. eauto.
           ++ intros (_ & raw' & E & H). now injection E as <-.
      * split; [contradiction|]. intros (_ & raw' & E & _). discriminate.
  - intros raw E.
    assert (Hsub : subseq
              (map fst (get_fred_data P symbol api_key start_date end_date))
              (map fst raw)).
    { unfold get_fred_data. destruct (key_missing api_key);
        [apply subseq_nil_l|].
      rewrite E. cbn [bind]. destruct raw as [|x raw]; cbn [empty try_except].
      - constructor.
      - apply dropna_dates. }
    split; [exact Hsub | now apply subseq_NoDup].
  - intros o. unfold get_yfinance_data.
    destruct (yf_download P symbol start_date end_date) as [data|e];
      cbn [bind try_except].
    + destruct data as [|x data]; cbn [empty try_except].
      * split; [contradiction|]. intros (data' & E & H).
        injection E as <-. contradiction.
      * split; [eauto|]. intros (data' & E & H). now injection E as <-.
    + split; [contradiction|]. intros (data' & E & _). discriminate.
Qed.

(** ** The other table loops *)

Lemma guarded_cells_ok (TODAY : date) (h_df : series) :
  guarded_cells TODAY h_df =
  Ok (current_level h_df,
      Day (performance_of pct_cell TODAY (sort_index h_df)),
      Week (performance_of pct_cell TODAY (sort_index h_df)),
      Month (performance_of pct_cell TODAY (sort_index h_df))).
Proof.
  unfold guarded_cells, current_level.
  destruct (last_row_cases h_df) as [[-> ->]|(pre & o & -> & ->)].
  - reflexivity.
  - rewrite empty_snoc, iloc_neg_1_snoc. cbn [negb bind].
    now rewrite calculate_yfinance_performance_closed.
Qed.

Lemma for_each_map {A R : Type} (g : A -> R)
    (body : list R -> A -> result (list R)) (l : list A) (acc : list R) :
  (forall acc x, In x l -> body acc x = Ok (acc ++ [g x])) ->
  for_each l acc body = Ok (acc ++ map g l).
Proof.
  revert acc. induction l as [|x l IH]; intros acc Hbody; simpl.
  - now rewrite app_nil_r.
  - rewrite (Hbody acc x (or_introl eq_refl)). simpl.
    rewrite IH by (intros acc' y Hy; apply Hbody; now right).
    now rewrite <- app_assoc.
Qed.

Lemma sentiment_df_closed (P : providers) (TODAY : date)
    (TICKERS : dict string) :
  sentiment_df P TODAY TICKERS =
  Ok (map (fun kv => ticker_row P TODAY (fst kv) (snd kv)) TICKERS).
Proof.
  unfold sentiment_df.
  rewrite (for_each_map (fun kv => ticker_row P TODAY (fst kv) (snd kv)));
    [reflexivity|].
  intros acc [name ticker] _.
  rewrite calculate_yfinance_performance_closed. cbn [bind].
  now rewrite current_level_cell.
Qed.

Lemma crypto_df_tbl_closed (P : providers) (TODAY : date)
    (TICKERS : dict string) :
  crypto_df_tbl P TODAY TICKERS =
  Ok (map (fun kv => ticker_row P TODAY (fst kv) (snd kv)) TICKERS).
Proof.
  unfold crypto_df_tbl.
  rewrite (for_each_map (fun kv => ticker_row P TODAY (fst kv) (snd kv)));
    [reflexivity|].
  intros acc [name ticker] _. now rewrite guarded_cells_ok.
Qed.

Lemma ticker_row_fetched (P : providers) (TODAY : date) (name ticker : string) :
  fetched_row P TODAY ticker (ticker_row P TODAY name ticker).
Proof.
  split; [reflexivity|].
  rewrite calculate_yfinance_performance_closed. f_equal.
  apply performance_eta.
Qed.

Lemma fetched_row_degrades (P : providers) (TODAY : date) (ticker : string)
    (r : row) :
  fetched_row P TODAY ticker r ->
  failed_or_empty
    (yf_download P ticker (THREE_MONTHS_AGO_FOR_FETCH TODAY) TODAY) ->
  unavailable r.
Proof.
  intros [Ec Ep] Hfail.
  rewrite (get_yfinance_data_degrades _ _ _ _ Hfail) in Ec, Ep.
  split; [exact Ec|]. cbn in Ep. congruence.
Qed.

(** X16.  The sentiment loop and the crypto loop walk the items of their
    dictionary: for every dictionary they return, without raising, one row
    per entry in insertion order, with the ticker of the entry and the
    cells of its fetched frame, all "N/A" when the fetch failed.  The guard
    [if not h_df.empty] of the crypto loop changes nothing: on the same
    dictionary the two loops build the same rows. *)
Theorem items_loops_one_row_per_entry (P : providers) (TODAY : date)
    (TICKERS : dict string) :
  crypto_df_tbl P TODAY TICKERS = sentiment_df P TODAY TICKERS /\
  exists rows,
    sentiment_df P TODAY TICKERS = Ok rows /\
    map Asset rows = keys TICKERS /\
    map Ticker rows = map (fun kv => Some (snd kv)) TICKERS /\
    Forall2 (fun kv r => fetched_row P TODAY (snd kv) r) TICKERS rows /\
    Forall (us_equity_row_degrades P TODAY) rows.
Proof.
  split; [now rewrite crypto_df_tbl_closed, sentiment_df_closed|].
  eexists. split; [apply sentiment_df_closed|].
  split; [|split; [|split]].
  - unfold keys. rewrite map_map. reflexivity.
  - rewrite map_map. reflexivity.
  - induction TICKERS as [|[name ticker] T IH]; constructor;
      [apply ticker_row_fetched | exact IH].
  - apply Forall_forall. intros r Hr. apply in_map_iff in Hr.
    destruct Hr as ([name ticker] & <- & _). intros t Et Hfail.
    cbn in Et. injection Et as <-.
    apply (fetched_row_degrades P TODAY ticker); [|exact Hfail].
    apply ticker_row_fetched.
Qed.

Lemma items_loops_one_row_per_entry_witness :
  crypto_df_tbl offline 0 CRYPTO_TICKERS = sentiment_df offline 0 CRYPTO_TICKERS /\
  exists rows,
    sentiment_df offline 0 US_SENTIMENT_TICKERS = Ok rows /\
    map Asset rows = keys US_SENTIMENT_TICKERS /\
    Forall (us_equity_row_degrades offline 0) rows.
Proof.
  destruct (items_loops_one_row_per_entry offline 0 CRYPTO_TICKERS) as [E _].
  destruct (items_loops_one_row_per_entry offline 0 US_SENTIMENT_TICKERS)
    as (_ & rows & Er & Ea & _ & _ & Hd).
  split; [exact E|]. exists rows. now repeat split.
Defined.

Lemma comm_df_rows (P : providers) (TODAY : date) (TICKERS : dict string)
    (comm_order : list string) :
  (forall name, In name comm_order -> In name (keys TICKERS)) ->
  exists rows,
    comm_df P TODAY TICKERS comm_order = Ok rows /\
    Forall2 (commodity_row P TODAY TICKERS)
      (full_order TICKERS comm_order) rows.
Proof.
  intros Hord. unfold comm_df.
  apply (for_each_rows (commodity_row P TODAY TICKERS) _ _ []).
  intros acc name Hin.
  destruct (dict_find_key TICKERS name) as [tckr Ht];
    [now apply (full_order_keys TICKERS comm_order)|].
  unfold dict_get. rewrite Ht. cbn [bind].
  destruct (String.prefix "N/A" tckr) eqn:Ep; cbn [negb].
  - cbn [bind]. eexists. split; [reflexivity|].
    split; [reflexivity|]. split; [reflexivity|].
    exists tckr. split; [exact Ht|]. split.
    + intros _. now split.
    + rewrite Ep. discriminate.
  - rewrite guarded_cells_ok. cbn [bind]. eexists. split; [reflexivity|].
    split; [reflexivity|]. split; [reflexivity|].
    exists tckr. split; [exact Ht|]. split.
    + rewrite Ep. discriminate.
    + intros _. split; [reflexivity|].
      rewrite calculate_yfinance_performance_closed. f_equal.
      apply performance_eta.
Qed.

(** X17.  The commodity loop returns one row per name of its order, in
    order; the row of a placeholder ticker (one that starts with "N/A") is
    all "N/A" whatever the provider would return for it, and every other
    row holds the cells of its fetched frame. *)
Theorem commodity_placeholders_are_unavailable (P : providers) (TODAY : date)
    (TICKERS : dict string) (comm_order : list string) :
  (forall name, In name comm_order -> In name (keys TICKERS)) ->
  exists rows,
    comm_df P TODAY TICKERS comm_order = Ok rows /\
    map Asset rows = full_order TICKERS comm_order /\
    Forall2 (commodity_row P TODAY TICKERS)
      (full_order TICKERS comm_order) rows.
Proof.
  intros Hord.
  destruct (comm_df_rows P TODAY TICKERS comm_order Hord) as (rows & E & H).
  exists rows. split; [exact E|]. split; [|exact H].
  rewrite <- (map_id (full_order TICKERS comm_order)).
  eapply Forall2_map_eq; [|exact H]. intros x r (Ea & _). exact Ea.
Qed.

Lemma commodity_placeholders_are_unavailable_witness :
  exists rows,
    comm_df (serving [(1, 70%Q); (2, 71%Q)]) 2
      [ ("WTI Crude Oil", "CL=F"); ("Lumber", "N/A (no ticker)") ]%string
      [ "WTI Crude Oil"%string ] = Ok rows /\
    map Asset rows = [ "WTI Crude Oil"; "Lumber" ]%string /\
    Forall2 (commodity_row (serving [(1, 70%Q); (2, 71%Q)]) 2
               [ ("WTI Crude Oil", "CL=F");
                 ("Lumber", "N/A (no ticker)") ]%string)
      [ "WTI Crude Oil"; "Lumber" ]%string rows.
Proof.
  apply (commodity_placeholders_are_unavailable
           (serving [(1, 70%Q); (2, 71%Q)]) 2
           [ ("WTI Crude Oil", "CL=F"); ("Lumber", "N/A (no ticker)") ]%string
           [ "WTI Crude Oil"%string ]).
  intros name [<-|[]]. simpl. tauto.
Defined.

Lemma curr_df_tbl_rows (P : providers) (TODAY : date) (TICKERS : dict string)
    (curr_order : list string) :
  (forall name, In name curr_order -> In name (keys TICKERS)) ->
  exists rows,
    curr_df_tbl P TODAY TICKERS curr_order = Ok rows /\
    Forall2 (currency_row_spec P TODAY TICKERS)
      (full_order TICKERS curr_order) rows.
Proof.
  intros Hord. unfold curr_df_tbl.
  apply (for_each_rows (currency_row_spec P TODAY TICKERS) _ _ []).
  intros acc name Hin.
  destruct (dict_find_key TICKERS name) as [tckr Ht];
    [now apply (full_order_keys TICKERS curr_order)|].
  unfold dict_get. rewrite Ht. cbn [bind].
  set (h := get_yfinance_data P tckr (THREE_MONTHS_AGO_FOR_FETCH TODAY) TODAY).
  destruct h as [|o0 h'] eqn:Eh.
  - cbn [empty negb bind]. eexists. split; [reflexivity|].
    unfold currency_row_spec. cbn. fold h. rewrite Eh.
    repeat split; trivial. intros H. now contradiction H.
  - cbn [empty negb]. rewrite get_currency_performance_closed.
    destruct (sort_index_nonempty (o0 :: h')) as (pre & o & E);
      [discriminate|].
    rewrite E, last_row_snoc. cbn [bind option_map].
    eexists. split; [reflexivity|].
    unfold currency_row_spec. cbn. fold h. rewrite Eh.
    split; [reflexivity|]. split; [exact Ht|]. split.
    + rewrite calculate_yfinance_performance_closed, E. f_equal.
      apply performance_eta.
    + split; [discriminate|]. intros _. exists o.
      split; [now apply (latest_of_sorted _ pre) | reflexivity].
Qed.

(** X18.  The currency loop returns one row per name of its order, in
    order.  Its current rate is never [None]: it is "N/A" when the fetch
    returned nothing, and otherwise the value of an observation with the
    greatest date, while the changes are those of the percentage
    calculator on the fetched frame. *)
Theorem currency_rows_hold_latest_rate (P : providers) (TODAY : date)
    (TICKERS : dict string) (curr_order : list string) :
  (forall name, In name curr_order -> In name (keys TICKERS)) ->
  exists rows,
    curr_df_tbl P TODAY TICKERS curr_order = Ok rows /\
    map Currency rows = full_order TICKERS curr_order /\
    Forall2 (currency_row_spec P TODAY TICKERS)
      (full_order TICKERS curr_order) rows /\
    Forall (fun r => Current_Rate r <> PyNone) rows.
Proof.
  intros Hord.
  destruct (curr_df_tbl_rows P TODAY TICKERS curr_order Hord)
    as (rows & E & H).
  exists rows. split; [exact E|]. split; [|split; [exact H|]].
  - rewrite <- (map_id (full_order TICKERS curr_order)).
    eapply Forall2_map_eq; [|exact H]. intros x r (Ea & _). exact Ea.
  - eapply Forall2_Forall_r; [|exact H].
    intros name r (_ & _ & _ & Hempty & Hsome) Hnone.
    destruct (get_yfinance_data P (Currency_Ticker r)
                (THREE_MONTHS_AGO_FOR_FETCH TODAY) TODAY) as [|o l].
    + rewrite Hempty in Hnone by reflexivity. discriminate.
    + destruct Hsome as (o' & _ & Er); [discriminate|].
      rewrite Er in Hnone. discriminate.
Qed.

Lemma currency_rows_hold_latest_rate_witness :
  exists rows,
    curr_df_tbl (serving [(2, 150%Q); (1, 149%Q)]) 2
      [ ("Euro", "EURUSD=X"); ("DXY (US Dollar Index)", "DX-Y.NYB") ]%string
      [ "DXY (US Dollar Index)"%string ] = Ok rows /\
    map Currency rows = [ "DXY (US Dollar Index)"; "Euro" ]%string /\
    map Current_Rate rows = [ PyCell (Num 150); PyCell (Num 150) ] /\
    Forall (fun r => Current_Rate r <> PyNone) rows.
Proof.
  destruct (currency_rows_hold_latest_rate
              (serving [(2, 150%Q); (1, 149%Q)]) 2
              [ ("Euro", "EURUSD=X");
                ("DXY (US Dollar Index)", "DX-Y.NYB") ]%string
              [ "DXY (US Dollar Index)"%string ])
    as (rows & E & Ec & _ & Hn).
  - intros name [<-|[]]. simpl. tauto.
  - exists rows. split; [exact E|]. split; [exact Ec|]. split; [|exact Hn].
    vm_compute in E. injection E as <-. reflexivity.
Defined.

(** ** The global table and its top performer *)

Lemma for_each_rows_state {A R S : Type} (Q : A -> R -> Prop)
    (step : S -> A -> S)
    (body : list R * S -> A -> result (list R * S))
    (l : list A) (acc : list R) (s : S) :
  (forall acc s x, In x l ->
     exists r, body (acc, s) x = Ok (acc ++ [r], step s x) /\ Q x r) ->
  exists rows,
    for_each l (acc, s) body = Ok (acc ++ rows, fold_left step l s) /\
    Forall2 Q l rows.
Proof.
  revert acc s. induction l as [|x l IH]; intros acc s Hbody; simpl.
  - exists []. now rewrite app_nil_r.
  - destruct (Hbody acc s x (or_introl eq_refl)) as (r & -> & Hr). simpl.
    destruct (IH (acc ++ [r]) (step s x)) as (rows & -> & Hrows).
    { intros acc' s' y Hy. apply Hbody. now right. }
    exists (r :: rows). rewrite <- app_assoc. now split; [|constructor].
Qed.

Lemma global_equities_df_rows (P : providers) (TODAY : date)
    (TICKERS : dict string) (order : list string) :
  (forall name, In name order -> In name (keys TICKERS)) ->
  exists rows,
    global_equities_df P TODAY TICKERS order =
      Ok (rows, fold_left (store_hist P TODAY TICKERS)
                  (full_order TICKERS order) []) /\
    Forall2 (us_equity_row P TODAY TICKERS) (full_order TICKERS order) rows.
Proof.
  intros Hord. unfold global_equities_df.
  apply (for_each_rows_state (us_equity_row P TODAY TICKERS)
           (store_hist P TODAY TICKERS) _ _ [] []).
  intros acc s name Hin.
  destruct (dict_find_key TICKERS name) as [ticker Ht];
    [now apply (full_order_keys TICKERS order)|].
  unfold dict_get, store_hist. rewrite Ht. cbn [bind].
  rewrite calculate_yfinance_performance_closed. cbn [bind].
  rewrite current_level_cell. cbn [bind].
  eexists. split; [reflexivity|].
  exists ticker. cbn. repeat split; trivial.
  rewrite calculate_yfinance_performance_closed. f_equal. apply performance_eta.
Qed.

Lemma store_hist_find (P : providers) (TODAY : date) (TICKERS : dict string)
    (names : list string) (acc : dict series) (t : string) :
  (exists name,
      In name names /\ dict_find TICKERS name = Some t /\
      get_yfinance_data P t (THREE_MONTHS_AGO_FOR_FETCH TODAY) TODAY <> [] /\
      dict_find (fold_left (store_hist P TODAY TICKERS) names acc) t =
        Some (get_yfinance_data P t (THREE_MONTHS_AGO_FOR_FETCH TODAY) TODAY)) \/
  ((forall name,
       In name names -> dict_find TICKERS name = Some t ->
       get_yfinance_data P t (THREE_MONTHS_AGO_FOR_FETCH TODAY) TODAY = []) /\
   dict_find (fold_left (store_hist P TODAY TICKERS) names acc) t =
     dict_find acc t).
Proof.
  revert acc. induction names as [|name names IH] using rev_ind; intros acc.
  - right. split; [intros name []|reflexivity].
  - rewrite fold_left_app. cbn [fold_left].
    set (acc' := fold_left (store_hist P TODAY TICKERS) names acc).
    assert (Hstep :
      dict_find (store_hist P TODAY TICKERS acc' name) t =
      match dict_find TICKERS name with
      | Some t' =>
          if String.eqb t' t &&
             negb (empty (get_yfinance_data P t
                            (THREE_MONTHS_AGO_FOR_FETCH TODAY) TODAY))
          then Some (get_yfinance_data P t
                       (THREE_MONTHS_AGO_FOR_FETCH TODAY) TODAY)
          else dict_find acc' t
      | None => dict_find acc' t
      end).
    { unfold store_hist. destruct (dict_find TICKERS name) as [t'|];
        [|reflexivity].
      destruct (String.eqb_spec t' t) as [->|Hne]; cbn [andb].
      - destruct (empty (get_yfinance_data P t _ TODAY)); cbn [negb];
          [reflexivity|].
        now rewrite dict_find_set, String.eqb_refl.
      - destruct (empty (get_yfinance_data P t' _ TODAY)); cbn [negb];
          [reflexivity|].
        rewrite dict_find_set.
        destruct (String.eqb_spec t' t); [contradiction|reflexivity]. }
    rewrite Hstep.
    destruct (dict_find TICKERS name) as [t'|] eqn:Et.
    + destruct (String.eqb_spec t' t) as [->|Hne]; cbn [andb].
      * destruct (get_yfinance_data P t (THREE_MONTHS_AGO_FOR_FETCH TODAY)
                    TODAY) as [|o h] eqn:Eh; cbn [empty negb].
        -- destruct (IH acc) as [(n & Hn & Hf & Hne & E)|[Hnone E]].
           ++ now contradiction Hne.
           ++ right. split; [|exact E]. intros n Hn _.
              reflexivity.
        -- left. exists name. split; [apply in_or_app; right; now left|].
           split; [exact Et|]. split; [discriminate|reflexivity].
      * destruct (IH acc) as [(n & Hn & Hf & Hne' & E)|[Hnone E]].
        -- left. exists n. split; [apply in_or_app; now left|].
           now repeat split.
        -- right. split; [|exact E]. intros n Hn Hf.
           apply in_app_or in Hn. destruct Hn as [Hn|[<-|[]]];
             [now apply (Hnone n) | congruence].
    + destruct (IH acc) as [(n & Hn & Hf & Hne' & E)|[Hnone E]].
      * left. exists n. split; [apply in_or_app; now left|].
        now repeat split.
      * right. split; [|exact E]. intros n Hn Hf.
        apply in_app_or in Hn. destruct Hn as [Hn|[<-|[]]];
          [now apply (Hnone n) | congruence].
Qed.

(** X19.  The global loop returns one row per name of its order and fills
    [all_global_hist_data] with exactly the tickers of that order whose
    fetch returned rows, each with its fetched frame. *)
Theorem global_loop_keeps_fetched_frames (P : providers) (TODAY : date)
    (TICKERS : dict string) (order : list string) :
  (forall name, In name order -> In name (keys TICKERS)) ->
  exists rows all_global_hist_data,
    global_equities_df P TODAY TICKERS order = Ok (rows, all_global_hist_data) /\
    map Asset rows = full_order TICKERS order /\
    Forall2 (us_equity_row P TODAY TICKERS) (full_order TICKERS order) rows /\
    forall t hist,
      dict_find all_global_hist_data t = Some hist <->
      hist = get_yfinance_data P t (THREE_MONTHS_AGO_FOR_FETCH TODAY) TODAY /\
      hist <> [] /\
      exists name,
        In name (full_order TICKERS order) /\
        dict_find TICKERS name = Some t.
Proof.
  intros Hord.
  destruct (global_equities_df_rows P TODAY TICKERS order Hord)
    as (rows & E & H).
  exists rows, (fold_left (store_hist P TODAY TICKERS)
                  (full_order TICKERS order) []).
  split; [exact E|]. split; [|split; [exact H|]].
  - rewrite <- (map_id (full_order TICKERS order)).
    eapply Forall2_map_eq; [|exact H]. intros x r (t & _ & Ea & _). exact Ea.
  - intros t hist.
    destruct (store_hist_find P TODAY TICKERS (full_order TICKERS order) [] t)
      as [(n & Hn & Hf & Hne & Efind)|[Hnone Efind]]; rewrite Efind.
    + split.
      * intros Eh. injection Eh as <-. split; [reflexivity|].
        split; [exact Hne|]. now exists n.
      * intros (-> & _ & _). reflexivity.
    + cbn [dict_find]. split; [discriminate|].
      intros (-> & Hne & n & Hn & Hf). now contradiction Hne; apply (Hnone n).
Qed.

Lemma global_loop_keeps_fetched_frames_witness :
  exists rows all_global_hist_data,
    global_equities_df (serving [(1, 70%Q); (2, 71%Q)]) 2
      [ ("Brazil (EWZ)", "EWZ");
        ("All Country World Index (ACWI)", "ACWI") ]%string
      [ "All Country World Index (ACWI)"%string ]
    = Ok (rows, all_global_hist_data) /\
    map Asset rows =
      [ "All Country World Index (ACWI)"; "Brazil (EWZ)" ]%string /\
    dict_find all_global_hist_data "EWZ" = Some [(1, 70%Q); (2, 71%Q)].
Proof.
  destruct (global_loop_keeps_fetched_frames
              (serving [(1, 70%Q); (2, 71%Q)]) 2
              [ ("Brazil (EWZ)", "EWZ");
                ("All Country World Index (ACWI)", "ACWI") ]%string
              [ "All Country World Index (ACWI)"%string ])
    as (rows & all & E & Ea & _ & Hall).
  - intros name [<-|[]]. simpl. tauto.
  - exists rows, all. split; [exact E|]. split; [exact Ea|].
    apply Hall. split; [reflexivity|]. split; [discriminate|].
    exists "Brazil (EWZ)"%string. split; [simpl; tauto | reflexivity].
Defined.

Lemma monthly_perf_from_In {P : Pandas} (df : list row) (label i : nat) (q : Q) :
  In (i, q) (monthly_perf_from label df) <->
  (label <= i)%nat /\
  exists r, nth_error df (i - label) = Some r /\
            to_numeric (Past_Month_Change r) = Some q.
Proof.
  revert label. induction df as [|r df IH]; intros label; cbn [monthly_perf_from].
  - split; [contradiction|]. intros (_ & r & E & _).
    destruct (i - label)%nat; discriminate.
  - assert (Hrest :
      In (i, q) (monthly_perf_from (S label) df) <->
      (label < i)%nat /\
      exists r', nth_error (r :: df) (i - label) = Some r' /\
                 to_numeric (Past_Month_Change r') = Some q).
    { rewrite IH. split.
      - intros (Hle & r' & E & Hq). split; [lia|]. exists r'.
        replace (i - label)%nat with (S (i - S label)) by lia. now split.
      - intros (Hlt & r' & E & Hq). split; [lia|]. exists r'.
        replace (i - label)%nat with (S (i - S label)) in E by lia.
        now split. }
    destruct (to_numeric (Past_Month_Change r)) as [q0|] eqn:E0.
    + cbn [In]. rewrite Hrest. split.
      * intros [H|(Hlt & r' & E & Hq)].
        -- injection H as <- <-. split; [lia|]. exists r.
           rewrite Nat.sub_diag. now split.
        -- split; [lia|]. now exists r'.
      * intros (Hle & r' & E & Hq).
        destruct (Nat.eq_dec i label) as [->|Hne].
        -- left. rewrite Nat.sub_diag in E. injection E as <-. congruence.
        -- right. split; [lia|]. now exists r'.
    + rewrite Hrest. split.
      * intros (Hlt & r' & E & Hq). split; [lia|]. now exists r'.
      * intros (Hle & r' & E & Hq).
        destruct (Nat.eq_dec i label) as [->|Hne].
        -- rewrite Nat.sub_diag in E. injection E as <-. congruence.
        -- split; [lia|]. now exists r'.
Qed.

Lemma monthly_perf_from_nil {P : Pandas} (df : list row) (label : nat) :
  monthly_perf_from label df = [] <->
  forall r, In r df -> to_numeric (Past_Month_Change r) = None.
Proof.
  revert label. induction df as [|r df IH]; intros label; cbn [monthly_perf_from].
  - split; [intros _ r []|reflexivity].
  - destruct (to_numeric (Past_Month_Change r)) as [q|] eqn:E.
    + split; [discriminate|]. intros H.
      specialize (H r (or_introl eq_refl)). congruence.
    + rewrite IH. split.
      * intros H r' [<-|Hr']; [exact E | now apply H].
      * intros H r' Hr'. apply H. now right.
Qed.

Lemma idxmax_from_spec (l : list (nat * Q)) (best : nat * Q) :
  exists x,
    In x (best :: l) /\ idxmax_from best l = fst x /\
    forall y, In y (best :: l) -> (snd y <= snd x)%Q.
Proof.
  revert best. induction l as [|a l IH]; intros best; cbn [idxmax_from].
  - exists best. split; [now left|]. split; [reflexivity|].
    intros y [<-|[]]. apply Qle_refl.
  - destruct (Qlt_le_dec (snd best) (snd a)) as [Hlt|Hle].
    + destruct (IH a) as (x & Hin & E & Hmax).
      exists x. split; [now right|]. split; [exact E|].
      intros y [<-|Hy]; [|now apply Hmax].
      apply Qle_trans with (snd a); [now apply Qlt_le_weak|].
      apply Hmax. now left.
    + destruct (IH best) as (x & Hin & E & Hmax).
      exists x. split; [destruct Hin as [<-|Hin]; [now left|now right; right]|].
      split; [exact E|].
      intros y [<-|[<-|Hy]].
      * apply Hmax. now left.
      * apply Qle_trans with (snd best); [exact Hle|]. apply Hmax. now left.
      * apply Hmax. now right.
Qed.

Lemma Forall2_In_r {A R : Type} (Q : A -> R -> Prop) (l : list A)
    (rows : list R) (r : R) :
  Forall2 Q l rows -> In r rows -> exists x, In x l /\ Q x r.
Proof.
  induction 1 as [|x r' l rows Hxr _ IH]; intros Hin; [contradiction|].
  destruct Hin as [<-|Hin].
  - exists x. split; [now left|exact Hxr].
  - destruct (IH Hin) as (y & Hy & Hq). exists y. split; [now right|exact Hq].
Qed.

(** A row of a ticker loop with a numeric month had a non-empty fetch. *)
Lemma numeric_month_was_fetched {PD : Pandas} (P : providers) (TODAY : date)
    (ticker : string) (r : row) (q : Q) :
  str_to_numeric "N/A" = None ->
  calculate_yfinance_performance TODAY
    (get_yfinance_data P ticker (THREE_MONTHS_AGO_FOR_FETCH TODAY) TODAY)
  = Ok (changes r) ->
  to_numeric (Past_Month_Change r) = Some q ->
  get_yfinance_data P ticker (THREE_MONTHS_AGO_FOR_FETCH TODAY) TODAY <> [].
Proof.
  intros Hna Ep Hq Hempty. rewrite Hempty in Ep. cbn in Ep.
  injection Ep as _ _ Em. rewrite <- Em in Hq. cbn in Hq. congruence.
Qed.

(** The 30-day chart of a fetched frame: the figure over its last rows
    when it has two rows or more, and the message of a frame that is too
    short when it has one. *)
Lemma chart_of_fetched_frame (hist : series) (title : string) :
  ((2 <= List.length hist)%nat ->
   generate_plotly_chart (Some hist) title "Close" 30 =
     Plot title (map fst (iloc_tail 30 (sort_index hist)))
                (map snd (iloc_tail 30 (sort_index hist))) /\
   List.length (iloc_tail 30 (sort_index hist)) =
     Nat.min 30 (List.length hist)) /\
  (List.length hist = 1%nat ->
   generate_plotly_chart (Some hist) title "Close" 30 =
     Html ("<div class='my-4 p-4 bg-yellow-100 text-yellow-700 rounded-md'>"
           ++ "Not enough data for 30-day chart for " ++ title
           ++ " (found 1 points).</div>")).
Proof.
  destruct (iloc_tail_positive 30 (sort_index hist) ltac:(lia)) as [_ Hlen].
  rewrite sort_index_length in Hlen.
  change (Z.to_nat 30) with 30%nat in Hlen.
  split; intros Hn.
  - split; [|exact Hlen]. unfold generate_plotly_chart.
    destruct hist as [|o0 df]; [simpl in Hn; lia|]. cbn [empty orb negb].
    rewrite String.eqb_refl. cbn [negb]. rewrite short_frame.
    replace (List.length (iloc_tail 30 (sort_index (o0 :: df))) <? 2)%nat
      with false; [reflexivity|].
    symmetry. apply Nat.ltb_ge. rewrite Hlen. lia.
  - unfold generate_plotly_chart.
    destruct hist as [|o0 df]; [discriminate|]. cbn [empty orb negb].
    rewrite String.eqb_refl. cbn [negb]. rewrite short_frame.
    assert (E1 : List.length (iloc_tail 30 (sort_index (o0 :: df))) = 1%nat)
      by (rewrite Hlen, Hn; reflexivity).
    unfold len. rewrite E1. reflexivity.
Qed.

(** X20.  After the global loop, what stands in the place of the chart of
    the month's top performer is decided by the table alone: with no row
    the message "Global equities data empty.", with no numeric month "No
    valid monthly perf data.", and otherwise what [generate_plotly_chart]
    returns for the frame fetched for a row whose month change is the
    greatest.  That frame is not empty: the result is the figure over its
    last [min(30, n)] rows sorted by date when it has two rows or more, and
    the message "Not enough data ... (found 1 points)" when it has one.  The
    messages "Top performer index error." and "Hist data ... not found."
    are never produced, and nothing is raised. *)
Theorem top_performer_chart_outcome {PD : Pandas} (P : providers)
    (TODAY : date) (TICKERS : dict string) (order : list string)
    (rows : list row) (all_global_hist_data : dict series) :
  str_to_numeric "N/A" = None ->
  (forall name, In name order -> In name (keys TICKERS)) ->
  global_equities_df P TODAY TICKERS order = Ok (rows, all_global_hist_data) ->
  (rows = [] ->
   top_performer_chart_html rows all_global_hist_data =
   Ok (Html "<p class='text-sm text-orange-600'>Global equities data empty.</p>")) /\
  (rows <> [] ->
   (forall r, In r rows -> to_numeric (Past_Month_Change r) = None) ->
   top_performer_chart_html rows all_global_hist_data =
   Ok (Html "<p class='text-sm text-orange-600'>No valid monthly perf data.</p>")) /\
  ((exists r, In r rows /\ to_numeric (Past_Month_Change r) <> None) ->
   exists top t qt hist title,
     In top rows /\ Ticker top = Some t /\
     to_numeric (Past_Month_Change top) = Some qt /\
     (forall r q, In r rows -> to_numeric (Past_Month_Change r) = Some q ->
                  (q <= qt)%Q) /\
     hist = get_yfinance_data P t (THREE_MONTHS_AGO_FOR_FETCH TODAY) TODAY /\
     title = (Asset top ++ " (" ++ t ++ ") - 30 Day Performance")%string /\
     hist <> [] /\
     top_performer_chart_html rows all_global_hist_data =
       Ok (generate_plotly_chart (Some hist) title "Close" 30) /\
     ((2 <= List.length hist)%nat ->
      top_performer_chart_html rows all_global_hist_data =
        Ok (Plot title (map fst (iloc_tail 30 (sort_index hist)))
                       (map snd (iloc_tail 30 (sort_index hist)))) /\
      List.length (iloc_tail 30 (sort_index hist)) =
        Nat.min 30 (List.length hist)) /\
     (List.length hist = 1%nat ->
      top_performer_chart_html rows all_global_hist_data =
        Ok (Html ("<div class='my-4 p-4 bg-yellow-100 text-yellow-700 rounded-md'>"
                  ++ "Not enough data for 30-day chart for " ++ title
                  ++ " (found 1 points).</div>")))).
Proof.
  intros Hna Hord E.
  destruct (global_equities_df_rows P TODAY TICKERS order Hord)
    as (rows' & E' & Hrows).
  rewrite E in E'. injection E' as Er Eall. subst rows'.
  split; [intros ->; reflexivity|]. split.
  - intros Hne Hnone. unfold top_performer_chart_html.
    destruct rows as [|r0 rows]; [contradiction|]. cbn [empty negb].
    now rewrite (proj2 (monthly_perf_from_nil (r0 :: rows) 0) Hnone).
  - intros (r1 & Hr1 & Hq1).
    assert (Ec : exists top t qt,
               In top rows /\ Ticker top = Some t /\
               to_numeric (Past_Month_Change top) = Some qt /\
               (forall r q, In r rows ->
                            to_numeric (Past_Month_Change r) = Some q ->
                            (q <= qt)%Q) /\
               get_yfinance_data P t (THREE_MONTHS_AGO_FOR_FETCH TODAY) TODAY
                 <> [] /\
               top_performer_chart_html rows all_global_hist_data =
               Ok (generate_plotly_chart
                     (Some (get_yfinance_data P t
                              (THREE_MONTHS_AGO_FOR_FETCH TODAY) TODAY))
                     (Asset top ++ " (" ++ t ++ ") - 30 Day Performance")%string
                     "Close" 30)).
    { rewrite Eall. unfold top_performer_chart_html.
      destruct rows as [|r0 rows]; [contradiction|]. cbn [empty negb].
      destruct (monthly_perf_from 0 (r0 :: rows)) as [|best others] eqn:Em.
      { exfalso. apply Hq1.
        apply (proj1 (monthly_perf_from_nil (r0 :: rows) 0) Em r1 Hr1). }
      destruct (idxmax_from_spec others best) as ([i qt] & Hin & Ei & Hmax).
      rewrite Ei. cbn [fst]. rewrite <- Em in Hin, Hmax.
      apply monthly_perf_from_In in Hin.
      destruct Hin as (_ & top & Etop & Hqt). rewrite Nat.sub_0_r in Etop.
      rewrite Etop.
      assert (Htop : In top (r0 :: rows)) by (eapply nth_error_In, Etop).
      destruct (Forall2_In_r _ _ _ _ Hrows Htop)
        as (name & Hname & t & Hf & Ea & Et & _ & Ep).
      rewrite Et. cbn [bind].
      pose proof (numeric_month_was_fetched P TODAY t top qt Hna Ep Hqt)
        as Hne.
      destruct (store_hist_find P TODAY TICKERS (full_order TICKERS order)
                  [] t) as [(n & Hn & Hfn & _ & Efind)|[Hnone _]].
      - rewrite Efind. exists top, t, qt.
        split; [exact Htop|]. split; [exact Et|]. split; [exact Hqt|].
        split; [|split; [exact Hne | reflexivity]].
        intros r q Hr Hq. destruct (In_nth_error _ _ Hr) as [j Ej].
        apply (Hmax (j, q)). apply monthly_perf_from_In.
        split; [lia|]. exists r. rewrite Nat.sub_0_r. now split.
      - now contradiction Hne; apply (Hnone name). }
    destruct Ec as (top & t & qt & Htop & Et & Hqt & Hmax & Hne & Ec).
    exists top, t, qt,
      (get_yfinance_data P t (THREE_MONTHS_AGO_FOR_FETCH TODAY) TODAY),
      (Asset top ++ " (" ++ t ++ ") - 30 Day Performance")%string.
    split; [exact Htop|]. split; [exact Et|]. split; [exact Hqt|].
    split; [exact Hmax|]. split; [reflexivity|]. split; [reflexivity|].
    split; [exact Hne|]. split; [exact Ec|].
    destruct (chart_of_fetched_frame
                (get_yfinance_data P t (THREE_MONTHS_AGO_FOR_FETCH TODAY) TODAY)
                (Asset top ++ " (" ++ t ++ ") - 30 Day Performance")%string)
      as [H2 H1].
    split.
    + intros Hn. destruct (H2 Hn) as [Ep El]. split; [|exact El].
      now rewrite Ec, Ep.
    + intros Hn. now rewrite Ec, (H1 Hn).
Qed.

Lemma top_performer_chart_outcome_witness :
  (exists rows all_global_hist_data top t,
     global_equities_df (serving [(1, 100%Q); (40, 110%Q)]) 40
       [ ("Brazil (EWZ)", "EWZ");
         ("All Country World Index (ACWI)", "ACWI") ]%string
       [ "All Country World Index (ACWI)"%string ]
     = Ok (rows, all_global_hist_data) /\
     In top rows /\ Ticker top = Some t /\
     @top_performer_chart_html (stable_pandas (fun _ => None))
       rows all_global_hist_data =
     Ok (Plot (Asset top ++ " (" ++ t ++ ") - 30 Day Performance")%string
              [1; 40] [100%Q; 110%Q])) /\
  (exists rows all_global_hist_data top t,
     global_equities_df (serving [(1, 100%Q)]) 40
       [ ("Brazil (EWZ)", "EWZ") ]%string []
     = Ok (rows, all_global_hist_data) /\
     In top rows /\ Ticker top = Some t /\
     @top_performer_chart_html (stable_pandas (fun _ => None))
       rows all_global_hist_data =
     Ok (Html ("<div class='my-4 p-4 bg-yellow-100 text-yellow-700 rounded-md'>"
               ++ "Not enough data for 30-day chart for "
               ++ (Asset top ++ " (" ++ t ++ ") - 30 Day Performance")
               ++ " (found 1 points).</div>"))).
Proof.
  split.
  - destruct (global_equities_df (serving [(1, 100%Q); (40, 110%Q)]) 40
                [ ("Brazil (EWZ)", "EWZ");
                  ("All Country World Index (ACWI)", "ACWI") ]%string
                [ "All Country World Index (ACWI)"%string ])
      as [[rows all]|e] eqn:E; [|discriminate].
    pose proof E as E'. vm_compute in E'. injection E' as Hrows Hall.
    destruct (@top_performer_chart_outcome (stable_pandas (fun _ => None))
                (serving [(1, 100%Q); (40, 110%Q)]) 40
                [ ("Brazil (EWZ)", "EWZ");
                  ("All Country World Index (ACWI)", "ACWI") ]%string
                [ "All Country World Index (ACWI)"%string ] rows all
                eq_refl) as (_ & _ & H).
    + intros name [<-|[]]. simpl. tauto.
    + exact E.
    + destruct H as (top & t & qt & hist & title & Htop & Et & _ & _
                     & -> & -> & _ & _ & Hplot & _).
      * rewrite <- Hrows. eexists. split; [now left|]. discriminate.
      * exists rows, all, top, t. split; [reflexivity|].
        split; [exact Htop|]. split; [exact Et|].
        destruct Hplot as [Hp _]; [simpl; lia|]. exact Hp.
  - destruct (global_equities_df (serving [(1, 100%Q)]) 40
                [ ("Brazil (EWZ)", "EWZ") ]%string [])
      as [[rows all]|e] eqn:E; [|discriminate].
    pose proof E as E'. vm_compute in E'. injection E' as Hrows Hall.
    destruct (@top_performer_chart_outcome (stable_pandas (fun _ => None))
                (serving [(1, 100%Q)]) 40
                [ ("Brazil (EWZ)", "EWZ") ]%string [] rows all
                eq_refl) as (_ & _ & H).
    + intros name [].
    + exact E.
    + destruct H as (top & t & qt & hist & title & Htop & Et & _ & _
                     & -> & -> & _ & _ & _ & Hshort).
      * rewrite <- Hrows. eexists. split; [now left|]. discriminate.
      * exists rows, all, top, t. split; [reflexivity|].
        split; [exact Htop|]. split; [exact Et|].
        apply Hshort. reflexivity.
Defined.

Lemma performance_of_pct_fields (TODAY : date) (df : series) (c : cell) :
  c = Day (performance_of pct_cell TODAY df) \/
  c = Week (performance_of pct_cell TODAY df) \/
  c = Month (performance_of pct_cell TODAY df) ->
  (c = NA \/ exists q, c = Num q) /\ (df = [] -> c = NA).
Proof.
  intros Hc. split.
  - unfold performance_of in Hc. destruct (rev df) as [|cur rest].
    + left. cbn in Hc. intuition.
    + cbn in Hc. destruct Hc as [->|[->| ->]].
      * destruct rest as [|prev rest]; [now left|].
        destruct (pct_cell_cases (snd cur) (snd prev)) as [[-> _]|[-> _]];
          eauto.
      * destruct (lookback_cell_pct_cases TODAY 7 df (snd cur)); auto.
      * destruct (lookback_cell_pct_cases TODAY 30 df (snd cur)); auto.
  - intros ->. cbn in Hc. intuition.
Qed.

(** X21.  The top and bottom panels of the global table, for each of the
    three change columns: every ranked row is a row of the table whose
    fetch returned data, and the value it is ranked by is the number the
    calculator computed; an asset whose fetch failed is in neither panel. *)
Theorem ranked_rows_were_fetched {PD : Pandas} (P : providers)
    (TODAY : date) (TICKERS : dict string) (order : list string)
    (rows : list row) (all_global_hist_data : dict series)
    (column : row -> cell) (k : nat) :
  str_to_numeric "N/A" = None -> sort_values_sorts PD ->
  (forall name, In name order -> In name (keys TICKERS)) ->
  global_equities_df P TODAY TICKERS order = Ok (rows, all_global_hist_data) ->
  column = Past_Day_Change \/ column = Past_Week_Change \/
  column = Past_Month_Change ->
  forall r q,
    In (r, q) (fst (get_top_bottom_performers column rows k)) \/
    In (r, q) (snd (get_top_bottom_performers column rows k)) ->
    In r rows /\ column r = Num q /\
    exists t,
      Ticker r = Some t /\
      get_yfinance_data P t (THREE_MONTHS_AGO_FOR_FETCH TODAY) TODAY <> [].
Proof.
  intros Hna sorts Hord E Hcol r q Hin.
  destruct (global_equities_df_rows P TODAY TICKERS order Hord)
    as (rows' & E' & Hrows).
  rewrite E in E'. injection E' as <- _.
  assert (Ht : In (r, q) (coerce_dropna column rows)).
  { destruct Hin as [Hin|Hin];
      [now apply (top_in_table column sorts rows k)
      |now apply (bottom_in_table column sorts rows k)]. }
  apply coerce_dropna_value in Ht. destruct Ht as [Hr Hq].
  destruct (Forall2_In_r _ _ _ _ Hrows Hr)
    as (name & Hname & t & Hf & Ea & Et & _ & Ep).
  rewrite calculate_yfinance_performance_closed in Ep. injection Ep as Ep.
  set (h := get_yfinance_data P t (THREE_MONTHS_AGO_FOR_FETCH TODAY) TODAY)
    in *.
  destruct (performance_of_pct_fields TODAY (sort_index h) (column r))
    as [Hcases Hempty].
  { rewrite Ep. destruct Hcol as [->|[->| ->]]; cbn; auto. }
  assert (Hnum : exists q', column r = Num q').
  { destruct Hcases as [Hc|Hc]; [|exact Hc].
    rewrite Hc in Hq. cbn in Hq. congruence. }
  destruct Hnum as [q' Hq']. rewrite Hq' in Hq. cbn in Hq. injection Hq as ->.
  split; [exact Hr|]. split; [exact Hq'|]. exists t. split; [exact Et|].
  intros Hh. rewrite Hempty in Hq'; [discriminate|].
  unfold h. rewrite Hh. reflexivity.
Qed.

Lemma ranked_rows_were_fetched_witness :
  exists rows all_global_hist_data r q t,
    global_equities_df (serving [(1, 100%Q); (40, 110%Q)]) 40
      [ ("Brazil (EWZ)", "EWZ");
        ("All Country World Index (ACWI)", "ACWI") ]%string
      [ "All Country World Index (ACWI)"%string ]
    = Ok (rows, all_global_hist_data) /\
    In (r, q) (fst (@get_top_bottom_performers (stable_pandas (fun _ => None))
                      _ Past_Month_Change rows 5)) /\
    In r rows /\ Past_Month_Change r = Num q /\ Ticker r = Some t /\
    get_yfinance_data (serving [(1, 100%Q); (40, 110%Q)]) t
      (THREE_MONTHS_AGO_FOR_FETCH 40) 40 <> [].
Proof.
  destruct (global_equities_df (serving [(1, 100%Q); (40, 110%Q)]) 40
              [ ("Brazil (EWZ)", "EWZ");
                ("All Country World Index (ACWI)", "ACWI") ]%string
              [ "All Country World Index (ACWI)"%string ])
    as [[rows all]|e] eqn:E; [|discriminate].
  pose proof E as E'. vm_compute in E'. injection E' as Hrows Hall.
  destruct (fst (@get_top_bottom_performers (stable_pandas (fun _ => None))
                   _ Past_Month_Change rows 5)) as [|[r q] l] eqn:Et.
  - rewrite <- Hrows in Et. vm_compute in Et. discriminate.
  - destruct (@ranked_rows_were_fetched (stable_pandas (fun _ => None))
                (serving [(1, 100%Q); (40, 110%Q)]) 40
                [ ("Brazil (EWZ)", "EWZ");
                  ("All Country World Index (ACWI)", "ACWI") ]%string
                [ "All Country World Index (ACWI)"%string ] rows all
                Past_Month_Change 5 eq_refl (stable_pandas_sorts _))
      with (r := r) (q := q) as (Hr & Hq & t & Ht & Hne).
    + intros name [<-|[]]. simpl. tauto.
    + exact E.
    + right. now right.
    + left. rewrite Et. now left.
    + exists rows, all, r, q, t. split; [reflexivity|].
      split; [rewrite Et; now left|]. split; [exact Hr|].
      split; [exact Hq|]. split; [exact Ht | exact Hne].
Defined.

(** [contains] is the substring test. *)
Lemma prefix_spec (sub s : string) :
  String.prefix sub s = true <-> exists post, s = (sub ++ post)%string.
Proof.
  revert s. induction sub as [|a sub IH]; intros s.
  - split; [intros _; now exists s | intros _; now destruct s].
  - destruct s as [|b s]; cbn [String.prefix append].
    + split; [discriminate | intros (post & E); discriminate].
    + destruct (ascii_dec a b) as [->|Hne].
      * rewrite IH. split; intros (post & E); exists post; congruence.
      * split; [discriminate|]. intros (post & E). congruence.
Qed.

Lemma contains_spec (sub s : string) :
  contains sub s = true <->
  exists pre post, s = (pre ++ sub ++ post)%string.
Proof.
  induction s as [|b s IH]; cbn [contains].
  - destruct (String.prefix sub "") eqn:Ep.
    + split; [|reflexivity]. intros _. apply prefix_spec in Ep.
      destruct Ep as [post E]. now exists ""%string, post.
    + split; [discriminate|]. intros (pre & post & E).
      destruct pre; [|discriminate]. simpl in E.
      assert (String.prefix sub "" = true)
        by (apply prefix_spec; now exists post).
      congruence.
  - destruct (String.prefix sub (String b s)) eqn:Ep.
    + split; [|reflexivity]. intros _. apply prefix_spec in Ep.
      destruct Ep as [post E]. now exists ""%string, post.
    + rewrite IH. split.
      * intros (pre & post & E). exists (String b pre), post.
        simpl. now rewrite E.
      * intros (pre & post & E). destruct pre as [|c pre].
        -- simpl in E.
           assert (String.prefix sub (String b s) = true)
             by (apply prefix_spec; now exists post).
           congruence.
        -- simpl in E. injection E as _ E. now exists pre, post.
Qed.
